(** * vite-plugin-robots-txt: a shallow embedding of the robots.txt synthesizer

    The repository holds two copies of the plugin, [src/index.ts] (module
    [Index]) and [vite/plugins/generate-robots.ts] (module
    [GenerateRobots]). They share [buildContent] and differ in the way
    [serializePolicies] strips the end of the head and in the sink:
    [src/index.ts] writes the file with [writeFileIfChanged].

    Modelling choices.
    - A JavaScript string is the sequence of its UTF-16 code units,
      [list N]; white space and line terminators are those of ECMAScript.
    - The two regular expressions of the plugin are embedded as the
      functions that [String.prototype.replace] computes with them: the
      leftmost match, found by the backtracking of the greedy quantifier.
    - An optional field ([x?: T]) is an [option T]; a "value or producer"
      field is an inductive type with one constructor per case.
    - A user supplied builder is an arbitrary JavaScript function: it acts
      on an abstract world [W], returns or throws, and every invocation
      made by the synthesizer is recorded in a call log.
    - The file system is a finite map from paths to nodes together with
      the log of the file writes performed; text is stored as UTF-8. The
      parent of a path is what [path.dirname] returns, and [mkdir] with
      [recursive] follows it upwards.
    - A plugin object is the record of the variables of its closure, and
      a hook is a function of these variables; [process.cwd] and the
      functions of [node:path] are taken as given. A hook runs on one
      state, in which the world of the user functions includes the disk.

    The file has these parts: the embedding of the code, the vocabulary of
    the statements, the lemmas about the embedding, the claims of the
    specification, in their order, and properties of the code beyond the
    claims. *)

From Stdlib Require Import List NArith Lia Bool Ascii String Sorted.
From stdpp Require Import base list gmap.
Import ListNotations.

Local Open Scope N_scope.
Local Open Scope list_scope.

(** ** JavaScript strings *)

Abbreviation jsstring := (list N).

(** An ASCII literal as a sequence of code units. *)
Definition lit (s : string) : jsstring :=
  map N_of_ascii (list_ascii_of_string s).

Definition nl : jsstring := [10].

(** ECMAScript [LineTerminator]: LF, CR, LS, PS. *)
Definition isLineTerminator (c : N) : bool :=
  (c =? 10) || (c =? 13) || (c =? 8232) || (c =? 8233).

(** ECMAScript [WhiteSpace]: TAB, VT, FF, ZWNBSP and the category Zs. *)
Definition isWhiteSpace (c : N) : bool :=
  (c =? 9) || (c =? 11) || (c =? 12) || (c =? 32) || (c =? 160)
  || (c =? 5760) || ((8192 <=? c) && (c <=? 8202))
  || (c =? 8239) || (c =? 8287) || (c =? 12288) || (c =? 65279).

(** The class [\s] of regular expressions, which is also what
    [String.prototype.trim] strips. *)
Definition isSpace (c : N) : bool := isWhiteSpace c || isLineTerminator c.

Fixpoint dropWhile {A} (f : A -> bool) (l : list A) : list A :=
  match l with
  | [] => []
  | x :: r => if f x then dropWhile f r else l
  end.

Definition trimStart (s : jsstring) : jsstring := dropWhile isSpace s.
Definition trimEnd (s : jsstring) : jsstring :=
  reverse (dropWhile isSpace (reverse s)).
Definition trim (s : jsstring) : jsstring := trimEnd (trimStart s).

(** [Array.prototype.join]. *)
Fixpoint join (sep : jsstring) (xs : list jsstring) : jsstring :=
  match xs with
  | [] => []
  | x :: rest =>
      match rest with
      | [] => x
      | _ :: _ => x ++ sep ++ join sep rest
      end
  end.

(** Truthiness of a string: the empty string is falsy. *)
Definition truthy (s : jsstring) : bool :=
  match s with [] => false | _ :: _ => true end.

(** ** Regular expressions used by the plugin *)

(** Length of the longest prefix made of characters satisfying [f]. *)
Fixpoint span {A} (f : A -> bool) (l : list A) : nat :=
  match l with
  | [] => O
  | x :: r => if f x then S (span f r) else O
  end.

(** The assertion [$] under the [m] flag, at the position in front of
    [rest]: end of input, or a line terminator follows. *)
Definition eolMultiline (rest : jsstring) : bool :=
  match rest with
  | [] => true
  | c :: _ => isLineTerminator c
  end.

(** Backtracking of the greedy [\s+] in front of [$]: the longest length
    [1 <= j' <= j] such that [$] holds after [j'] characters of [s]. *)
Fixpoint backtrackSpaces (j : nat) (s : jsstring) : option nat :=
  match j with
  | O => None
  | S j' =>
      if eolMultiline (skipn j s) then Some j else backtrackSpaces j' s
  end.

(** A match of [/\s+$/m] starting exactly at the head of [s]. *)
Definition matchSpacesEol (s : jsstring) : option nat :=
  backtrackSpaces (span isSpace s) s.

(** [s.replace(/\s+$/m, empty)]: no [g] flag, so only the leftmost match
    is removed. *)
Fixpoint replaceSpacesEol (s : jsstring) : jsstring :=
  match s with
  | [] => []
  | c :: r =>
      match matchSpacesEol (c :: r) with
      | Some j => skipn j (c :: r)
      | None => c :: replaceSpacesEol r
      end
  end.

Definition isNl (c : N) : bool := c =? 10.

(** A match of [/\n{3,}$/] starting exactly at the head of [s]: the greedy
    run of newlines must have length at least three and reach the end of
    the input (a shorter run is followed by a newline, where [$] fails). *)
Definition matchNewlinesEnd (s : jsstring) : bool :=
  let k := span isNl s in
  (3 <=? k)%nat && (k =? length s)%nat.

(** [s.replace(/\n{3,}$/g, "\n\n")]: a match ends at the end of the input,
    so there is at most one. *)
Fixpoint replaceNewlinesEnd (s : jsstring) : jsstring :=
  match s with
  | [] => []
  | c :: r =>
      if matchNewlinesEnd (c :: r) then nl ++ nl
      else c :: replaceNewlinesEnd r
  end.

(** ** Data model *)

(** One user-agent block. *)
Record RobotsPolicy := {
  userAgent : option jsstring;
  allow : option (list jsstring);
  disallow : option (list jsstring)
}.

Inductive Command := Serve | Build.

Record Ctx := { mode : jsstring; command : Command; root : jsstring }.

(** ** Tiny utilities of the plugin *)

Section Uniq.
Context {A : Type} `{EqDecision A}.

(** [Set.prototype.add]: insertion order, no second copy. *)
Definition setAdd (seen : list A) (x : A) : list A :=
  if bool_decide (x ∈ seen) then seen else seen ++ [x].

(** [Array.from(new Set(arr ?? []))]. *)
Definition uniq (arr : option (list A)) : list A :=
  fold_left setAdd (default [] arr) [].

End Uniq.

(** [lines(...xs)]: [None] stands for the non-string falsy arguments
    [null], [undefined] and [false]; [filter(Boolean)] also drops the empty
    string. *)
Definition lines (xs : list (option jsstring)) : list jsstring :=
  omap (fun x => match x with
                 | Some s => if truthy s then Some s else None
                 | None => None
                 end) xs.

Definition star : jsstring := lit "*".

(** [(p.userAgent ?? "*").trim() || "*"]. *)
Definition resolveUa (p : RobotsPolicy) : jsstring :=
  let t := trim (default star (userAgent p)) in
  if truthy t then t else star.

Definition uaLine (ua : jsstring) : jsstring := lit "User-agent: " ++ ua.
Definition disallowLine (d : jsstring) : jsstring := lit "Disallow: " ++ d.
Definition allowLine (a : jsstring) : jsstring := lit "Allow: " ++ a.
Definition sitemapLine (u : jsstring) : jsstring := lit "Sitemap: " ++ u.

(** The array handed to [lines] in the loop body of [serializePolicies]. *)
Definition blockArgs (p : RobotsPolicy) : list (option jsstring) :=
  Some (uaLine (resolveUa p))
    :: map Some (map disallowLine (uniq (disallow p)))
    ++ map Some (map allowLine (uniq (allow p)))
    ++ [Some []].

(** The lines of one block, and the block itself (the constant [block] of
    the loop body). *)
Definition blockLines (p : RobotsPolicy) : list jsstring := lines (blockArgs p).
Definition block (p : RobotsPolicy) : jsstring := join nl (blockLines p).

(** [defaultPolicies()]. *)
Definition defaultPolicies : list RobotsPolicy :=
  [ {| userAgent := Some star; allow := Some [lit "/"]; disallow := Some [] |} ].

(** The constant [smBlock] of [buildContent]: empty unless
    [sitemaps?.length], else the [Sitemap:] lines joined by newlines and
    followed by one newline. *)
Definition smBlock (sitemaps : option (list jsstring)) : jsstring :=
  match sitemaps with
  | Some (u :: us) => join nl (map sitemapLine (u :: us)) ++ nl
  | _ => []
  end.

(** The constant [footerBlock] of [buildContent]: empty unless [foot] is
    truthy, else a newline, [# ], the trimmed footer and a newline. The
    test is made on the untrimmed string. *)
Definition footerBlock (foot : option jsstring) : jsstring :=
  match foot with
  | Some f => if truthy f then nl ++ lit "# " ++ trim f ++ nl else []
  | None => []
  end.

(** The returned expression of [buildContent]. *)
Definition assemble (head sm footer : jsstring) : jsstring :=
  replaceNewlinesEnd (head ++ (if truthy sm then nl ++ sm else []) ++ footer).

(** ** Computations with state and exceptions *)

Section Monad.
Context {S Exn : Type}.

(** Normal completion or a thrown exception. *)
Inductive Outcome (A : Type) :=
| Ret (a : A)
| Throw (e : Exn).
Global Arguments Ret {A} a.
Global Arguments Throw {A} e.

Definition M (A : Type) : Type := S -> Outcome A * S.

Definition ret {A} (a : A) : M A := fun s => (Ret a, s).

Definition bind {A B} (m : M A) (k : A -> M B) : M B :=
  fun s =>
    match m s with
    | (Ret a, s') => k a s'
    | (Throw x, s') => (Throw x, s')
    end.

End Monad.

Arguments Outcome : clear implicits.
Arguments M : clear implicits.

Notation "'do' x <- m ; k" := (bind m (fun x => k))
  (at level 10, x name, m at level 100, k at level 200).

(** ** Builders and the invocation log *)

(** An invocation of a user supplied function by the synthesizer. *)
Inductive Call :=
| PolicyBuilderCall (c : Ctx)
| SitemapsCall (c : Ctx)
| FooterCommentCall (c : Ctx).

Section Effects.
Context {W Exn : Type}.

(** A user function of the context: it reads and writes the world and
    completes or throws. *)
Definition Builder (A : Type) : Type := Ctx -> W -> Outcome Exn A * W.

(** The world together with the log of the invocations made so far. *)
Record Env := { world : W; calls : list Call }.

(** Calling [f(ctx)]: the call is logged, the world is the one [f] leaves. *)
Definition invoke {A} (c : Call) (f : W -> Outcome Exn A * W) : M Env Exn A :=
  fun e =>
    let (r, w') := f (world e) in
    (r, {| world := w'; calls := calls e ++ [c] |}).

Inductive SitemapsOption :=
| SitemapsList (l : list jsstring)
| SitemapsFn (f : Builder (option (list jsstring))).

Inductive FooterOption :=
| FooterText (s : jsstring)
| FooterFn (f : Builder (option jsstring)).

(** [RobotsOptions]. [policyBuilder] is declared to return an array; the
    synthesizer guards its result with [??], so a nullish result is
    representable here as [None]. *)
Record RobotsOptions := {
  outputDir : option jsstring;
  filename : option jsstring;
  policies : option (list RobotsPolicy);
  policyBuilder : option (Builder (option (list RobotsPolicy)));
  sitemaps : option SitemapsOption;
  footerComment : option FooterOption;
  noStoreInDev : option bool
}.

(** [opts.policies && opts.policies.length ? opts.policies : undefined]. *)
Definition explicitPolicies (opts : RobotsOptions) : option (list RobotsPolicy) :=
  match policies opts with
  | Some (p :: ps) => Some (p :: ps)
  | _ => None
  end.

(** The constant [policies] of [buildContent]:
    [explicit ?? (opts.policyBuilder ? opts.policyBuilder(ctx) : undefined)
     ?? defaultPolicies()]. *)
Definition resolvePolicies (ctx : Ctx) (opts : RobotsOptions) : M Env Exn (list RobotsPolicy) :=
  match explicitPolicies opts with
  | Some ps => ret ps
  | None =>
      match policyBuilder opts with
      | Some f =>
          do r <- invoke (PolicyBuilderCall ctx) (f ctx);
          ret (default defaultPolicies r)
      | None => ret defaultPolicies
      end
  end.

(** The constant [sitemaps] of [buildContent]. *)
Definition resolveSitemaps (ctx : Ctx) (opts : RobotsOptions) : M Env Exn (option (list jsstring)) :=
  match sitemaps opts with
  | Some (SitemapsFn f) => invoke (SitemapsCall ctx) (f ctx)
  | Some (SitemapsList l) => ret (Some l)
  | None => ret None
  end.

(** The constant [foot] of [buildContent]. *)
Definition resolveFoot (ctx : Ctx) (opts : RobotsOptions) : M Env Exn (option jsstring) :=
  match footerComment opts with
  | Some (FooterFn f) => invoke (FooterCommentCall ctx) (f ctx)
  | Some (FooterText s) => ret (Some s)
  | None => ret None
  end.

(** [buildContent], over the [serializePolicies] of the file it is in. *)
Definition buildContentWith (serializePolicies : list RobotsPolicy -> jsstring)
    (ctx : Ctx) (opts : RobotsOptions) : M Env Exn jsstring :=
  do ps <- resolvePolicies ctx opts;
  let head := serializePolicies ps in
  do sm <- resolveSitemaps ctx opts;
  do foot <- resolveFoot ctx opts;
  ret (assemble head (smBlock sm) (footerBlock foot)).

End Effects.

Arguments Builder : clear implicits.
Arguments Env : clear implicits.
Arguments RobotsOptions : clear implicits.
Arguments SitemapsOption : clear implicits.
Arguments FooterOption : clear implicits.

Module Index.

(** [serializePolicies] of [src/index.ts]. *)
Definition serializePolicies (policies : list RobotsPolicy) : jsstring :=
  replaceSpacesEol (join nl (map block policies)) ++ nl.

(** [buildContent] of [src/index.ts]. *)
Definition buildContent {W Exn} (ctx : Ctx) (opts : RobotsOptions W Exn) : M (Env W) Exn jsstring :=
  buildContentWith serializePolicies ctx opts.

End Index.

Module GenerateRobots.

(** [serializePolicies] of [vite/plugins/generate-robots.ts]. *)
Definition serializePolicies (policies : list RobotsPolicy) : jsstring :=
  trimEnd (join nl (map block policies)) ++ nl.

(** [buildContent] of [vite/plugins/generate-robots.ts]. *)
Definition buildContent {W Exn} (ctx : Ctx) (opts : RobotsOptions W Exn) : M (Env W) Exn jsstring :=
  buildContentWith serializePolicies ctx opts.

End GenerateRobots.

(** ** UTF-8, as [node:fs] writes and reads text *)

Definition isHighSurrogate (c : N) : bool := (55296 <=? c) && (c <=? 56319).
Definition isLowSurrogate (c : N) : bool := (56320 <=? c) && (c <=? 57343).

(** The code points of a string; a surrogate that is not part of a pair
    counts as U+FFFD. *)
Fixpoint codePoints (s : jsstring) : list N :=
  match s with
  | [] => []
  | h :: r =>
      if isHighSurrogate h then
        match r with
        | l :: r' =>
            if isLowSurrogate l
            then (65536 + (h - 55296) * 1024 + (l - 56320)) :: codePoints r'
            else 65533 :: codePoints r
        | [] => [65533]
        end
      else if isLowSurrogate h then 65533 :: codePoints r
      else h :: codePoints r
  end.

Definition encodeCodePoint (cp : N) : list N :=
  if cp <? 128 then [cp]
  else if cp <? 2048 then [192 + cp / 64; 128 + cp mod 64]
  else if cp <? 65536 then [224 + cp / 4096; 128 + (cp / 64) mod 64; 128 + cp mod 64]
  else [240 + cp / 262144; 128 + (cp / 4096) mod 64; 128 + (cp / 64) mod 64;
        128 + cp mod 64].

(** The bytes written for a string with the encoding [utf-8]. *)
Definition utf8Encode (s : jsstring) : list N := flat_map encodeCodePoint (codePoints s).

(** A sequence under way in the decoder: the bits read so far, the number
    of bytes still needed and the range allowed for the next byte. *)
Record Pending := { acc : N; needed : nat; lower : N; upper : N }.

(** A byte read when no sequence is under way. *)
Definition startByte (b : N) : list N * option Pending :=
  if b <=? 127 then ([b], None)
  else if (194 <=? b) && (b <=? 223)
  then ([], Some {| acc := b - 192; needed := 1; lower := 128; upper := 191 |})
  else if (224 <=? b) && (b <=? 239)
  then ([], Some {| acc := b - 224; needed := 2;
                    lower := if b =? 224 then 160 else 128;
                    upper := if b =? 237 then 159 else 191 |})
  else if (240 <=? b) && (b <=? 244)
  then ([], Some {| acc := b - 240; needed := 3;
                    lower := if b =? 240 then 144 else 128;
                    upper := if b =? 244 then 143 else 191 |})
  else ([65533], None).

(** A byte read while a sequence is under way: it continues the sequence,
    or the sequence is given up for U+FFFD and the byte is read afresh. *)
Definition nextByte (st : Pending) (b : N) : list N * option Pending :=
  if (lower st <=? b) && (b <=? upper st) then
    let cp := acc st * 64 + (b - 128) in
    match needed st with
    | S (S n) => ([], Some {| acc := cp; needed := S n; lower := 128; upper := 191 |})
    | _ => ([cp], None)
    end
  else let (out, st') := startByte b in (65533 :: out, st').

Fixpoint decodeFrom (st : option Pending) (bs : list N) : list N :=
  match bs with
  | [] => match st with Some _ => [65533] | None => [] end
  | b :: r =>
      let (out, st') := match st with
                        | Some p => nextByte p b
                        | None => startByte b
                        end in
      out ++ decodeFrom st' r
  end.

Definition utf16Units (cp : N) : jsstring :=
  if cp <? 65536 then [cp]
  else [55296 + (cp - 65536) / 1024; 56320 + (cp - 65536) mod 1024].

(** The string read from bytes with the encoding [utf-8]: every ill-formed
    sequence reads as U+FFFD, a byte order mark is kept. *)
Definition utf8Decode (bs : list N) : jsstring := flat_map utf16Units (decodeFrom None bs).

(** ** The file system of the emit sink *)

(** Errors of the [node:fs] calls that the model distinguishes. *)
Inductive FsError := ENOENT | EISDIR | ENOTDIR | EEXIST.

Inductive Node :=
| File (bytes : list N)
| Dir.

(** The nodes by path, and the log of the file writes performed so far
    (path and text handed to [fs.writeFileSync]). *)
Record Disk := {
  nodes : gmap (list N) Node;
  written : list (jsstring * jsstring)
}.

Section FileSystem.
(** [path.dirname] is taken as given; the file system takes the parent of
    a path to be what it returns. *)
Variable dirname : jsstring -> jsstring.

(** [fs.existsSync]. *)
Definition existsSync (p : jsstring) : M Disk FsError bool :=
  fun d => (Ret (bool_decide (is_Some (nodes d !! p))), d).

(** The directories above [p], nearest first, up to a path that is its own
    parent: the root, or [.] for a relative path. [path.dirname] gets
    there in at most [length p + 1] steps, which is the [n] of
    [lineage]. *)
Fixpoint ancestors (n : nat) (p : jsstring) : list jsstring :=
  match n with
  | O => []
  | S n' =>
      if bool_decide (dirname p = p) then []
      else dirname p :: ancestors n' (dirname p)
  end.

(** A path and the directories above it. *)
Definition lineage (p : jsstring) : list jsstring :=
  p :: ancestors (S (length p)) p.

(** [mkdir] of one directory whose parent is in place. *)
Definition makeDir (p : jsstring) : M Disk FsError unit :=
  fun d => (Ret tt, {| nodes := <[p := Dir]> (nodes d); written := written d |}).

(** The recursion of [mkdir] with [recursive: true] along a lineage: a
    directory that is there ends it, a file in the way is [ENOTDIR], and a
    missing directory is made once those above it are in place. *)
Fixpoint mkdirAlong (chain : list jsstring) : M Disk FsError unit :=
  match chain with
  | [] => ret tt
  | q :: above =>
      fun d =>
        match nodes d !! q with
        | Some Dir => (Ret tt, d)
        | Some (File _) => (Throw ENOTDIR, d)
        | None => (do _ <- mkdirAlong above; makeDir q) d
        end
  end.

(** [fs.mkdirSync(dir, {recursive: true})]: the missing directories of
    the lineage are made, an existing directory is left alone, a file at
    [dir] is [EEXIST] and a file above it [ENOTDIR]. *)
Definition mkdirSync (p : jsstring) : M Disk FsError unit :=
  fun d =>
    match nodes d !! p with
    | Some (File _) => (Throw EEXIST, d)
    | _ => mkdirAlong (lineage p) d
    end.

(** [fs.readFileSync(p, "utf-8")]. *)
Definition readFileSync (p : jsstring) : M Disk FsError jsstring :=
  fun d =>
    match nodes d !! p with
    | Some (File b) => (Ret (utf8Decode b), d)
    | Some Dir => (Throw EISDIR, d)
    | None => (Throw ENOENT, d)
    end.

(** [fs.writeFileSync(p, content, "utf-8")]: the parent must be a
    directory and the target must not be one. *)
Definition writeFileSync (p content : jsstring) : M Disk FsError unit :=
  fun d =>
    match nodes d !! p with
    | Some Dir => (Throw EISDIR, d)
    | _ =>
        match nodes d !! dirname p with
        | Some Dir =>
            (Ret tt, {| nodes := <[p := File (utf8Encode content)]> (nodes d);
                        written := written d ++ [(p, content)] |})
        | Some (File _) => (Throw ENOTDIR, d)
        | None => (Throw ENOENT, d)
        end
    end.

(** [ensureDir]. *)
Definition ensureDir (dir : jsstring) : M Disk FsError unit :=
  do present <- existsSync dir;
  if negb present then mkdirSync dir else ret tt.

(** [writeFileIfChanged]. *)
Definition writeFileIfChanged (filePath content : jsstring) : M Disk FsError unit :=
  do _ <- ensureDir (dirname filePath);
  do existed <- existsSync filePath;
  do old <- (if existed
             then do s <- readFileSync filePath; ret (Some s)
             else ret None);
  if negb existed || negb (bool_decide (old = Some content))
  then writeFileSync filePath content
  else ret tt.

End FileSystem.

(** ** The output directory *)

Section OutputDir.
(** [path.resolve] is taken as given. *)
Variable resolve : jsstring -> jsstring -> jsstring.

(** [detectOutputDir]: an explicit directory that is a non-empty string
    wins; else [static] when something exists there, else [public]. *)
Definition detectOutputDir (root : jsstring) (explicit : option jsstring) : M Disk FsError jsstring :=
  match explicit with
  | Some (c :: e) => ret (resolve root (c :: e))
  | _ =>
      let svelteKitStatic := resolve root (lit "static") in
      let genericPublic := resolve root (lit "public") in
      do present <- existsSync svelteKitStatic;
      if present then ret svelteKitStatic else ret genericPublic
  end.

End OutputDir.

(** ** The plugin objects *)

Definition DEFAULT_FILENAME : jsstring := lit "robots.txt".

(** The constants [filename] and [noStoreInDev] of [generateRobotsTxt]:
    [options.filename ?? DEFAULT_FILENAME] and
    [options.noStoreInDev ?? true]. *)
Definition filenameOf {W Exn} (options : RobotsOptions W Exn) : jsstring :=
  default DEFAULT_FILENAME (filename options).
Definition noStoreOf {W Exn} (options : RobotsOptions W Exn) : bool :=
  default true (noStoreInDev options).

(** A call made on the response object of the dev server. *)
Inductive ResCall :=
| SetHeader (name value : jsstring)
| EndWith (body : jsstring).

(** The body of the middleware once the text is built: the header calls
    and the final [res.end]. *)
Definition respond (noStore : bool) (content : jsstring) : list ResCall :=
  SetHeader (lit "Content-Type") (lit "text/plain; charset=utf-8")
  :: (if noStore
      then [SetHeader (lit "Cache-Control")
                      (lit "no-store, no-cache, must-revalidate, max-age=0");
            SetHeader (lit "Pragma") (lit "no-cache");
            SetHeader (lit "Expires") (lit "0")]
      else [])
  ++ [EndWith content].

Section Hosted.
Context {W Exn : Type}.

(** A hook of the plugin runs user functions and file system calls on one
    state: the world of the builders includes the disk. An exception is
    the one of a user function or the one of a file system call. *)
Definition userCode {A} (m : M (Env (W * Disk)) Exn A) : M (Env (W * Disk)) (Exn + FsError) A :=
  fun e =>
    match m e with
    | (Ret a, e') => (Ret a, e')
    | (Throw x, e') => (Throw (inl x), e')
    end.

Definition onDisk {A} (m : M Disk FsError A) : M (Env (W * Disk)) (Exn + FsError) A :=
  fun e =>
    match m (world e).2 with
    | (Ret a, d') => (Ret a, {| world := ((world e).1, d'); calls := calls e |})
    | (Throw x, d') => (Throw (inr x), {| world := ((world e).1, d'); calls := calls e |})
    end.

End Hosted.

Module IndexPlugin.

(** What the plugin reads of Vite's resolved configuration; a field that
    the code guards with [??] is optional. *)
Record Config := {
  configRoot : option jsstring;
  configMode : jsstring;
  configCommand : option Command
}.

(** The variables [root], [mode], [command], [outDir] and [outPath] of the
    closure. *)
Record Vars := {
  rootVar : jsstring;
  modeVar : jsstring;
  commandVar : Command;
  outDir : jsstring;
  outPath : jsstring
}.

Section Closure.
Context {W Exn : Type}.
(** [process.cwd()], [path.resolve], [path.join] and [path.dirname] are
    taken as given. *)
Variable cwd : jsstring.
Variable resolve : jsstring -> jsstring -> jsstring.
Variable joinPath : jsstring -> jsstring -> jsstring.
Variable dirname : jsstring -> jsstring.
Variable options : RobotsOptions (W * Disk) Exn.

(** [generateRobotsTxt(options)]: the variables as the call leaves them. *)
Definition generateRobotsTxt : M Disk FsError Vars :=
  do dir <- detectOutputDir resolve cwd (outputDir options);
  ret {| rootVar := cwd; modeVar := lit "production"; commandVar := Build;
         outDir := dir; outPath := joinPath dir (filenameOf options) |}.

(** The hook [configResolved]. *)
Definition configResolved (config : Config) (v : Vars) : M Disk FsError Vars :=
  let root := default cwd (configRoot config) in
  do dir <- detectOutputDir resolve root (outputDir options);
  ret {| rootVar := root; modeVar := configMode config;
         commandVar := default (commandVar v) (configCommand config);
         outDir := dir; outPath := joinPath dir (filenameOf options) |}.

(** The hook [buildStart]. *)
Definition buildStart (v : Vars) : M (Env (W * Disk)) (Exn + FsError) unit :=
  let ctx := {| mode := modeVar v; command := commandVar v; root := rootVar v |} in
  do content <- userCode (Index.buildContent ctx options);
  onDisk (writeFileIfChanged dirname (outPath v) content).

(** The route and the handler that [configureServer] registers;
    [serverMode] is [server.config.mode]. *)
Definition route : jsstring := lit "/" ++ filenameOf options.

Definition handler (serverMode : jsstring) (v : Vars) : M (Env (W * Disk)) Exn (list ResCall) :=
  let ctx := {| mode := serverMode; command := Serve; root := rootVar v |} in
  do content <- Index.buildContent ctx options;
  ret (respond (noStoreOf options) content).

End Closure.

End IndexPlugin.

(** [s.replace(/\/+$/, "/")]: a match is a run of slashes that reaches the
    end of the input (a shorter run is followed by a slash, where [$]
    fails), so there is at most one. *)
Definition isSlash (c : N) : bool := c =? 47.

Definition matchSlashesEnd (s : jsstring) : bool :=
  let k := span isSlash s in
  (1 <=? k)%nat && (k =? length s)%nat.

Fixpoint replaceSlashesEnd (s : jsstring) : jsstring :=
  match s with
  | [] => []
  | c :: r =>
      if matchSlashesEnd (c :: r) then lit "/"
      else c :: replaceSlashesEnd r
  end.

Module GenerateRobotsPlugin.

Record Config := {
  configRoot : option jsstring;
  configMode : jsstring;
  configCommand : Command;
  configBase : option jsstring
}.

(** The variables [resolvedConfig], [mode], [command], [root] and
    [lastTxt] of the closure. *)
Record Vars := {
  resolvedConfig : option Config;
  modeVar : jsstring;
  commandVar : Command;
  rootVar : jsstring;
  lastTxt : jsstring
}.


Section Closure.
Context {W Exn : Type}.
Variable cwd : jsstring.
Variable options : RobotsOptions W Exn.

(** [generateRobotsTxt(options)]: the variables as the call leaves them. *)
Definition generateRobotsTxt : Vars :=
  {| resolvedConfig := None; modeVar := lit "production"; commandVar := Build;
     rootVar := cwd; lastTxt := [] |}.

(** [buildTxt]: the text, and the variables with [lastTxt] assigned. *)
Definition buildTxt (v : Vars) : M (Env W) Exn (jsstring * Vars) :=
  let ctx := {| mode := modeVar v; command := commandVar v; root := rootVar v |} in
  do txt <- GenerateRobots.buildContent ctx options;
  ret (txt, {| resolvedConfig := resolvedConfig v; modeVar := modeVar v;
               commandVar := commandVar v; rootVar := rootVar v; lastTxt := txt |}).

(** The hook [configResolved]. *)
Definition configResolved (config : Config) (v : Vars) : Vars :=
  {| resolvedConfig := Some config;
     modeVar := configMode config;
     commandVar := configCommand config;
     rootVar := default cwd (configRoot config);
     lastTxt := lastTxt v |}.

(** The hook [buildStart]. *)
Definition buildStart (v : Vars) : M (Env W) Exn Vars :=
  do r <- buildTxt v;
  ret r.2.


(** The constants [base] and [route] of [configureServer], and the handler
    it registers. *)
Definition base (v : Vars) : jsstring :=
  replaceSlashesEnd
    (default (lit "/") (match resolvedConfig v with
                        | Some config => configBase config
                        | None => None
                        end)).

Definition route (v : Vars) : jsstring := base v ++ filenameOf options.

Definition handler (v : Vars) : M (Env W) Exn (list ResCall * Vars) :=
  do r <- buildTxt v;
  ret (respond (noStoreOf options) r.1, r.2).

End Closure.

End GenerateRobotsPlugin.

(** ** Vocabulary of the statements *)

Section FirstOccurrences.
Context {A : Type} `{EqDecision A}.

(** The deduplication of the specification: the first occurrence of every
    element is kept, later copies are dropped. *)
Fixpoint firstOccurrences (l : list A) : list A :=
  match l with
  | [] => []
  | x :: r => x :: filter (fun y => y ≠ x) (firstOccurrences r)
  end.

(** Position of the first occurrence of [x] in [l] ([length l] when there
    is none). *)
Fixpoint firstIndex (x : A) (l : list A) : nat :=
  match l with
  | [] => O
  | y :: r => if decide (x = y) then O else S (firstIndex x r)
  end.

(** [x] appears before [y] in the input [l]. *)
Definition appearsBefore (l : list A) (x y : A) : Prop :=
  (firstIndex x l < firstIndex y l)%nat.

End FirstOccurrences.

Section OptionUpdates.
Context {W Exn : Type}.

(** The options with the [policyBuilder] field replaced. *)
Definition withPolicyBuilder (b : option (Builder W Exn (option (list RobotsPolicy))))
    (o : RobotsOptions W Exn) : RobotsOptions W Exn :=
  {| outputDir := outputDir o; filename := filename o; policies := policies o;
     policyBuilder := b; sitemaps := sitemaps o; footerComment := footerComment o;
     noStoreInDev := noStoreInDev o |}.

(** The options with the [footerComment] field replaced. *)
Definition withFooterComment (f : option (FooterOption W Exn))
    (o : RobotsOptions W Exn) : RobotsOptions W Exn :=
  {| outputDir := outputDir o; filename := filename o; policies := policies o;
     policyBuilder := policyBuilder o; sitemaps := sitemaps o; footerComment := f;
     noStoreInDev := noStoreInDev o |}.

(** No field of the options is a function. *)
Definition staticOptions (o : RobotsOptions W Exn) : bool :=
  match policyBuilder o with Some _ => false | None => true end
  && match sitemaps o with Some (SitemapsFn _) => false | _ => true end
  && match footerComment o with Some (FooterFn _) => false | _ => true end.

(** A builder that returns [r] and leaves the world alone. *)
Definition constBuilder {A} (r : A) : Builder W Exn A := fun _ w => (Ret r, w).

End OptionUpdates.

(** The sitemap sequence of the specification: the list of the options
    itself, or what the function of the options returns for the context in
    the world of [e1], the call being logged; [e2] is the state
    afterwards. *)
Definition sitemapsGiven {W Exn} (ctx : Ctx) (opts : RobotsOptions W Exn)
    (e1 : Env W) (urls : option (list jsstring)) (e2 : Env W) : Prop :=
  match sitemaps opts with
  | None => urls = None /\ e2 = e1
  | Some (SitemapsList l) => urls = Some l /\ e2 = e1
  | Some (SitemapsFn f) =>
      f ctx (world e1) = (Ret urls, world e2)
      /\ calls e2 = calls e1 ++ [SitemapsCall ctx]
  end.

(** The text in front of the footer: the head and, when there is one, the
    sitemap block behind its separating newline. *)
Definition headAndSitemaps (head : jsstring) (sm : option (list jsstring)) : jsstring :=
  head ++ (if truthy (smBlock sm) then nl ++ smBlock sm else []).

(** The lines of a text, as [text.split("\n")] gives them. *)
Fixpoint textLines (s : jsstring) : list jsstring :=
  match s with
  | [] => [[]]
  | c :: r =>
      if isNl c then [] :: textLines r
      else match textLines r with
           | l :: ls => (c :: l) :: ls
           | [] => [[c]]
           end
  end.

(** A string without the newline character, as URLs and path patterns are. *)
Definition newlineFree (s : jsstring) : Prop := 10 ∉ s.

(** A policy whose user agent and paths are without newline. *)
Definition cleanPolicy (p : RobotsPolicy) : Prop :=
  newlineFree (default star (userAgent p))
  /\ Forall newlineFree (default [] (disallow p))
  /\ Forall newlineFree (default [] (allow p)).

(** Three consecutive newlines somewhere in a text. *)
Definition tripleNewlineInside (s : jsstring) : Prop :=
  exists a b, s = a ++ nl ++ nl ++ nl ++ b.

Fixpoint hasTripleNewline (s : jsstring) : bool :=
  match s with
  | [] => false
  | c :: r =>
      (isNl c && match r with
                 | d :: e :: _ => isNl d && isNl e
                 | _ => false
                 end)
      || hasTripleNewline r
  end.

(** Number of file writes performed by running [m] from the disk [d]. *)
Definition fileWrites {A} (m : M Disk FsError A) (d : Disk) : nat :=
  length (written (m d).2) - length (written d).

(** The directories that are missing on the way to a directory: the
    paths of a lineage below the nearest one that is there. *)
Fixpoint missingAlong (d : Disk) (chain : list jsstring) : list jsstring :=
  match chain with
  | [] => []
  | q :: above =>
      match nodes d !! q with
      | Some _ => []
      | None => q :: missingAlong d above
      end
  end.

(** No file in the way of [mkdir]: the nearest path of the lineage that
    is there is a directory. *)
Fixpoint wayClear (d : Disk) (chain : list jsstring) : bool :=
  match chain with
  | [] => true
  | q :: above =>
      match nodes d !! q with
      | Some Dir => true
      | Some (File _) => false
      | None => wayClear d above
      end
  end.

(** The disk with directories at the paths [qs]. *)
Definition withDirs (qs : list jsstring) (d : Disk) : Disk :=
  {| nodes := foldr (fun q m => <[q := Dir]> m) (nodes d) qs; written := written d |}.

(** The disk after a successful [ensureDir dir]: the missing directories
    of the lineage of [dir] are there. *)
Definition ensured (dirname : jsstring -> jsstring) (dir : jsstring) (d : Disk) : Disk :=
  withDirs (missingAlong d (lineage dirname dir)) d.

(** [ensureDir dir] can succeed: something is at [dir], or no file is in
    the way of making it. *)
Definition ensurable (dirname : jsstring -> jsstring) (d : Disk) (dir : jsstring) : bool :=
  match nodes d !! dir with
  | Some _ => true
  | None => wayClear d (lineage dirname dir)
  end.

(** No file stands above the path [p]: every path of the lineage of its
    parent is a directory or is missing. *)
Definition noFileAbove (dirname : jsstring -> jsstring) (d : Disk) (p : jsstring) : Prop :=
  Forall (fun q => nodes d !! q = None \/ nodes d !! q = Some Dir)
    (lineage dirname (dirname p)).

(** The file at [p] holds the text [content]. *)
Definition holdsText (d : Disk) (p content : jsstring) : Prop :=
  exists b, nodes d !! p = Some (File b) /\ utf8Decode b = content.

(** A well formed string: no unit beyond 16 bits and no surrogate outside
    a pair. *)
Fixpoint wellFormed (s : jsstring) : bool :=
  match s with
  | [] => true
  | h :: r =>
      if isHighSurrogate h then
        match r with
        | l :: r' => isLowSurrogate l && wellFormed r'
        | [] => false
        end
      else negb (isLowSurrogate h) && (h <? 65536) && wellFormed r
  end.

(** A Unicode scalar value. *)
Definition scalarValue (cp : N) : Prop := cp < 55296 \/ (57344 <= cp /\ cp < 1114112).

(** No [policyBuilder] invocation in a log. *)
Definition noPolicyBuilderCall (cs : list Call) : Prop :=
  forall c, PolicyBuilderCall c ∉ cs.

(** Inputs of the examples. *)
Definition prodCtx : Ctx :=
  {| mode := lit "production"; command := Build; root := lit "/app" |}.
Definition devCtx : Ctx :=
  {| mode := lit "development"; command := Serve; root := lit "/home/me/site" |}.
Definition freshEnv : Env unit := {| world := tt; calls := [] |}.
Definition noOptions : RobotsOptions unit unit :=
  {| outputDir := None; filename := None; policies := None; policyBuilder := None;
     sitemaps := None; footerComment := None; noStoreInDev := None |}.
Definition emptyBuilderOptions : RobotsOptions unit unit :=
  withPolicyBuilder (Some (constBuilder (Some []))) noOptions.
(** For the examples: the directory part of a normalized absolute path. *)
Definition parentDir (p : jsstring) : jsstring :=
  match reverse (drop 1 (dropWhile (fun c => negb (c =? 47)) (reverse p))) with
  | [] => lit "/"
  | d => d
  end.
Definition robotsPath : jsstring := lit "/app/public/robots.txt".
Definition defaultText : jsstring := lit "User-agent: *" ++ nl ++ lit "Allow: /" ++ nl.
Definition emptyDisk : Disk := {| nodes := ∅; written := [] |}.
Definition publicDisk : Disk :=
  {| nodes := <[lit "/app/public" := Dir]> ∅; written := [] |}.
Definition builtDisk : Disk :=
  {| nodes := <[robotsPath := File (utf8Encode defaultText)]>
                (<[lit "/app/public" := Dir]> ∅);
     written := [] |}.
Definition loneSurrogate : jsstring := [55296].
Definition googlebot : RobotsPolicy :=
  {| userAgent := Some (lit "Googlebot"); allow := None;
     disallow := Some [lit "/a"; lit "/a"; lit "/b"] |}.
Definition bingbot : RobotsPolicy :=
  {| userAgent := Some (lit "Bingbot"); allow := Some [lit "/"]; disallow := None |}.
Definition blankFooterOptions : RobotsOptions unit unit :=
  withFooterComment (Some (FooterText (lit "   "))) noOptions.
Definition sitemapFooterOptions : RobotsOptions unit unit :=
  {| outputDir := None; filename := None; policies := None; policyBuilder := None;
     sitemaps := Some (SitemapsList [lit "https://x/sitemap.xml"]);
     footerComment := Some (FooterText (lit "built by CI")); noStoreInDev := None |}.
Definition listAndBuilderOptions : RobotsOptions unit unit :=
  {| outputDir := None; filename := None; policies := Some [googlebot];
     policyBuilder := Some (constBuilder (Some [bingbot]));
     sitemaps := None; footerComment := None; noStoreInDev := None |}.
Definition emptyListAndBuilderOptions : RobotsOptions unit unit :=
  {| outputDir := None; filename := None; policies := Some [];
     policyBuilder := Some (constBuilder (Some [bingbot]));
     sitemaps := None; footerComment := None; noStoreInDev := None |}.
Definition emptyListOptions : RobotsOptions unit unit :=
  {| outputDir := None; filename := None; policies := Some []; policyBuilder := None;
     sitemaps := None; footerComment := None; noStoreInDev := None |}.

(** Two disallow paths that differ in a space at the end only. *)
Definition spacedPathsPolicy : RobotsPolicy :=
  {| userAgent := None; allow := None; disallow := Some [lit "/a "; lit "/a"] |}.

(** Allow paths that end in a newline, next to a sitemap. *)
Definition newlinePathsPolicy : RobotsPolicy :=
  {| userAgent := None; allow := Some [lit "/a" ++ nl; lit "/b" ++ nl]; disallow := None |}.
Definition newlinePathsOptions : RobotsOptions unit unit :=
  {| outputDir := None; filename := None; policies := Some [newlinePathsPolicy];
     policyBuilder := None;
     sitemaps := Some (SitemapsList [lit "https://x/sitemap.xml"]);
     footerComment := None; noStoreInDev := None |}.

(** One sitemap entry that holds a newline. *)
Definition newlineUrlOptions : RobotsOptions unit unit :=
  {| outputDir := None; filename := None; policies := None; policyBuilder := None;
     sitemaps := Some (SitemapsList [lit "https://x/a" ++ nl ++ lit "https://x/b"]);
     footerComment := None; noStoreInDev := None |}.

(** Sitemaps given by a function, with the same URL twice. *)
Definition sitemapsFnOptions : RobotsOptions unit unit :=
  {| outputDir := None; filename := None; policies := None; policyBuilder := None;
     sitemaps := Some (SitemapsFn (constBuilder (Some [lit "https://x/sitemap.xml";
                                                       lit "https://x/sitemap.xml"])));
     footerComment := Some (FooterText (lit "built by CI")); noStoreInDev := None |}.

(** A sitemap URL that ends in three newlines, and no footer. *)
Definition trailingNewlinesOptions : RobotsOptions unit unit :=
  {| outputDir := None; filename := None; policies := None; policyBuilder := None;
     sitemaps := Some (SitemapsList [lit "https://x/sitemap.xml" ++ nl ++ nl ++ nl]);
     footerComment := None; noStoreInDev := None |}.

(** Number of elements of [ls] equal to [line]. *)
Definition occurrences (line : jsstring) (ls : list jsstring) : nat :=
  length (filter (fun l => l = line) ls).

(** A string made of white space only (the empty string included). *)
Definition blank (s : jsstring) : Prop := Forall (fun c => isSpace c = true) s.

(** A white space character in front of a line end: what [/\s+$/m] looks
    for. *)
Fixpoint spaceBeforeEol (s : jsstring) : bool :=
  match s with
  | [] => false
  | c :: r => (isSpace c && eolMultiline r) || spaceBeforeEol r
  end.

(** A string without line terminator. *)
Definition noLineTerminator (s : jsstring) : bool :=
  forallb (fun c => negb (isLineTerminator c)) s.

(** A non-empty string that does not end in white space. *)
Definition endsTidy (s : jsstring) : bool :=
  match last s with
  | Some c => negb (isSpace c)
  | None => false
  end.

(** A path pattern as robots.txt files have them: on one line, not empty
    and without white space at its end. *)
Definition tidyPath (s : jsstring) : bool := endsTidy s && noLineTerminator s.

(** A policy with a user agent on one line and tidy paths. *)
Definition tidyPolicy (p : RobotsPolicy) : bool :=
  noLineTerminator (default star (userAgent p))
  && forallb tidyPath (default [] (disallow p))
  && forallb tidyPath (default [] (allow p)).

(** The policy with one empty [disallow] path, the robots.txt idiom for
    a crawler that may fetch everything. *)
Definition allowAllFor (ua : jsstring) : RobotsPolicy :=
  {| userAgent := Some ua; allow := None; disallow := Some [[]] |}.

(** The context handed to a user function. *)
Definition callCtx (c : Call) : Ctx :=
  match c with
  | PolicyBuilderCall x => x
  | SitemapsCall x => x
  | FooterCommentCall x => x
  end.

Section ExpectedCalls.
Context {W Exn : Type}.

(** The invocations that each of the three resolutions makes. *)
Definition policyCalls (ctx : Ctx) (opts : RobotsOptions W Exn) : list Call :=
  match explicitPolicies opts, policyBuilder opts with
  | None, Some _ => [PolicyBuilderCall ctx]
  | _, _ => []
  end.

Definition sitemapsCalls (ctx : Ctx) (opts : RobotsOptions W Exn) : list Call :=
  match sitemaps opts with
  | Some (SitemapsFn _) => [SitemapsCall ctx]
  | _ => []
  end.

Definition footerCalls (ctx : Ctx) (opts : RobotsOptions W Exn) : list Call :=
  match footerComment opts with
  | Some (FooterFn _) => [FooterCommentCall ctx]
  | _ => []
  end.

(** The invocations of a run that returns. *)
Definition expectedCalls (ctx : Ctx) (opts : RobotsOptions W Exn) : list Call :=
  policyCalls ctx opts ++ sitemapsCalls ctx opts ++ footerCalls ctx opts.

End ExpectedCalls.

(** Options with three builders, for the examples: the second throws. *)
Definition countingBuilder {A} (r : A) : Builder nat unit A :=
  fun _ w => (Ret r, S w).
Definition failingBuilder {A} : Builder nat unit A :=
  fun _ w => (Throw tt, w).
Definition failingSitemapsOptions : RobotsOptions nat unit :=
  {| outputDir := None; filename := None; policies := None;
     policyBuilder := Some (countingBuilder (Some [bingbot]));
     sitemaps := Some (SitemapsFn failingBuilder);
     footerComment := Some (FooterFn (countingBuilder (Some (lit "never built"))));
     noStoreInDev := None |}.

(** Disks of the examples: a file where the directory of the output
    should be, and a directory where the output file should be. *)
Definition fileInTheWayDisk : Disk :=
  {| nodes := <[lit "/app/public" := File []]> ∅; written := [] |}.
Definition directoryAtTargetDisk : Disk :=
  {| nodes := <[robotsPath := Dir]> (<[lit "/app/public" := Dir]> ∅); written := [] |}.

(** A project directory without [public], and a disk where [/app] is a
    file. *)
Definition projectDisk : Disk :=
  {| nodes := <[lit "/app" := Dir]> (<[lit "/" := Dir]> ∅); written := [] |}.
Definition fileAboveDisk : Disk :=
  {| nodes := <[lit "/app" := File []]> (<[lit "/" := Dir]> ∅); written := [] |}.

(** A policy whose strings are well formed. *)
Definition wellFormedPolicy (p : RobotsPolicy) : bool :=
  wellFormed (default star (userAgent p))
  && forallb wellFormed (default [] (disallow p))
  && forallb wellFormed (default [] (allow p)).

(** Options whose strings are well formed, as far as they are given as
    values. *)
Definition wellFormedOptions {W Exn} (o : RobotsOptions W Exn) : bool :=
  forallb wellFormedPolicy (default [] (policies o))
  && match sitemaps o with
     | Some (SitemapsList l) => forallb wellFormed l
     | _ => true
     end
  && match footerComment o with
     | Some (FooterText s) => wellFormed s
     | _ => true
     end.

(** What options without functions resolve to. *)
Definition staticPolicies {W Exn} (o : RobotsOptions W Exn) : list RobotsPolicy :=
  default defaultPolicies (explicitPolicies o).
Definition staticSitemaps {W Exn} (o : RobotsOptions W Exn) : option (list jsstring) :=
  match sitemaps o with
  | Some (SitemapsList l) => Some l
  | _ => None
  end.
Definition staticFoot {W Exn} (o : RobotsOptions W Exn) : option jsstring :=
  match footerComment o with
  | Some (FooterText s) => Some s
  | _ => None
  end.

(** The text that options without functions give in [src/index.ts]. *)
Definition staticText {W Exn} (o : RobotsOptions W Exn) : jsstring :=
  assemble (Index.serializePolicies (staticPolicies o)) (smBlock (staticSitemaps o))
    (footerBlock (staticFoot o)).



(** Examples: a project at [/app]. *)
Definition siteOptions : RobotsOptions (unit * Disk) unit :=
  {| outputDir := None; filename := None; policies := Some [googlebot; bingbot];
     policyBuilder := None;
     sitemaps := Some (SitemapsList [lit "https://x/sitemap.xml"]);
     footerComment := Some (FooterText (lit "built by CI")); noStoreInDev := None |}.
Definition siteVars : IndexPlugin.Vars :=
  {| IndexPlugin.rootVar := lit "/app"; IndexPlugin.modeVar := lit "production";
     IndexPlugin.commandVar := Build; IndexPlugin.outDir := lit "/app/public";
     IndexPlugin.outPath := robotsPath |}.
Definition siteEnv (d : Disk) : Env (unit * Disk) := {| world := (tt, d); calls := [] |}.

(** * Properties *)

(** ** Deduplication *)

Section UniqFacts.
Context {A : Type} `{EqDecision A}.
Implicit Types (l acc : list A) (x y : A).

Lemma filter_all (P : A -> Prop) `{forall x, Decision (P x)} l :
  (forall x, x ∈ l -> P x) -> filter P l = l.
Proof.
  induction l as [|x r IH]; intros HP; [done|].
  rewrite filter_cons_True by (apply HP; constructor).
  f_equal. apply IH. intros y Hy. apply HP. by constructor.
Qed.

Lemma fold_setAdd l acc :
  fold_left setAdd l acc = acc ++ filter (fun y => y ∉ acc) (firstOccurrences l).
Proof.
  revert acc. induction l as [|x r IH]; intros acc; simpl.
  - by rewrite app_nil_r.
  - rewrite IH. unfold setAdd. case_bool_decide as Hx.
    + rewrite filter_cons_False by tauto. f_equal.
      rewrite list_filter_filter. apply list_filter_iff.
      intros y. split; [|tauto]. intros Hy. split; [done|]. by intros ->.
    + rewrite filter_cons_True by done. rewrite <- app_assoc. simpl. do 2 f_equal.
      rewrite list_filter_filter. apply list_filter_iff.
      intros y. rewrite elem_of_app, list_elem_of_singleton. tauto.
Qed.

Lemma uniq_firstOccurrences (arr : option (list A)) :
  uniq arr = firstOccurrences (default [] arr).
Proof.
  unfold uniq. rewrite fold_setAdd. simpl.
  apply filter_all. intros y _. apply not_elem_of_nil.
Qed.

Lemma elem_of_firstOccurrences l x : x ∈ firstOccurrences l ↔ x ∈ l.
Proof.
  induction l as [|y r IH]; simpl; [done|].
  rewrite !elem_of_cons, list_elem_of_filter, IH.
  destruct (decide (x = y)); tauto.
Qed.

Lemma NoDup_firstOccurrences l : NoDup (firstOccurrences l).
Proof.
  induction l as [|y r IH]; simpl; constructor.
  - rewrite list_elem_of_filter. tauto.
  - by apply NoDup_filter.
Qed.

Lemma StronglySorted_weaken (R R' : A -> A -> Prop) l :
  (forall a b, a ∈ l -> b ∈ l -> R a b -> R' a b) ->
  StronglySorted R l -> StronglySorted R' l.
Proof.
  intros HR Hs. induction Hs as [|a l Hs IH Hall]; constructor.
  - apply IH. intros ????. apply HR; by constructor.
  - rewrite Forall_forall in *. intros b Hb.
    apply HR; [by constructor | by constructor | by apply Hall].
Qed.

Lemma StronglySorted_filter_keep (R : A -> A -> Prop) (P : A -> Prop)
    `{forall x, Decision (P x)} l :
  StronglySorted R l -> StronglySorted R (filter P l).
Proof.
  induction 1 as [|a l Hs IH Hall]; [constructor|].
  rewrite filter_cons. case_decide; [|done].
  constructor; [done|].
  rewrite Forall_forall in *. intros b Hb.
  apply Hall. by apply list_elem_of_filter in Hb as [_ ?].
Qed.

Lemma firstOccurrences_sorted l :
  StronglySorted (appearsBefore l) (firstOccurrences l).
Proof.
  induction l as [|x r IH]; simpl; constructor.
  - apply (StronglySorted_weaken (appearsBefore r)).
    + intros a b Ha Hb Hab.
      apply list_elem_of_filter in Ha as [Ha _], Hb as [Hb _].
      unfold appearsBefore in *. simpl. repeat case_decide; try done. lia.
    + by apply StronglySorted_filter_keep.
  - apply Forall_forall. intros y Hy.
    apply list_elem_of_filter in Hy as [Hy _].
    unfold appearsBefore. simpl. repeat case_decide; try done. lia.
Qed.

End UniqFacts.

(** ** Joining and splitting lines *)

Lemma join_cons_cons (sep x y : jsstring) (r : list jsstring) :
  join sep (x :: y :: r) = x ++ sep ++ join sep (y :: r).
Proof. reflexivity. Qed.

Lemma join_ne_nil (sep : jsstring) (ls : list jsstring) :
  ls <> [] -> Forall (fun l => l <> []) ls -> join sep ls <> [].
Proof.
  intros Hne Hall. destruct Hall as [|l ls Hl Hall]; [done|].
  destruct ls; cbn [join]; [done|]. by destruct l.
Qed.

Lemma join_app (sep : jsstring) (ls ms : list jsstring) :
  ls <> [] -> ms <> [] -> join sep (ls ++ ms) = join sep ls ++ sep ++ join sep ms.
Proof.
  intros Hls Hms. induction ls as [|l ls IH]; [done|].
  destruct ls as [|l' ls].
  - destruct ms; [done|]. reflexivity.
  - change ((l :: l' :: ls) ++ ms) with (l :: l' :: (ls ++ ms)).
    rewrite !join_cons_cons. change (l' :: ls ++ ms) with ((l' :: ls) ++ ms).
    rewrite IH by done. by rewrite <- !app_assoc.
Qed.

(** Joining joined blocks is joining all their lines. *)
Lemma join_concat (sep : jsstring) (lss : list (list jsstring)) :
  Forall (fun ls => ls <> []) lss ->
  join sep (map (join sep) lss) = join sep (concat lss).
Proof.
  induction 1 as [|ls lss Hls Hall IH]; [done|].
  destruct lss as [|ls' lss].
  - simpl. by rewrite app_nil_r.
  - change (map (join sep) (ls :: ls' :: lss))
      with (join sep ls :: join sep ls' :: map (join sep) lss).
    rewrite join_cons_cons. change (concat (ls :: ls' :: lss)) with (ls ++ concat (ls' :: lss)).
    rewrite join_app; [by rewrite <- IH|done|].
    inversion Hall as [|? ? Hls' _]; subst. simpl. by destruct ls'.
Qed.

Lemma join_last (ls : list jsstring) :
  Forall (fun l => l <> [] /\ last l <> Some 10) ls -> last (join nl ls) <> Some 10.
Proof.
  induction 1 as [|l ls [Hne Hl] Hall IH]; [done|].
  destruct ls as [|l' ls]; [done|]. rewrite join_cons_cons.
  assert (Hj : join nl (l' :: ls) <> []).
  { apply join_ne_nil; [done|]. eapply Forall_impl; [exact Hall|]. by intros ? [? _]. }
  rewrite !last_app. destruct (last (join nl (l' :: ls))) as [x|] eqn:Hx; [done|].
  by apply last_None in Hx.
Qed.

Lemma textLines_line_nl (l s : jsstring) :
  newlineFree l -> textLines (l ++ nl ++ s) = l :: textLines s.
Proof.
  unfold newlineFree. induction l as [|c l IH]; intros Hl; [done|].
  apply not_elem_of_cons in Hl as [Hc Hl]. cbn [app textLines].
  unfold isNl. rewrite (proj2 (N.eqb_neq c 10)) by congruence.
  by rewrite IH.
Qed.

Lemma textLines_line (l : jsstring) : newlineFree l -> textLines l = [l].
Proof.
  unfold newlineFree. induction l as [|c l IH]; intros Hl; [done|].
  apply not_elem_of_cons in Hl as [Hc Hl]. cbn [textLines].
  unfold isNl. rewrite (proj2 (N.eqb_neq c 10)) by congruence.
  by rewrite IH.
Qed.

(** Joining lines with newlines and splitting at newlines gives the lines
    back. *)
Lemma textLines_join (ls : list jsstring) :
  ls <> [] -> Forall newlineFree ls -> textLines (join nl ls) = ls.
Proof.
  intros Hne Hall. induction Hall as [|l ls Hl Hall IH]; [done|].
  destruct ls as [|l' ls].
  - by apply textLines_line.
  - cbn [join]. rewrite textLines_line_nl by done. f_equal. by apply IH.
Qed.

Lemma newlineFree_app (a b : jsstring) :
  newlineFree a -> newlineFree b -> newlineFree (a ++ b).
Proof. unfold newlineFree. intros Ha Hb. rewrite elem_of_app. tauto. Qed.

Lemma newlineFree_last (s : jsstring) : newlineFree s -> last s <> Some 10.
Proof. intros Hs Hl. apply Hs. by apply last_Some_elem_of. Qed.

Lemma newlineFree_sitemapLine (u : jsstring) : newlineFree u -> newlineFree (sitemapLine u).
Proof.
  intros Hu. apply newlineFree_app; [|done].
  unfold newlineFree. compute_done.
Qed.

(** ** Trimming *)

Lemma head_dropWhile {A} (f : A -> bool) (l : list A) (c : A) :
  head (dropWhile f l) = Some c -> f c = false.
Proof.
  induction l as [|x r IH]; simpl; [done|].
  destruct (f x) eqn:Hx; [done|]. simpl. by intros [= <-].
Qed.

Lemma last_trimEnd (s : jsstring) (c : N) :
  last (trimEnd s) = Some c -> isSpace c = false.
Proof. unfold trimEnd. rewrite last_reverse. apply head_dropWhile. Qed.

Lemma last_trim (s : jsstring) (c : N) : last (trim s) = Some c -> isSpace c = false.
Proof. apply last_trimEnd. Qed.

Lemma last_not_nl_of_not_space (s : jsstring) :
  (forall c, last s = Some c -> isSpace c = false) -> last s <> Some 10.
Proof. intros H Hl. by apply H in Hl. Qed.

Lemma newlineFree_dropWhile (f : N -> bool) (s : jsstring) :
  newlineFree s -> newlineFree (dropWhile f s).
Proof.
  unfold newlineFree. induction s as [|c r IH]; [done|]. intros Hs.
  apply not_elem_of_cons in Hs as [Hc Hr]. simpl. destruct (f c); [by apply IH|].
  apply not_elem_of_cons. by split.
Qed.

Lemma newlineFree_trim (s : jsstring) : newlineFree s -> newlineFree (trim s).
Proof.
  intros Hs. unfold trim, trimEnd, trimStart.
  assert (Hrev : forall t, newlineFree t -> newlineFree (reverse t))
    by (intros t Ht; unfold newlineFree; by rewrite elem_of_reverse).
  by apply Hrev, newlineFree_dropWhile, Hrev, newlineFree_dropWhile.
Qed.

(** ** Lines of a block *)

Lemma lines_Some_truthy (ls : list jsstring) :
  Forall (fun s => truthy s = true) ls -> lines (map Some ls) = ls.
Proof.
  induction 1 as [|s ls Hs _ IH]; [done|].
  unfold lines in *. simpl. rewrite Hs. simpl. f_equal. exact IH.
Qed.

Lemma lines_app xs ys : lines (xs ++ ys) = lines xs ++ lines ys.
Proof. unfold lines. apply omap_app. Qed.

Lemma blockLines_eq (p : RobotsPolicy) :
  blockLines p =
  uaLine (resolveUa p)
    :: map disallowLine (uniq (disallow p)) ++ map allowLine (uniq (allow p)).
Proof.
  unfold blockLines, blockArgs.
  change (Some (uaLine (resolveUa p)) :: ?t) with ([Some (uaLine (resolveUa p))] ++ t).
  rewrite !lines_app, !lines_Some_truthy.
  - simpl. by rewrite app_nil_r.
  - apply Forall_forall. intros s Hs. by apply list_elem_of_fmap in Hs as (a & -> & _).
  - apply Forall_forall. intros s Hs. by apply list_elem_of_fmap in Hs as (d & -> & _).
Qed.

Lemma blockLines_ne_nil (p : RobotsPolicy) : blockLines p <> [].
Proof. by rewrite blockLines_eq. Qed.

Lemma blockLines_truthy (p : RobotsPolicy) : Forall (fun l => l <> []) (blockLines p).
Proof.
  rewrite blockLines_eq. constructor; [done|].
  apply Forall_app. split; apply Forall_forall; intros l Hl;
    by apply list_elem_of_fmap in Hl as (x & -> & Hx).
Qed.

Lemma block_ne_nil (p : RobotsPolicy) : block p <> [].
Proof.
  unfold block. apply join_ne_nil; [|apply blockLines_truthy].
  by rewrite blockLines_eq.
Qed.

Lemma newlineFree_resolveUa (p : RobotsPolicy) :
  newlineFree (default star (userAgent p)) -> newlineFree (resolveUa p).
Proof.
  intros Hp. unfold resolveUa. destruct (truthy _).
  - by apply newlineFree_trim.
  - unfold newlineFree. compute_done.
Qed.

Lemma newlineFree_uniq (arr : option (list jsstring)) :
  Forall newlineFree (default [] arr) -> Forall newlineFree (uniq arr).
Proof.
  rewrite uniq_firstOccurrences, !Forall_forall. intros H x Hx.
  by apply H, elem_of_firstOccurrences.
Qed.

(** The lines of the block of a clean policy are without newline. *)
Lemma blockLines_newlineFree (p : RobotsPolicy) :
  cleanPolicy p -> Forall newlineFree (blockLines p).
Proof.
  intros (Hua & Hd & Ha). rewrite blockLines_eq. constructor.
  - apply newlineFree_app; [unfold newlineFree; compute_done|by apply newlineFree_resolveUa].
  - apply Forall_app. split; apply Forall_forall; intros l Hl;
      apply list_elem_of_fmap in Hl as (x & -> & Hx);
      (apply newlineFree_app; [unfold newlineFree; compute_done|]).
    + apply newlineFree_uniq in Hd. rewrite Forall_forall in Hd. by apply Hd.
    + apply newlineFree_uniq in Ha. rewrite Forall_forall in Ha. by apply Ha.
Qed.

Lemma block_last (p : RobotsPolicy) : cleanPolicy p -> last (block p) <> Some 10.
Proof.
  intros Hp. unfold block. apply join_last.
  pose proof (blockLines_newlineFree p Hp) as Hnf.
  pose proof (blockLines_truthy p) as Htr.
  rewrite Forall_forall in *. intros l Hl. split; [by apply Htr|].
  by apply newlineFree_last, Hnf.
Qed.

Lemma occurrences_NoDup_map (f : jsstring -> jsstring) (x : jsstring) (l : list jsstring) :
  Inj (=) (=) f -> NoDup l ->
  occurrences (f x) (map f l) = if decide (x ∈ l) then 1%nat else 0%nat.
Proof.
  intros Hf Hnd. unfold occurrences.
  induction Hnd as [|y l Hy Hnd IH]; simpl.
  - done.
  - rewrite filter_cons. destruct (decide (y = x)) as [->|Hne].
    + rewrite decide_True by done. rewrite decide_True by constructor.
      simpl. rewrite IH. by rewrite decide_False.
    + rewrite decide_False by (intros Heq; by apply Hf in Heq).
      rewrite IH. apply decide_ext. rewrite elem_of_cons.
      split; [by right | intros [?|?]; [congruence|done]].
Qed.

Lemma occurrences_none (x : jsstring) (l : list jsstring) :
  x ∉ l -> occurrences x l = 0%nat.
Proof.
  intros Hx. unfold occurrences. induction l as [|y l IH]; [done|].
  rewrite not_elem_of_cons in Hx. destruct Hx as [Hne Hx].
  rewrite filter_cons_False by done. by apply IH.
Qed.

Lemma occurrences_app x l1 l2 :
  occurrences x (l1 ++ l2) = (occurrences x l1 + occurrences x l2)%nat.
Proof. unfold occurrences. by rewrite filter_app, length_app. Qed.

Lemma occurrences_cons_ne x y l : y <> x -> occurrences x (y :: l) = occurrences x l.
Proof. intros Hne. unfold occurrences. by rewrite filter_cons_False. Qed.

(** Lines made with another prefix do not count. *)
Lemma occurrences_other (f : jsstring -> jsstring) (x : jsstring) (l : list jsstring) :
  (forall y, f y <> x) -> occurrences x (map f l) = 0%nat.
Proof.
  intros Hf. apply occurrences_none. intros Hin.
  apply list_elem_of_fmap in Hin as (y & Heq & _). by apply (Hf y).
Qed.

Lemma prefix_inj (pre : jsstring) : Inj (=) (=) (fun s : jsstring => pre ++ s).
Proof. intros x y Hxy. by simplify_list_eq. Qed.

(** ** The trailing newline canonicalization [/\n{3,}$/g] *)

Lemma span_length_Forall {A} (f : A -> bool) (l : list A) :
  span f l = length l -> Forall (fun x => f x = true) l.
Proof.
  induction l as [|x r IH]; simpl; [constructor|].
  destruct (f x) eqn:Hx; [|done]. intros [= H]. constructor; auto.
Qed.

Lemma span_le_length {A} (f : A -> bool) (l : list A) : (span f l <= length l)%nat.
Proof. induction l as [|x r IH]; simpl; [lia|]. destruct (f x); lia. Qed.

Lemma span_Forall {A} (f : A -> bool) (l : list A) :
  Forall (fun x => f x = true) l -> span f l = length l.
Proof. induction 1 as [|x r Hx _ IH]; simpl; [done|]. by rewrite Hx, IH. Qed.

Lemma span_replicate_nl k : span isNl (replicate k 10) = k.
Proof. induction k as [|k IH]; simpl; [done|]. by rewrite IH. Qed.

Lemma last_cons_ne {A} (c : A) (b : list A) (x : A) :
  last (c :: b) <> Some x -> last b <> Some x.
Proof. destruct b as [|d b]; [done|]. by rewrite last_cons_cons. Qed.

Lemma matchNewlinesEnd_false_body (l t : jsstring) :
  l <> [] -> last l <> Some 10 -> matchNewlinesEnd (l ++ t) = false.
Proof.
  intros Hne Hl. unfold matchNewlinesEnd.
  destruct (span isNl (l ++ t) =? length (l ++ t))%nat eqn:He; [|by rewrite andb_false_r].
  apply Nat.eqb_eq, span_length_Forall, Forall_app in He as [He _].
  destruct (last l) as [c|] eqn:Hc.
  - rewrite Forall_forall in He. specialize (He c (last_Some_elem_of _ _ Hc)).
    apply N.eqb_eq in He. congruence.
  - by apply last_None in Hc.
Qed.

(** The replacement leaves the text in front of the final run of newlines
    alone and cuts the run down to two when it is longer. *)
Lemma replaceNewlinesEnd_spec (body : jsstring) (k : nat) :
  last body <> Some 10 ->
  replaceNewlinesEnd (body ++ replicate k 10) = body ++ replicate (Nat.min k 2) 10.
Proof.
  induction body as [|c b IH]; intros Hl.
  - simpl. destruct k as [|[|[|k]]]; try reflexivity.
    cbn [replicate replaceNewlinesEnd]. unfold matchNewlinesEnd.
    cbn [span isNl N.eqb Pos.eqb length].
    rewrite span_replicate_nl, length_replicate, Nat.eqb_refl. reflexivity.
  - cbn [app replaceNewlinesEnd].
    change (c :: b ++ replicate k 10) with ((c :: b) ++ replicate k 10).
    rewrite matchNewlinesEnd_false_body by done.
    f_equal. apply IH. by eapply last_cons_ne.
Qed.

(** Every text is some text that does not end in a newline followed by a
    run of newlines. *)
Lemma trailing_newlines_decompose (s : jsstring) :
  exists body k, s = body ++ replicate k 10 /\ last body <> Some 10.
Proof.
  induction s as [|c s IH] using rev_ind.
  - by exists [], O.
  - destruct (decide (c = 10)) as [->|Hc].
    + destruct IH as (body & k & -> & Hl). exists body, (S k).
      by rewrite replicate_S_end, app_assoc.
    + exists (s ++ [c]), O. rewrite app_nil_r, last_snoc. split; congruence.
Qed.

Lemma no_triple_newline_suffix (body : jsstring) (k : nat) :
  last body <> Some 10 -> (k <= 2)%nat ->
  ~ (nl ++ nl ++ nl) `suffix_of` (body ++ replicate k 10).
Proof.
  intros Hl Hk [pre Heq]. unfold nl in Heq. simpl in Heq.
  destruct k as [|[|[|k]]]; [| | |lia]; simpl in Heq.
  - rewrite app_nil_r in Heq. subst body.
    apply Hl. by rewrite (last_app_cons pre [10; 10] 10).
  - change (pre ++ [10; 10; 10]) with (pre ++ [10; 10] ++ [10]) in Heq.
    rewrite app_assoc in Heq. apply app_inj_tail in Heq as [-> _].
    apply Hl. by rewrite (last_app_cons pre [10] 10).
  - change (pre ++ [10; 10; 10]) with (pre ++ [10] ++ [10; 10]) in Heq.
    rewrite app_assoc in Heq. apply app_inj_2 in Heq as [-> _]; [|done].
    apply Hl. by rewrite last_snoc.
Qed.

(** Whatever the input, the result does not end in three newlines. *)
Lemma replaceNewlinesEnd_no_triple (s : jsstring) :
  ~ (nl ++ nl ++ nl) `suffix_of` replaceNewlinesEnd s.
Proof.
  destruct (trailing_newlines_decompose s) as (body & k & -> & Hl).
  rewrite replaceNewlinesEnd_spec by done.
  apply no_triple_newline_suffix; [done|lia].
Qed.

(** A text that ends in at most two newlines is returned as it is. *)
Lemma replaceNewlinesEnd_id (body : jsstring) (k : nat) :
  last body <> Some 10 -> (k <= 2)%nat ->
  replaceNewlinesEnd (body ++ replicate k 10) = body ++ replicate k 10.
Proof.
  intros Hl Hk. rewrite replaceNewlinesEnd_spec by done.
  by rewrite Nat.min_l.
Qed.

Lemma hasTripleNewline_false (s : jsstring) :
  hasTripleNewline s = false -> ~ tripleNewlineInside s.
Proof.
  intros H (a & b & ->). induction a as [|c a IH].
  - discriminate H.
  - apply IH. cbn [app hasTripleNewline] in H. by apply orb_false_elim in H as [_ H].
Qed.

(** ** The trailing white space strip [/\s+$/m] *)

Lemma backtrackSpaces_bounds (j : nat) (s : jsstring) (j' : nat) :
  backtrackSpaces j s = Some j' -> (1 <= j' <= j)%nat.
Proof.
  induction j as [|j IH]; [done|]. cbn [backtrackSpaces].
  destruct (eolMultiline _).
  - intros [= <-]. lia.
  - intros H. apply IH in H. lia.
Qed.

Lemma last_drop_ne {A} (n : nat) (l : list A) (x : A) :
  last l <> Some x -> last (drop n l) <> Some x.
Proof.
  intros Hl Hd. apply Hl. rewrite <- (take_drop n l), last_app. by rewrite Hd.
Qed.

(** A text reduced to nothing was a run of white space. *)
Lemma replaceSpacesEol_nil (s : jsstring) :
  replaceSpacesEol s = [] -> Forall (fun c => isSpace c = true) s.
Proof.
  destruct s as [|c r]; [constructor|]. cbn [replaceSpacesEol].
  destruct (matchSpacesEol (c :: r)) as [j|] eqn:Hm; [|done].
  intros Hd. apply span_length_Forall.
  apply backtrackSpaces_bounds in Hm.
  pose proof (span_le_length isSpace (c :: r)).
  apply (f_equal length) in Hd. rewrite length_drop in Hd. simpl in *. lia.
Qed.

(** A run of white space up to the end of the input is a match. *)
Lemma matchSpacesEol_all_space (s : jsstring) :
  s <> [] -> Forall (fun c => isSpace c = true) s -> matchSpacesEol s <> None.
Proof.
  intros Hne Hall. unfold matchSpacesEol. rewrite (span_Forall _ _ Hall).
  destruct s as [|c r]; [done|]. cbn [length backtrackSpaces].
  change (skipn (S (length r)) (c :: r)) with (drop (length (c :: r)) (c :: r)).
  by rewrite drop_all.
Qed.

(** The strip never makes a text end in a newline. *)
Lemma replaceSpacesEol_last (s : jsstring) :
  last s <> Some 10 -> last (replaceSpacesEol s) <> Some 10.
Proof.
  induction s as [|c r IH]; intros Hl; [done|]. cbn [replaceSpacesEol].
  destruct (matchSpacesEol (c :: r)) as [j|] eqn:Hm.
  - by apply last_drop_ne.
  - destruct (replaceSpacesEol r) as [|d x] eqn:Hx.
    + apply replaceSpacesEol_nil in Hx. intros [= ->].
      apply (matchSpacesEol_all_space (10 :: r)); [done| |done].
      by constructor.
    + rewrite last_cons_cons. apply IH. by eapply last_cons_ne.
Qed.

(** ** The head of the output *)

Lemma serializePolicies_default :
  Index.serializePolicies defaultPolicies
  = lit "User-agent: *" ++ nl ++ lit "Allow: /" ++ nl.
Proof. reflexivity. Qed.

Lemma serializePolicies_nil : Index.serializePolicies [] = nl.
Proof. reflexivity. Qed.

Lemma serializePolicies_ends_nl ps : nl `suffix_of` Index.serializePolicies ps.
Proof. unfold Index.serializePolicies. by eexists. Qed.

(** The head of clean policies is a text that does not end in a newline,
    followed by one newline. *)
Lemma serializePolicies_one_newline (ps : list RobotsPolicy) :
  Forall cleanPolicy ps ->
  exists x, Index.serializePolicies ps = x ++ nl /\ last x <> Some 10.
Proof.
  intros Hps. eexists. split; [reflexivity|].
  apply replaceSpacesEol_last, join_last.
  apply Forall_forall. intros b Hb. apply list_elem_of_fmap in Hb as (p & -> & Hp).
  split; [apply block_ne_nil|]. apply block_last.
  rewrite Forall_forall in Hps. by apply Hps.
Qed.

(** ** Assembling head, sitemap block and footer block *)

Lemma last_comment_line (t body : jsstring) :
  (forall c, last t = Some c -> isSpace c = false) ->
  last (body ++ nl ++ lit "# " ++ t) <> Some 10.
Proof.
  intros Ht. rewrite app_assoc, last_app.
  destruct t as [|c t]; [done|]. cbn [lit list_ascii_of_string map app].
  rewrite !last_cons_cons. destruct (last (c :: t)) as [x|] eqn:Hx.
  - intros [= ->]. by specialize (Ht 10 eq_refl).
  - by apply last_None in Hx.
Qed.

Lemma footerBlock_cases (foot : option jsstring) :
  (footerBlock foot = [] /\ (foot = None \/ foot = Some []))
  \/ (exists f, foot = Some f /\ f <> []).
Proof.
  destruct foot as [[|c f]|].
  - left. split; [done|by right].
  - right. by exists (c :: f).
  - left. split; [done|by left].
Qed.

Lemma assemble_footer (head : jsstring) (sm : option (list jsstring)) (f : jsstring) :
  f <> [] ->
  assemble head (smBlock sm) (footerBlock (Some f))
  = headAndSitemaps head sm ++ nl ++ lit "# " ++ trim f ++ nl.
Proof.
  intros Hf. unfold assemble, footerBlock, headAndSitemaps.
  destruct f as [|c f]; [done|]. cbn [truthy].
  rewrite (app_assoc head).
  generalize (head ++ (if truthy (smBlock sm) then nl ++ smBlock sm else [])).
  intros y. set (t := trim (c :: f)).
  replace (y ++ nl ++ lit "# " ++ t ++ nl)
    with ((y ++ nl ++ lit "# " ++ t) ++ replicate 1 10)
    by (by rewrite <- !app_assoc).
  rewrite replaceNewlinesEnd_id; [done | | lia].
  apply last_comment_line, last_trim.
Qed.

Lemma assemble_no_footer (head : jsstring) (sm : option (list jsstring)) foot :
  foot = None \/ foot = Some [] ->
  assemble head (smBlock sm) (footerBlock foot)
  = replaceNewlinesEnd (headAndSitemaps head sm).
Proof.
  intros [-> | ->]; unfold assemble, headAndSitemaps; simpl; by rewrite app_nil_r.
Qed.

Lemma headAndSitemaps_ends_nl ps sm :
  nl `suffix_of` headAndSitemaps (Index.serializePolicies ps) sm.
Proof.
  unfold headAndSitemaps. destruct (truthy (smBlock sm)) eqn:Ht.
  - unfold smBlock in *. destruct sm as [[|u us]|]; try done.
    exists (Index.serializePolicies ps ++ nl ++ join nl (map sitemapLine (u :: us))).
    by rewrite <- !app_assoc.
  - rewrite app_nil_r. apply serializePolicies_ends_nl.
Qed.

Lemma sitemapLines_last (us : list jsstring) :
  Forall newlineFree us ->
  Forall (fun l => l <> [] /\ last l <> Some 10) (map sitemapLine us).
Proof.
  intros Hus. apply Forall_forall. intros l Hl.
  apply list_elem_of_fmap in Hl as (u & -> & Hu). split; [done|].
  rewrite Forall_forall in Hus. by apply newlineFree_last, newlineFree_sitemapLine, Hus.
Qed.

(** With newline free URLs the assembled text is returned as it is. *)
Lemma assemble_sitemaps (head : jsstring) (u : jsstring) (us : list jsstring)
    (foot : option jsstring) :
  Forall newlineFree (u :: us) ->
  assemble head (smBlock (Some (u :: us))) (footerBlock foot)
  = head ++ nl ++ join nl (map sitemapLine (u :: us)) ++ nl ++ footerBlock foot.
Proof.
  intros Hus. destruct (footerBlock_cases foot) as [[Hf _]|(f & -> & Hf)].
  - rewrite Hf, app_nil_r. unfold assemble. cbn [smBlock].
    assert (Ht : truthy (join nl (map sitemapLine (u :: us)) ++ nl) = true).
    { by destruct (join nl (map sitemapLine (u :: us))). }
    rewrite Ht, app_nil_r.
    replace (head ++ nl ++ join nl (map sitemapLine (u :: us)) ++ nl)
      with ((head ++ nl ++ join nl (map sitemapLine (u :: us))) ++ replicate 1 10)
      by (by rewrite <- !app_assoc).
    apply replaceNewlinesEnd_id; [|lia].
    rewrite app_assoc, last_app.
    pose proof (join_last _ (sitemapLines_last _ Hus)) as Hl.
    destruct (last (join nl (map sitemapLine (u :: us)))) as [x|] eqn:Hx; [done|].
    apply last_None in Hx. by destruct us.
  - rewrite assemble_footer by done. unfold headAndSitemaps, footerBlock. cbn [smBlock].
    assert (Ht : truthy (join nl (map sitemapLine (u :: us)) ++ nl) = true).
    { by destruct (join nl (map sitemapLine (u :: us))). }
    rewrite Ht. destruct f; [done|]. cbn [truthy]. by rewrite <- !app_assoc.
Qed.

(** Without sitemaps and with clean policies the assembled text is
    returned as it is. *)
Lemma assemble_no_sitemaps_clean (ps : list RobotsPolicy) (foot : option jsstring) :
  Forall cleanPolicy ps ->
  assemble (Index.serializePolicies ps) [] (footerBlock foot)
  = Index.serializePolicies ps ++ footerBlock foot.
Proof.
  intros Hps. destruct (footerBlock_cases foot) as [[Hf _]|(f & -> & Hf)].
  - rewrite Hf, app_nil_r. unfold assemble. cbn [truthy]. rewrite !app_nil_r.
    destruct (serializePolicies_one_newline ps Hps) as (x & -> & Hx).
    apply (replaceNewlinesEnd_id x 1); [done|lia].
  - change [] with (smBlock None) at 1. rewrite assemble_footer by done.
    unfold headAndSitemaps, footerBlock. cbn [smBlock truthy]. rewrite app_nil_r.
    by destruct f.
Qed.

(** ** Runs of [buildContent] *)

Section Runs.
Context {W Exn : Type}.
Implicit Types (ctx : Ctx) (opts : RobotsOptions W Exn) (env : Env W).

Lemma bind_Ret {S A B} (m : M S Exn A) (k : A -> M S Exn B) s b s' :
  bind m k s = (Ret b, s') <->
  exists a s1, m s = (Ret a, s1) /\ k a s1 = (Ret b, s').
Proof.
  unfold bind. destruct (m s) as [[a|e] s1].
  - split; [intros H; by exists a, s1|]. by intros (a' & s1' & [= <- <-] & H).
  - split; [done|]. by intros (a' & s1' & [=] & _).
Qed.

(** A run that returns went through the three resolutions in order and
    assembled their results. *)
Lemma buildContentWith_Ret ser ctx opts env text env' :
  buildContentWith ser ctx opts env = (Ret text, env') <->
  exists ps sm foot e1 e2,
    resolvePolicies ctx opts env = (Ret ps, e1)
    /\ resolveSitemaps ctx opts e1 = (Ret sm, e2)
    /\ resolveFoot ctx opts e2 = (Ret foot, env')
    /\ text = assemble (ser ps) (smBlock sm) (footerBlock foot).
Proof.
  unfold buildContentWith. rewrite bind_Ret. split.
  - intros (ps & e1 & H1 & H). apply bind_Ret in H as (sm & e2 & H2 & H).
    apply bind_Ret in H as (foot & e3 & H3 & H). injection H as <- <-.
    by exists ps, sm, foot, e1, e2.
  - intros (ps & sm & foot & e1 & e2 & H1 & H2 & H3 & ->).
    exists ps, e1. split; [done|]. apply bind_Ret. exists sm, e2. split; [done|].
    apply bind_Ret. by exists foot, env'.
Qed.

Lemma noPolicyBuilderCall_nil : noPolicyBuilderCall [].
Proof. intros c. apply not_elem_of_nil. Qed.

Lemma noPolicyBuilderCall_app cs1 cs2 :
  noPolicyBuilderCall cs1 -> noPolicyBuilderCall cs2 -> noPolicyBuilderCall (cs1 ++ cs2).
Proof. intros H1 H2 c Hc. apply elem_of_app in Hc as [?|?]; [by eapply H1 | by eapply H2]. Qed.

(** What a resolution step adds to the log. *)
Lemma resolvePolicies_calls ctx opts env r env' :
  resolvePolicies ctx opts env = (r, env') ->
  calls env' = calls env
  \/ (explicitPolicies opts = None /\ calls env' = calls env ++ [PolicyBuilderCall ctx]).
Proof.
  unfold resolvePolicies. destruct (explicitPolicies opts) as [ps|].
  - intros [= <- <-]. by left.
  - destruct (policyBuilder opts) as [f|]; [|intros [= <- <-]; by left].
    unfold bind, invoke. destruct (f ctx (world env)) as [[a|e] w'];
      intros [= <- <-]; right; by split.
Qed.

Lemma resolveSitemaps_calls ctx opts env r env' :
  resolveSitemaps ctx opts env = (r, env') ->
  exists d, calls env' = calls env ++ d /\ noPolicyBuilderCall d.
Proof.
  unfold resolveSitemaps. destruct (sitemaps opts) as [[l|f]|].
  - intros [= <- <-]. exists []. rewrite app_nil_r. split; [done|apply noPolicyBuilderCall_nil].
  - unfold invoke. destruct (f ctx (world env)) as [a w']. intros [= <- <-].
    exists [SitemapsCall ctx]. split; [done|]. intros c Hc.
    by apply list_elem_of_singleton in Hc.
  - intros [= <- <-]. exists []. rewrite app_nil_r. split; [done|apply noPolicyBuilderCall_nil].
Qed.

Lemma resolveFoot_calls ctx opts env r env' :
  resolveFoot ctx opts env = (r, env') ->
  exists d, calls env' = calls env ++ d /\ noPolicyBuilderCall d.
Proof.
  unfold resolveFoot. destruct (footerComment opts) as [[l|f]|].
  - intros [= <- <-]. exists []. rewrite app_nil_r. split; [done|apply noPolicyBuilderCall_nil].
  - unfold invoke. destruct (f ctx (world env)) as [a w']. intros [= <- <-].
    exists [FooterCommentCall ctx]. split; [done|]. intros c Hc.
    by apply list_elem_of_singleton in Hc.
  - intros [= <- <-]. exists []. rewrite app_nil_r. split; [done|apply noPolicyBuilderCall_nil].
Qed.

(** The log of a whole run: the log before, then what resolving the
    policies added, then invocations of the other two builders only. *)
Lemma buildContentWith_calls ser ctx opts env r env' :
  buildContentWith ser ctx opts env = (r, env') ->
  exists r1 e1 rest,
    resolvePolicies ctx opts env = (r1, e1)
    /\ calls env' = calls e1 ++ rest
    /\ noPolicyBuilderCall rest.
Proof.
  unfold buildContentWith, bind.
  destruct (resolvePolicies ctx opts env) as [[ps|e] e1] eqn:H1.
  - destruct (resolveSitemaps ctx opts e1) as [[sm|e] e2] eqn:H2;
      apply resolveSitemaps_calls in H2 as (d2 & Hd2 & Hn2).
    + destruct (resolveFoot ctx opts e2) as [[foot|e] e3] eqn:H3;
        apply resolveFoot_calls in H3 as (d3 & Hd3 & Hn3);
        intros [= <- <-]; exists (Ret ps), e1, (d2 ++ d3);
        (split; [done|]); rewrite Hd3, Hd2, <- app_assoc;
        (split; [done|by apply noPolicyBuilderCall_app]).
    + intros [= <- <-]. by exists (Ret ps), e1, d2.
  - intros [= <- <-]. exists (Throw e), e1, []. rewrite app_nil_r.
    split; [done|]. split; [done|apply noPolicyBuilderCall_nil].
Qed.

Lemma explicitPolicies_cons opts p ps :
  policies opts = Some (p :: ps) -> explicitPolicies opts = Some (p :: ps).
Proof. unfold explicitPolicies. by intros ->. Qed.

Lemma explicitPolicies_None opts :
  explicitPolicies opts = None <-> policies opts = None \/ policies opts = Some [].
Proof.
  unfold explicitPolicies. destruct (policies opts) as [[|p ps]|]; split; try done.
  - by right.
  - by intros [?|?].
  - by left.
Qed.

Lemma resolvePolicies_explicit ctx opts env p ps :
  policies opts = Some (p :: ps) ->
  resolvePolicies ctx opts env = (Ret (p :: ps), env).
Proof.
  intros Hp. unfold resolvePolicies. by rewrite (explicitPolicies_cons _ _ _ Hp).
Qed.

Lemma resolvePolicies_builder ctx opts env f :
  explicitPolicies opts = None -> policyBuilder opts = Some f ->
  resolvePolicies ctx opts env =
    (match (f ctx (world env)).1 with
     | Ret r => Ret (default defaultPolicies r)
     | Throw e => Throw e
     end,
     {| world := (f ctx (world env)).2;
        calls := calls env ++ [PolicyBuilderCall ctx] |}).
Proof.
  intros He Hb. unfold resolvePolicies. rewrite He, Hb. unfold bind, invoke.
  by destruct (f ctx (world env)) as [[r|e] w'].
Qed.

Lemma resolvePolicies_default ctx opts env :
  explicitPolicies opts = None -> policyBuilder opts = None ->
  resolvePolicies ctx opts env = (Ret defaultPolicies, env).
Proof. intros He Hb. unfold resolvePolicies. by rewrite He, Hb. Qed.

End Runs.

(** ** UTF-8 *)

(** Quotients and remainders by constants are left to [lia]. *)
Ltac Zify.zify_post_hook ::= Z.to_euclidean_division_equations.

Ltac decide_comparisons :=
  repeat match goal with
    | |- context [?a =? ?b] => destruct (N.eqb_spec a b); try lia
    end;
  repeat match goal with
    | |- context [?a <=? ?b] => destruct (N.leb_spec a b); try lia
    | |- context [?a <? ?b] => destruct (N.ltb_spec a b); try lia
    end.

Ltac run_decoder :=
  cbn [app decodeFrom]; unfold nextByte, startByte;
  repeat (cbn [lower upper acc needed andb app]; progress decide_comparisons);
  cbn [lower upper acc needed andb app].

Lemma split_6 (cp : N) :
  exists q m, cp / 64 = q /\ cp mod 64 = m /\ cp = q * 64 + m /\ m < 64.
Proof. eexists _, _. repeat split; lia. Qed.

Lemma split_12 (cp : N) :
  exists q m2 m3,
    cp / 4096 = q /\ (cp / 64) mod 64 = m2 /\ cp mod 64 = m3
    /\ cp = q * 4096 + m2 * 64 + m3 /\ m2 < 64 /\ m3 < 64.
Proof. eexists _, _, _. repeat split; lia. Qed.

Lemma split_18 (cp : N) :
  exists q m2 m3 m4,
    cp / 262144 = q /\ (cp / 4096) mod 64 = m2 /\ (cp / 64) mod 64 = m3
    /\ cp mod 64 = m4
    /\ cp = q * 262144 + m2 * 4096 + m3 * 64 + m4 /\ m2 < 64 /\ m3 < 64 /\ m4 < 64.
Proof. eexists _, _, _, _. repeat split; lia. Qed.

Lemma decode_encodeCodePoint (cp : N) (rest : list N) :
  scalarValue cp ->
  decodeFrom None (encodeCodePoint cp ++ rest) = cp :: decodeFrom None rest.
Proof.
  intros Hcp. unfold scalarValue in Hcp. unfold encodeCodePoint.
  destruct (N.ltb_spec cp 128); [|destruct (N.ltb_spec cp 2048); [|destruct (N.ltb_spec cp 65536)]].
  - run_decoder. reflexivity.
  - destruct (split_6 cp) as (q & m & -> & -> & Heq & ?).
    run_decoder. f_equal. lia.
  - destruct (split_12 cp) as (q & m2 & m3 & -> & -> & -> & Heq & ? & ?).
    run_decoder; f_equal; lia.
  - destruct (split_18 cp) as (q & m2 & m3 & m4 & -> & -> & -> & -> & Heq & ? & ? & ?).
    run_decoder; f_equal; lia.
Qed.

Lemma decode_encode_codePoints (cps : list N) :
  Forall scalarValue cps -> decodeFrom None (flat_map encodeCodePoint cps) = cps.
Proof.
  induction 1 as [|cp cps Hcp _ IH]; [done|].
  cbn [flat_map]. rewrite decode_encodeCodePoint by done. by rewrite IH.
Qed.

Lemma utf16Units_pair (h l : N) :
  isHighSurrogate h = true -> isLowSurrogate l = true ->
  scalarValue (65536 + (h - 55296) * 1024 + (l - 56320))
  /\ utf16Units (65536 + (h - 55296) * 1024 + (l - 56320)) = [h; l].
Proof.
  unfold isHighSurrogate, isLowSurrogate, scalarValue, utf16Units.
  intros Hh Hl. apply andb_true_iff in Hh as [Hh1 Hh2], Hl as [Hl1 Hl2].
  apply N.leb_le in Hh1, Hh2, Hl1, Hl2.
  split; [lia|]. destruct (N.ltb_spec (65536 + (h - 55296) * 1024 + (l - 56320)) 65536); [lia|].
  f_equal; [|f_equal]; lia.
Qed.

Lemma utf16Units_bmp (h : N) :
  isHighSurrogate h = false -> isLowSurrogate h = false -> (h <? 65536) = true ->
  scalarValue h /\ utf16Units h = [h].
Proof.
  unfold isHighSurrogate, isLowSurrogate, scalarValue, utf16Units.
  intros Hh Hl Hb. rewrite Hb. split; [|done]. apply N.ltb_lt in Hb.
  apply andb_false_iff in Hh, Hl. rewrite !N.leb_gt in Hh, Hl. lia.
Qed.

(** The code points of a well formed string are scalar values and give
    the string back. *)
Lemma codePoints_wellFormed (s : jsstring) :
  (wellFormed s = true ->
     Forall scalarValue (codePoints s) /\ flat_map utf16Units (codePoints s) = s)
  /\ (forall h, wellFormed (h :: s) = true ->
       Forall scalarValue (codePoints (h :: s))
       /\ flat_map utf16Units (codePoints (h :: s)) = h :: s).
Proof.
  induction s as [|l r [IH1 IH2]].
  - split; [done|]. intros h. cbn [wellFormed codePoints].
    destruct (isHighSurrogate h) eqn:Hh; [done|]. intros Hw.
    apply andb_true_iff in Hw as [Hw _]. apply andb_true_iff in Hw as [Hl Hb].
    apply negb_true_iff in Hl. rewrite Hl.
    destruct (utf16Units_bmp h Hh Hl Hb) as [Hs Hu].
    split; [by constructor|]. cbn [flat_map]. by rewrite Hu.
  - split; [apply IH2|]. intros h. cbn [wellFormed codePoints].
    destruct (isHighSurrogate h) eqn:Hh.
    + intros Hw. apply andb_true_iff in Hw as [Hl Hw]. rewrite Hl.
      destruct (utf16Units_pair h l Hh Hl) as [Hs Hu].
      destruct (IH1 Hw) as [Hall Hflat].
      split; [by constructor|]. cbn [flat_map]. by rewrite Hu, Hflat.
    + intros Hw. apply andb_true_iff in Hw as [Hw Hr].
      apply andb_true_iff in Hw as [Hl Hb]. apply negb_true_iff in Hl. rewrite Hl.
      destruct (utf16Units_bmp h Hh Hl Hb) as [Hs Hu].
      destruct (IH2 l Hr) as [Hall Hflat].
      split; [by constructor|]. cbn [flat_map]. rewrite Hu. cbn [app]. by f_equal.
Qed.

(** Writing a well formed string as UTF-8 and reading it back gives the
    string. *)
Lemma utf8_roundtrip (s : jsstring) :
  wellFormed s = true -> utf8Decode (utf8Encode s) = s.
Proof.
  intros Hw. destruct (proj1 (codePoints_wellFormed s) Hw) as [Hall Hflat].
  unfold utf8Decode, utf8Encode. by rewrite decode_encode_codePoints.
Qed.

Ltac Zify.zify_post_hook ::= idtac.

(** ** The file system *)

Section EmitSink.
Variable dirname : jsstring -> jsstring.

Abbreviation writeIfChanged := (writeFileIfChanged dirname).

Lemma compare_old (p c : jsstring) (b : list N) (d : Disk) :
  (if negb (bool_decide (Some (utf8Decode b) = Some c))
   then writeFileSync dirname p c
   else fun s : Disk => (Ret tt, s)) d
  = if decide (utf8Decode b = c) then (Ret tt, d)
    else writeFileSync dirname p c d.
Proof.
  destruct (decide (utf8Decode b = c)) as [->|Hne].
  - by rewrite bool_decide_eq_true_2.
  - rewrite bool_decide_eq_false_2; [done|]. by intros [= ?].
Qed.

Lemma withDirs_nil (d : Disk) : withDirs [] d = d.
Proof. by destruct d. Qed.

Lemma withDirs_lookup (qs : list jsstring) (d : Disk) (q : jsstring) :
  nodes (withDirs qs d) !! q = if decide (q ∈ qs) then Some Dir else nodes d !! q.
Proof.
  unfold withDirs. cbn [nodes]. induction qs as [|x qs IH]; cbn [foldr].
  - rewrite decide_False; [done|]. apply not_elem_of_nil.
  - destruct (decide (q = x)) as [->|Hne].
    + rewrite lookup_insert_eq, decide_True; [done|]. apply elem_of_cons. by left.
    + rewrite lookup_insert_ne, IH by done. apply decide_ext.
      rewrite elem_of_cons. split; [by right|intros [?|?]; [congruence|done]].
Qed.

(** What is missing along a lineage is on it, and is not on the disk. *)
Lemma missingAlong_elem (d : Disk) (chain : list jsstring) (q : jsstring) :
  q ∈ missingAlong d chain -> q ∈ chain /\ nodes d !! q = None.
Proof.
  induction chain as [|x chain IH]; cbn [missingAlong].
  - intros H. by destruct (not_elem_of_nil q).
  - destruct (nodes d !! x) as [n|] eqn:Hx.
    + intros H. by destruct (not_elem_of_nil q).
    + rewrite !elem_of_cons. intros [->|H]; [by split; [left|]|].
      apply IH in H as [? ?]. split; [by right|done].
Qed.

(** The recursion of [mkdir] makes the missing directories of the
    lineage, or stops at a file with nothing made. *)
Lemma mkdirAlong_run (chain : list jsstring) (d : Disk) :
  mkdirAlong chain d
  = if wayClear d chain then (Ret tt, withDirs (missingAlong d chain) d)
    else (Throw ENOTDIR, d).
Proof.
  induction chain as [|q above IH]; cbn [mkdirAlong wayClear missingAlong].
  - unfold ret. by rewrite withDirs_nil.
  - destruct (nodes d !! q) as [[b|]|] eqn:Hq; [done|by rewrite withDirs_nil|].
    unfold bind. rewrite IH. by destruct (wayClear d above).
Qed.

Lemma ensured_id (dir : jsstring) (d : Disk) :
  is_Some (nodes d !! dir) -> ensured dirname dir d = d.
Proof.
  intros [n Hn]. unfold ensured, lineage. cbn [missingAlong]. rewrite Hn.
  apply withDirs_nil.
Qed.

(** [ensureDir] is content with anything at the path; with nothing there
    it makes the directories, unless a file is in the way. *)
Lemma ensureDir_run (dir : jsstring) (d : Disk) :
  ensureDir dirname dir d
  = if ensurable dirname d dir then (Ret tt, ensured dirname dir d)
    else (Throw ENOTDIR, d).
Proof.
  unfold ensureDir, bind, existsSync, ensurable.
  destruct (nodes d !! dir) as [n|] eqn:Hdir.
  - rewrite bool_decide_eq_true_2 by (by eexists). cbn [negb].
    unfold ret. rewrite ensured_id; [done|by eexists].
  - rewrite bool_decide_eq_false_2 by (by intros [? ?]). cbn [negb].
    unfold mkdirSync. rewrite Hdir. apply mkdirAlong_run.
Qed.

(** [writeFileIfChanged] by cases on what is at the path once the
    directory is there. *)
Lemma writeFileIfChanged_unfold (p c : jsstring) (d : Disk) :
  writeIfChanged p c d =
    if ensurable dirname d (dirname p) then
      match nodes (ensured dirname (dirname p) d) !! p with
      | Some (File b) =>
          if decide (utf8Decode b = c) then (Ret tt, ensured dirname (dirname p) d)
          else writeFileSync dirname p c (ensured dirname (dirname p) d)
      | Some Dir => (Throw EISDIR, ensured dirname (dirname p) d)
      | None => writeFileSync dirname p c (ensured dirname (dirname p) d)
      end
    else (Throw ENOTDIR, d).
Proof.
  unfold writeFileIfChanged. unfold bind at 1. rewrite ensureDir_run.
  destruct (ensurable dirname d (dirname p)); [|done].
  generalize (ensured dirname (dirname p) d). intros d'.
  unfold bind, ret, existsSync, readFileSync.
  destruct (nodes d' !! p) as [[b|]|] eqn:Hp; cbn -[writeFileSync];
    rewrite ?Hp; cbn -[writeFileSync]; [apply compare_old|done..].
Qed.

Lemma ensured_lookup (dir q : jsstring) (d : Disk) :
  nodes (ensured dirname dir d) !! q
  = match nodes d !! q with
    | Some n => Some n
    | None => if decide (q ∈ missingAlong d (lineage dirname dir)) then Some Dir else None
    end.
Proof.
  unfold ensured. rewrite withDirs_lookup.
  destruct (decide (q ∈ missingAlong d (lineage dirname dir))) as [Hin|Hout].
  - apply missingAlong_elem in Hin as [_ ->]. done.
  - by destruct (nodes d !! q).
Qed.

Lemma ensured_present (dir : jsstring) (d : Disk) :
  is_Some (nodes (ensured dirname dir d) !! dir).
Proof.
  rewrite ensured_lookup. destruct (nodes d !! dir) as [n|] eqn:Hdir; [by eexists|].
  unfold lineage. cbn [missingAlong]. rewrite Hdir.
  rewrite decide_True; [by eexists|]. apply elem_of_cons. by left.
Qed.

Lemma ensured_written (dir : jsstring) (d : Disk) :
  written (ensured dirname dir d) = written d.
Proof. reflexivity. Qed.

Lemma ensured_keeps (dir q : jsstring) (d : Disk) (n : Node) :
  nodes d !! q = Some n -> nodes (ensured dirname dir d) !! q = Some n.
Proof. intros Hq. by rewrite ensured_lookup, Hq. Qed.

Lemma ensured_other (dir q : jsstring) (d : Disk) :
  q ∉ lineage dirname dir -> nodes (ensured dirname dir d) !! q = nodes d !! q.
Proof.
  intros Hout. rewrite ensured_lookup. destruct (nodes d !! q); [done|].
  rewrite decide_False; [done|]. intros Hin. by apply missingAlong_elem in Hin as [? _].
Qed.

Lemma ensured_file (dir p : jsstring) (d : Disk) (b : list N) :
  nodes (ensured dirname dir d) !! p = Some (File b) <-> nodes d !! p = Some (File b).
Proof.
  rewrite ensured_lookup. destruct (nodes d !! p) as [n|]; [done|].
  by destruct (decide _).
Qed.

Lemma writeFileSync_Ret (p c : jsstring) (d d1 : Disk) :
  writeFileSync dirname p c d = (Ret tt, d1) ->
  d1 = {| nodes := <[p := File (utf8Encode c)]> (nodes d);
          written := written d ++ [(p, c)] |}.
Proof.
  unfold writeFileSync.
  destruct (nodes d !! p) as [[b|]|] eqn:Hp;
    destruct (nodes d !! dirname p) as [[bd|]|] eqn:Hdir; try done;
    by intros [= <-].
Qed.

Lemma holdsText_ensured (dir p c : jsstring) (d : Disk) :
  holdsText (ensured dirname dir d) p c <-> holdsText d p c.
Proof.
  unfold holdsText. split; intros (b & Hb & Hc); exists b; (split; [|done]).
  - by apply ensured_file in Hb.
  - by apply ensured_file.
Qed.

(** One invocation that returns: the directory is there afterwards, and
    either the file held the text and nothing was written, or it did not
    and the text was written once. *)
Lemma writeFileIfChanged_Ret (p c : jsstring) (d d1 : Disk) :
  writeIfChanged p c d = (Ret tt, d1) ->
  is_Some (nodes d1 !! dirname p)
  /\ ((holdsText d p c /\ holdsText d1 p c
       /\ written d1 = written d)
      \/ (~ holdsText d p c
          /\ nodes d1 !! p = Some (File (utf8Encode c))
          /\ written d1 = written d ++ [(p, c)])).
Proof.
  rewrite writeFileIfChanged_unfold.
  destruct (ensurable dirname d (dirname p)); [|done].
  pose proof (ensured_present (dirname p) d) as Hdir.
  pose proof (ensured_written (dirname p) d) as Hw.
  assert (Hwrite : ~ holdsText d p c ->
            writeFileSync dirname p c (ensured dirname (dirname p) d) = (Ret tt, d1) ->
            is_Some (nodes d1 !! dirname p)
            /\ nodes d1 !! p = Some (File (utf8Encode c))
            /\ written d1 = written d ++ [(p, c)]).
  { intros _ Hrun. apply writeFileSync_Ret in Hrun as ->. cbn [nodes written].
    rewrite Hw, lookup_insert_eq. split; [|done].
    destruct (decide (p = dirname p)) as [<-|Hne].
    - by rewrite lookup_insert_eq.
    - by rewrite lookup_insert_ne. }
  destruct (nodes (ensured dirname (dirname p) d) !! p) as [[b|]|] eqn:Hp.
  - apply ensured_file in Hp as Hp0.
    destruct (decide (utf8Decode b = c)) as [Hb|Hb].
    + intros [= <-]. split; [done|]. left. split; [by exists b|]. split; [by exists b|done].
    + intros Hrun.
      assert (Hnot : ~ holdsText d p c)
        by (intros (b' & Hb' & Hc'); congruence).
      destruct (Hwrite Hnot Hrun) as (? & ? & ?). split; [done|]. by right.
  - done.
  - intros Hrun.
    assert (Hnot : ~ holdsText d p c).
    { intros (b' & Hb' & Hc').
      apply (proj2 (ensured_file (dirname p) p d b')) in Hb'. congruence. }
    destruct (Hwrite Hnot Hrun) as (? & ? & ?). split; [done|]. by right.
Qed.

(** An invocation on a disk where the directory is there and the file
    holds the text changes nothing. *)
Lemma writeFileIfChanged_unchanged (p c : jsstring) (d : Disk) :
  is_Some (nodes d !! dirname p) -> holdsText d p c ->
  writeIfChanged p c d = (Ret tt, d).
Proof.
  intros Hdir (b & Hp & Hb).
  rewrite writeFileIfChanged_unfold, (ensured_id _ _ Hdir), Hp.
  unfold ensurable. destruct Hdir as [n ->]. by rewrite decide_True.
Qed.

End EmitSink.

(** * Further lemmas *)

(** ** Deduplication, once more *)

Section UniqMore.
Context {A : Type} `{EqDecision A}.

Lemma firstOccurrences_NoDup (l : list A) : NoDup l -> firstOccurrences l = l.
Proof.
  induction 1 as [|x l Hx Hl IH]; [done|]. cbn [firstOccurrences]. rewrite IH. f_equal.
  apply filter_all. intros y Hy ->. done.
Qed.

Lemma length_firstOccurrences (l : list A) :
  (length (firstOccurrences l) <= length l)%nat.
Proof.
  induction l as [|x l IH]; [done|]. cbn [firstOccurrences length].
  pose proof (length_filter (fun y => y ≠ x) (firstOccurrences l)). lia.
Qed.

End UniqMore.

(** ** Trimming, once more *)

Lemma dropWhile_all {A} (f : A -> bool) (l : list A) :
  Forall (fun x => f x = true) l -> dropWhile f l = [].
Proof. induction 1 as [|x l Hx _ IH]; [done|]. simpl. by rewrite Hx. Qed.

Lemma dropWhile_nil {A} (f : A -> bool) (l : list A) :
  dropWhile f l = [] -> Forall (fun x => f x = true) l.
Proof.
  induction l as [|x l IH]; [constructor|]. simpl.
  destruct (f x) eqn:Hx; [|done]. intros H. constructor; auto.
Qed.

Lemma dropWhile_fixed {A} (f : A -> bool) (l : list A) :
  (forall c, head l = Some c -> f c = false) -> dropWhile f l = l.
Proof. destruct l as [|x l]; [done|]. intros H. simpl. by rewrite (H x). Qed.

Lemma Forall_dropWhile {A} (P : A -> Prop) (f : A -> bool) (l : list A) :
  Forall P l -> Forall P (dropWhile f l).
Proof.
  induction 1 as [|x l Hx Hl IH]; [constructor|]. simpl.
  destruct (f x); [done|]. by constructor.
Qed.

Lemma trimEnd_snoc (s : jsstring) (c : N) :
  trimEnd (s ++ [c]) = if isSpace c then trimEnd s else s ++ [c].
Proof.
  unfold trimEnd. rewrite reverse_snoc. simpl. destruct (isSpace c); [done|].
  by rewrite reverse_cons, reverse_involutive.
Qed.

(** [trimEnd] removes a run of white space from the end, and all of it. *)
Lemma trimEnd_spec (s : jsstring) : exists ws, s = trimEnd s ++ ws /\ blank ws.
Proof.
  induction s as [|x s IH] using rev_ind.
  - exists []. split; [done|constructor].
  - rewrite trimEnd_snoc. destruct (isSpace x) eqn:Hx.
    + destruct IH as (ws & Heq & Hws). exists (ws ++ [x]). split.
      * by rewrite app_assoc, <- Heq.
      * apply Forall_app. split; [done|]. by constructor.
    + exists []. split; [by rewrite app_nil_r|constructor].
Qed.

Lemma trimEnd_app_blank (a ws : jsstring) : blank ws -> trimEnd (a ++ ws) = trimEnd a.
Proof.
  induction ws as [|x ws IH] using rev_ind; intros Hws.
  - by rewrite app_nil_r.
  - apply Forall_app in Hws as [Hws Hx]. apply Forall_inv in Hx.
    rewrite app_assoc, trimEnd_snoc, Hx. by apply IH.
Qed.

Lemma trimEnd_fixed (s : jsstring) :
  (forall c, last s = Some c -> isSpace c = false) -> trimEnd s = s.
Proof.
  destruct s as [|x s _] using rev_ind; [done|]. intros H.
  rewrite trimEnd_snoc, (H x); [done|]. by rewrite last_snoc.
Qed.

Lemma trimEnd_app (a b : jsstring) : trimEnd b <> [] -> trimEnd (a ++ b) = a ++ trimEnd b.
Proof.
  induction b as [|x b IH] using rev_ind; [done|].
  rewrite app_assoc, !trimEnd_snoc. destruct (isSpace x); [done|].
  intros _. by rewrite app_assoc.
Qed.

Lemma trimEnd_cons (c : N) (s : jsstring) :
  isSpace c = false -> trimEnd (c :: s) = c :: trimEnd s.
Proof.
  intros Hc. induction s as [|x s IH] using rev_ind.
  - change [c] with ([] ++ [c]). by rewrite trimEnd_snoc, Hc.
  - change (c :: s ++ [x]) with ((c :: s) ++ [x]). rewrite !trimEnd_snoc.
    by destruct (isSpace x).
Qed.

Lemma trim_blank (s : jsstring) : blank s -> trim s = [].
Proof. intros Hs. unfold trim, trimStart. by rewrite dropWhile_all. Qed.

Lemma trim_cases (s : jsstring) :
  (blank s /\ trim s = [])
  \/ (~ blank s /\ exists c t, trim s = c :: t /\ isSpace c = false).
Proof.
  unfold trim, trimStart. destruct (dropWhile isSpace s) as [|c r] eqn:Hd.
  - left. split; [by apply dropWhile_nil|done].
  - right. assert (Hc : isSpace c = false).
    { apply (head_dropWhile isSpace s). by rewrite Hd. }
    split.
    + intros Hs. by rewrite (dropWhile_all _ _ Hs) in Hd.
    + exists c, (trimEnd r). split; [by apply trimEnd_cons|done].
Qed.

Lemma head_trim (s : jsstring) (c : N) : head (trim s) = Some c -> isSpace c = false.
Proof.
  destruct (trim_cases s) as [[_ ->]|(_ & c' & t & -> & Hc)]; [done|].
  by intros [= <-].
Qed.

Lemma trim_fixed (s : jsstring) :
  (forall c, head s = Some c -> isSpace c = false) ->
  (forall c, last s = Some c -> isSpace c = false) -> trim s = s.
Proof.
  intros Hh Hl. unfold trim, trimStart. rewrite dropWhile_fixed by done.
  by apply trimEnd_fixed.
Qed.

Lemma Forall_trim (P : N -> Prop) (s : jsstring) : Forall P s -> Forall P (trim s).
Proof.
  intros Hs. unfold trim, trimEnd, trimStart.
  by apply Forall_reverse, Forall_dropWhile, Forall_reverse, Forall_dropWhile.
Qed.

(** ** The user agent of a block *)

Lemma resolveUa_ne_nil (p : RobotsPolicy) : resolveUa p <> [].
Proof. unfold resolveUa. by destruct (trim _). Qed.

Lemma resolveUa_head (p : RobotsPolicy) (c : N) :
  head (resolveUa p) = Some c -> isSpace c = false.
Proof.
  unfold resolveUa. destruct (truthy _); [apply head_trim|]. by intros [= <-].
Qed.

Lemma resolveUa_last (p : RobotsPolicy) (c : N) :
  last (resolveUa p) = Some c -> isSpace c = false.
Proof.
  unfold resolveUa. destruct (truthy _); [apply last_trim|]. by intros [= <-].
Qed.

Lemma resolveUa_plain (ua : jsstring) (p : RobotsPolicy) :
  userAgent p = Some ua -> ua <> [] -> Forall (fun c => isSpace c = false) ua ->
  resolveUa p = ua.
Proof.
  intros Hp Hne Hua. unfold resolveUa. rewrite Hp.
  change (default star (Some ua)) with ua.
  rewrite trim_fixed.
  - by destruct ua.
  - intros c Hc. destruct ua as [|x ua]; [done|]. injection Hc as <-. by inversion Hua.
  - intros c Hc. rewrite Forall_forall in Hua. by apply Hua, last_Some_elem_of.
Qed.

(** ** Texts without white space in front of a line end *)

Lemma not_isSpace_isLineTerminator (c : N) : isSpace c = false -> isLineTerminator c = false.
Proof. unfold isSpace. intros H. by apply orb_false_elim in H as [_ ?]. Qed.

Lemma span_lookup {A} (f : A -> bool) (l : list A) (k : nat) :
  (k < span f l)%nat -> exists x, l !! k = Some x /\ f x = true.
Proof.
  revert k. induction l as [|y l IH]; intros k; simpl; [lia|].
  destruct (f y) eqn:Hy; [|lia]. destruct k as [|k].
  - intros _. by exists y.
  - intros Hk. apply IH. lia.
Qed.

Lemma backtrackSpaces_eol (j : nat) (s : jsstring) (j' : nat) :
  backtrackSpaces j s = Some j' -> eolMultiline (skipn j' s) = true.
Proof.
  induction j as [|j IH]; [done|]. cbn [backtrackSpaces].
  destruct (eolMultiline (skipn (S j) s)) eqn:He; [|exact IH]. by intros [= <-].
Qed.

Lemma spaceBeforeEol_middle (a : jsstring) (x : N) (b : jsstring) :
  isSpace x = true -> eolMultiline b = true -> spaceBeforeEol (a ++ x :: b) = true.
Proof.
  intros Hx Hb. induction a as [|c a IH]; cbn [app spaceBeforeEol].
  - by rewrite Hx, Hb.
  - rewrite IH. apply orb_true_r.
Qed.

(** A match of the strip starts a run of white space that stands in front
    of a line end. *)
Lemma matchSpacesEol_Some (s : jsstring) (j : nat) :
  matchSpacesEol s = Some j ->
  exists i x, j = S i /\ s = take i s ++ x :: drop j s
              /\ Forall (fun c => isSpace c = true) (take j s)
              /\ eolMultiline (drop j s) = true.
Proof.
  unfold matchSpacesEol. intros Hm.
  pose proof (backtrackSpaces_bounds _ _ _ Hm) as Hb.
  pose proof (backtrackSpaces_eol _ _ _ Hm) as He.
  destruct j as [|i]; [lia|]. exists i.
  destruct (span_lookup isSpace s i) as (x & Hx & _); [lia|].
  exists x. split; [done|]. split; [symmetry; by apply take_drop_middle|]. split; [|done].
  apply Forall_forall. intros c Hc. apply list_elem_of_lookup in Hc as (k & Hk).
  pose proof (lookup_lt_Some _ _ _ Hk) as Hlt. rewrite length_take in Hlt.
  rewrite lookup_take_lt in Hk by lia.
  destruct (span_lookup isSpace s k) as (y & Hy & Hfy); [lia|]. congruence.
Qed.

Lemma matchSpacesEol_spaceBeforeEol (s : jsstring) (j : nat) :
  matchSpacesEol s = Some j -> spaceBeforeEol s = true.
Proof.
  intros Hm. destruct (matchSpacesEol_Some s j Hm) as (i & x & -> & Hs & Hall & He).
  rewrite Hs. apply spaceBeforeEol_middle; [|done].
  rewrite Forall_forall in Hall. apply Hall.
  apply list_elem_of_lookup. exists i. rewrite lookup_take_lt by lia.
  rewrite Hs at 1. rewrite list_lookup_middle; [done|].
  rewrite length_take. apply (f_equal length) in Hs.
  rewrite length_app in Hs. simpl in Hs. rewrite length_take in Hs. lia.
Qed.

(** Without white space in front of a line end both strips change
    nothing. *)
Lemma replaceSpacesEol_quiet (s : jsstring) :
  spaceBeforeEol s = false -> replaceSpacesEol s = s.
Proof.
  induction s as [|c r IH]; [done|]. intros Hq. cbn [replaceSpacesEol].
  destruct (matchSpacesEol (c :: r)) as [j|] eqn:Hm.
  - apply matchSpacesEol_spaceBeforeEol in Hm. congruence.
  - f_equal. apply IH. cbn [spaceBeforeEol] in Hq. by apply orb_false_elim in Hq as [_ ?].
Qed.

Lemma trimEnd_quiet (s : jsstring) : spaceBeforeEol s = false -> trimEnd s = s.
Proof.
  intros Hq. apply trimEnd_fixed. intros c Hc.
  destruct (isSpace c) eqn:Hs; [|done].
  apply last_Some in Hc as (a & ->).
  by rewrite (spaceBeforeEol_middle a c []) in Hq.
Qed.

(** ** Tidy lines *)

Lemma noLineTerminator_Forall (s : jsstring) :
  noLineTerminator s = true <-> Forall (fun c => isLineTerminator c = false) s.
Proof.
  unfold noLineTerminator. rewrite forallb_forall, Forall_forall.
  split; intros H c Hc.
  - apply negb_true_iff, H. by apply list_elem_of_In.
  - apply negb_true_iff, H. by apply list_elem_of_In.
Qed.

Lemma noLineTerminator_app (a b : jsstring) :
  noLineTerminator (a ++ b) = noLineTerminator a && noLineTerminator b.
Proof. unfold noLineTerminator. apply forallb_app. Qed.

Lemma noLineTerminator_newlineFree (s : jsstring) :
  noLineTerminator s = true -> newlineFree s.
Proof.
  rewrite noLineTerminator_Forall, Forall_forall. intros H Hin.
  by specialize (H 10 Hin).
Qed.

Lemma noLineTerminator_trim (s : jsstring) :
  noLineTerminator s = true -> noLineTerminator (trim s) = true.
Proof. rewrite !noLineTerminator_Forall. apply Forall_trim. Qed.

Lemma endsTidy_last (s : jsstring) :
  endsTidy s = true <-> s <> [] /\ forall c, last s = Some c -> isSpace c = false.
Proof.
  unfold endsTidy. destruct (last s) as [c|] eqn:Hl.
  - rewrite negb_true_iff. split.
    + intros Hc. split; [by destruct s|]. by intros ? [= <-].
    + intros [_ H]. by apply H.
  - apply last_None in Hl as ->. split; [done|]. by intros [? _].
Qed.

Lemma endsTidy_app (a b : jsstring) : endsTidy b = true -> endsTidy (a ++ b) = true.
Proof.
  unfold endsTidy. rewrite last_app. by destruct (last b).
Qed.

Lemma spaceBeforeEol_tidy_app (l t : jsstring) :
  endsTidy l = true -> noLineTerminator l = true ->
  spaceBeforeEol (l ++ t) = spaceBeforeEol t.
Proof.
  intros He Hn. apply endsTidy_last in He as [Hne Hl].
  apply noLineTerminator_Forall in Hn.
  induction l as [|c l IH]; [done|]. cbn [app spaceBeforeEol].
  destruct l as [|c' l].
  - cbn [app]. rewrite (Hl c) by done. done.
  - rewrite IH.
    + cbn [app eolMultiline]. inversion Hn as [|? ? _ Hn']; subst.
      inversion Hn' as [|? ? Hc' _]; subst. rewrite Hc'. by rewrite andb_false_r.
    + done.
    + intros x Hx. apply Hl. by rewrite last_cons_cons.
    + by inversion Hn.
Qed.

Lemma eolMultiline_tidy (l t : jsstring) :
  endsTidy l = true -> noLineTerminator l = true -> eolMultiline (l ++ t) = false.
Proof.
  intros He Hn. destruct l as [|c l]; [done|]. cbn.
  cbn in Hn. apply andb_true_iff in Hn as [Hc _]. by apply negb_true_iff in Hc.
Qed.

Lemma spaceBeforeEol_join (ls : list jsstring) :
  Forall (fun l => tidyPath l = true) ls -> spaceBeforeEol (join nl ls) = false.
Proof.
  induction 1 as [|l ls Hl Hall IH]; [done|].
  apply andb_true_iff in Hl as [He Hn].
  destruct ls as [|l' ls].
  - cbn [join]. rewrite <- (app_nil_r l). by rewrite spaceBeforeEol_tidy_app.
  - rewrite join_cons_cons, spaceBeforeEol_tidy_app by done.
    cbn [nl app spaceBeforeEol]. rewrite IH, orb_false_r.
    inversion Hall as [|? ? Hl' _]; subst. apply andb_true_iff in Hl' as [He' Hn'].
    destruct ls as [|l'' ls].
    + cbn [join]. rewrite <- (app_nil_r l'), eolMultiline_tidy by done. apply andb_false_r.
    + rewrite join_cons_cons, eolMultiline_tidy by done. apply andb_false_r.
Qed.

Lemma tidyPath_prefixed (pre d : jsstring) :
  noLineTerminator pre = true -> tidyPath d = true -> tidyPath (pre ++ d) = true.
Proof.
  intros Hp Hd. apply andb_true_iff in Hd as [He Hn]. unfold tidyPath.
  by rewrite endsTidy_app, noLineTerminator_app, Hp, Hn.
Qed.

Lemma tidyPath_uaLine (p : RobotsPolicy) :
  noLineTerminator (default star (userAgent p)) = true ->
  tidyPath (uaLine (resolveUa p)) = true.
Proof.
  intros Hp. apply tidyPath_prefixed; [done|]. unfold tidyPath.
  apply andb_true_iff. split.
  - apply endsTidy_last. split; [apply resolveUa_ne_nil|apply resolveUa_last].
  - unfold resolveUa. destruct (truthy _); [by apply noLineTerminator_trim|done].
Qed.

Lemma forallb_uniq (f : jsstring -> bool) (arr : option (list jsstring)) :
  forallb f (default [] arr) = true -> Forall (fun x => f x = true) (uniq arr).
Proof.
  rewrite forallb_forall, uniq_firstOccurrences, Forall_forall. intros H x Hx.
  by apply H, list_elem_of_In, elem_of_firstOccurrences.
Qed.

Lemma blockLines_tidy (p : RobotsPolicy) :
  tidyPolicy p = true -> Forall (fun l => tidyPath l = true) (blockLines p).
Proof.
  intros Hp. apply andb_true_iff in Hp as [Hp Ha]. apply andb_true_iff in Hp as [Hu Hd].
  rewrite blockLines_eq. constructor; [by apply tidyPath_uaLine|].
  apply Forall_app. split; apply Forall_fmap.
  - eapply Forall_impl; [by apply forallb_uniq|]. intros d Hx. by apply tidyPath_prefixed.
  - eapply Forall_impl; [by apply forallb_uniq|]. intros d Hx. by apply tidyPath_prefixed.
Qed.

Lemma blocks_lines (ps : list RobotsPolicy) :
  join nl (map block ps) = join nl (concat (map blockLines ps)).
Proof.
  unfold block. rewrite <- (map_map blockLines (join nl)). apply join_concat.
  apply Forall_forall. intros ls Hls.
  apply list_elem_of_fmap in Hls as (p & -> & _). apply blockLines_ne_nil.
Qed.

Lemma allLines_tidy (ps : list RobotsPolicy) :
  forallb tidyPolicy ps = true ->
  Forall (fun l => tidyPath l = true) (concat (map blockLines ps)).
Proof.
  rewrite forallb_forall. intros Hps. apply Forall_concat, Forall_forall.
  intros ls Hls. apply list_elem_of_fmap in Hls as (p & -> & Hp).
  by apply blockLines_tidy, Hps, list_elem_of_In.
Qed.

Lemma textLines_ne_nil (s : jsstring) : textLines s <> [].
Proof.
  induction s as [|c s IH]; [done|]. cbn [textLines].
  destruct (isNl c); [done|]. by destruct (textLines s).
Qed.

Lemma textLines_app_nl (s : jsstring) : textLines (s ++ nl) = textLines s ++ [[]].
Proof.
  induction s as [|c s IH]; [done|]. cbn [app textLines]. rewrite IH.
  destruct (isNl c); [done|].
  pose proof (textLines_ne_nil s). by destruct (textLines s).
Qed.

(** For tidy policies neither strip finds anything to remove. *)
Lemma tidy_heads (ps : list RobotsPolicy) :
  forallb tidyPolicy ps = true ->
  Index.serializePolicies ps = join nl (concat (map blockLines ps)) ++ nl
  /\ GenerateRobots.serializePolicies ps = Index.serializePolicies ps.
Proof.
  intros Htidy. pose proof (spaceBeforeEol_join _ (allLines_tidy ps Htidy)) as Hq.
  unfold Index.serializePolicies, GenerateRobots.serializePolicies.
  by rewrite blocks_lines, replaceSpacesEol_quiet, trimEnd_quiet.
Qed.

(** ** The strip of [src/index.ts], step by step *)

Lemma matchSpacesEol_nonspace (c : N) (r : jsstring) :
  isSpace c = false -> matchSpacesEol (c :: r) = None.
Proof. intros Hc. unfold matchSpacesEol. cbn [span]. by rewrite Hc. Qed.

(** Characters that are not white space are passed over. *)
Lemma replaceSpacesEol_nonspace (pre rest : jsstring) :
  Forall (fun c => isSpace c = false) pre ->
  replaceSpacesEol (pre ++ rest) = pre ++ replaceSpacesEol rest.
Proof.
  induction 1 as [|c pre Hc _ IH]; [done|]. cbn [app replaceSpacesEol].
  by rewrite matchSpacesEol_nonspace, IH.
Qed.

(** So is a white space character in front of one that is not. *)
Lemma replaceSpacesEol_lone_space (c d : N) (rest : jsstring) :
  isSpace d = false ->
  replaceSpacesEol (c :: d :: rest) = c :: replaceSpacesEol (d :: rest).
Proof.
  intros Hd. destruct (isSpace c) eqn:Hc.
  - cbn [replaceSpacesEol]. unfold matchSpacesEol. cbn [span]. rewrite Hc, Hd.
    cbn [backtrackSpaces skipn eolMultiline].
    by rewrite (not_isSpace_isLineTerminator d Hd).
  - change (c :: d :: rest) with ([c] ++ d :: rest).
    by rewrite (replaceSpacesEol_nonspace [c]) by (by constructor).
Qed.

(** A space in front of a newline is where the strip stops. *)
Lemma replaceSpacesEol_space_newline (u : N) (rest : jsstring) :
  isSpace u = false ->
  replaceSpacesEol (32 :: 10 :: u :: rest) = 10 :: u :: rest.
Proof.
  intros Hu. cbn [replaceSpacesEol]. unfold matchSpacesEol. cbn [span].
  change (isSpace 32) with true. change (isSpace 10) with true. rewrite Hu.
  cbn [backtrackSpaces skipn eolMultiline].
  by rewrite (not_isSpace_isLineTerminator u Hu).
Qed.

Lemma join_cons_prefix (sep x : jsstring) (r : list jsstring) :
  exists t, join sep (x :: r) = x ++ t.
Proof.
  destruct r as [|y r].
  - exists []. by rewrite app_nil_r.
  - by eexists.
Qed.

(** A block begins with its [User-agent] line. *)
Lemma block_prefix (p : RobotsPolicy) : exists t, block p = uaLine (resolveUa p) ++ t.
Proof. unfold block. rewrite blockLines_eq. apply join_cons_prefix. Qed.

Lemma blocks_prefix (p : RobotsPolicy) (qs : list RobotsPolicy) :
  exists t, join nl (map block (p :: qs)) = uaLine (resolveUa p) ++ t.
Proof.
  cbn [map]. destruct (join_cons_prefix nl (block p) (map block qs)) as (t & ->).
  destruct (block_prefix p) as (t' & ->). exists (t' ++ t). by rewrite app_assoc.
Qed.

Lemma endsTidy_uaLine (p : RobotsPolicy) : endsTidy (uaLine (resolveUa p)) = true.
Proof.
  apply endsTidy_app, endsTidy_last. split; [apply resolveUa_ne_nil|apply resolveUa_last].
Qed.

Lemma trimEnd_keeps_prefix (a b : jsstring) :
  endsTidy a = true -> a `prefix_of` trimEnd (a ++ b).
Proof.
  intros Ha. apply endsTidy_last in Ha as [_ Ha].
  induction b as [|x b IH] using rev_ind.
  - rewrite app_nil_r, trimEnd_fixed by done. done.
  - rewrite app_assoc, trimEnd_snoc. destruct (isSpace x); [done|].
    rewrite <- app_assoc. by apply prefix_app_r.
Qed.

Lemma trimEnd_block_ne_nil (p : RobotsPolicy) : trimEnd (block p) <> [].
Proof.
  destruct (block_prefix p) as (t & ->).
  pose proof (trimEnd_keeps_prefix _ t (endsTidy_uaLine p)) as [k Hk].
  rewrite Hk. discriminate.
Qed.

(** ** Lines *)

Lemma elem_of_lines (xs : list (option jsstring)) (s : jsstring) :
  s ∈ lines xs <-> Some s ∈ xs /\ s <> [].
Proof.
  unfold lines. rewrite list_elem_of_omap. split.
  - intros ([t|] & Hin & Ht); [|done]. destruct t as [|c t]; [done|].
    injection Ht as <-. by split.
  - intros [Hin Hs]. exists (Some s). split; [done|]. by destruct s.
Qed.

(** ** The log of a run *)

Section RunLog.
Context {W Exn : Type}.
Implicit Types (ctx : Ctx) (opts : RobotsOptions W Exn) (env : Env W).

Lemma resolvePolicies_log ctx opts env :
  calls (resolvePolicies ctx opts env).2 = calls env ++ policyCalls ctx opts.
Proof.
  unfold resolvePolicies, policyCalls.
  destruct (explicitPolicies opts) as [ps|]; [by rewrite app_nil_r|].
  destruct (policyBuilder opts) as [f|]; [|by rewrite app_nil_r].
  unfold bind, invoke. by destruct (f ctx (world env)) as [[r|e] w'].
Qed.

Lemma resolveSitemaps_log ctx opts env :
  calls (resolveSitemaps ctx opts env).2 = calls env ++ sitemapsCalls ctx opts.
Proof.
  unfold resolveSitemaps, sitemapsCalls.
  destruct (sitemaps opts) as [[l|f]|]; [by rewrite app_nil_r| |by rewrite app_nil_r].
  unfold invoke. by destruct (f ctx (world env)) as [r w'].
Qed.

Lemma resolveFoot_log ctx opts env :
  calls (resolveFoot ctx opts env).2 = calls env ++ footerCalls ctx opts.
Proof.
  unfold resolveFoot, footerCalls.
  destruct (footerComment opts) as [[l|f]|]; [by rewrite app_nil_r| |by rewrite app_nil_r].
  unfold invoke. by destruct (f ctx (world env)) as [r w'].
Qed.

Lemma expectedCalls_ctx ctx opts : Forall (fun c => callCtx c = ctx) (expectedCalls ctx opts).
Proof.
  unfold expectedCalls, policyCalls, sitemapsCalls, footerCalls.
  destruct (explicitPolicies opts), (policyBuilder opts), (sitemaps opts) as [[?|?]|],
    (footerComment opts) as [[?|?]|]; repeat constructor.
Qed.

Lemma expectedCalls_NoDup ctx opts : NoDup (expectedCalls ctx opts).
Proof.
  unfold expectedCalls, policyCalls, sitemapsCalls, footerCalls.
  destruct (explicitPolicies opts), (policyBuilder opts), (sitemaps opts) as [[?|?]|],
    (footerComment opts) as [[?|?]|]; cbn; repeat constructor;
    rewrite ?elem_of_cons, ?elem_of_nil; intuition discriminate.
Qed.

(** The log of a run, whatever its outcome: the invocations of the
    resolutions that were reached, all of them when the run returns. *)
Lemma buildContentWith_log ser ctx opts env :
  exists made,
    calls (buildContentWith ser ctx opts env).2 = calls env ++ made
    /\ made `prefix_of` expectedCalls ctx opts
    /\ (forall text, (buildContentWith ser ctx opts env).1 = Ret text ->
          made = expectedCalls ctx opts).
Proof.
  unfold buildContentWith, bind, expectedCalls.
  pose proof (resolvePolicies_log ctx opts env) as H1.
  destruct (resolvePolicies ctx opts env) as [[ps|e] e1]; cbn [snd] in H1.
  - pose proof (resolveSitemaps_log ctx opts e1) as H2.
    destruct (resolveSitemaps ctx opts e1) as [[sm|e] e2]; cbn [snd] in H2.
    + pose proof (resolveFoot_log ctx opts e2) as H3.
      destruct (resolveFoot ctx opts e2) as [[foot|e] e3]; cbn [snd fst ret] in *;
        eexists; (split; [by rewrite H3, H2, H1, <- !app_assoc|]); by split.
    + cbn [snd fst]. exists (policyCalls ctx opts ++ sitemapsCalls ctx opts).
      split; [by rewrite H2, H1, <- app_assoc|]. split; [|done].
      rewrite app_assoc. by apply prefix_app_r.
    - cbn [snd fst]. exists (policyCalls ctx opts). split; [done|]. split; [|done].
      by apply prefix_app_r.
Qed.

(** An exception of [buildContent] is the exception of a resolution. *)
Lemma buildContentWith_Throw ser ctx opts env e env' :
  buildContentWith ser ctx opts env = (Throw e, env') <->
  resolvePolicies ctx opts env = (Throw e, env')
  \/ (exists ps e1, resolvePolicies ctx opts env = (Ret ps, e1)
        /\ (resolveSitemaps ctx opts e1 = (Throw e, env')
            \/ exists sm e2, resolveSitemaps ctx opts e1 = (Ret sm, e2)
                 /\ resolveFoot ctx opts e2 = (Throw e, env'))).
Proof.
  unfold buildContentWith, bind.
  destruct (resolvePolicies ctx opts env) as [[ps|x] e1].
  - destruct (resolveSitemaps ctx opts e1) as [[sm|y] e2] eqn:H2.
    + destruct (resolveFoot ctx opts e2) as [[foot|z] e3] eqn:H3; cbn [ret].
      * split; [done|]. intros [?|(? & ? & [= <- <-] & [?|(? & ? & ? & ?)])]; try done.
        rewrite H2 in *. simplify_eq. congruence.
      * split.
        -- intros [= <- <-]. right. exists ps, e1. split; [done|]. right. by exists sm, e2.
        -- intros [?|(? & ? & [= <- <-] & [?|(? & ? & ? & ?)])]; try done;
             rewrite H2 in *; simplify_eq; congruence.
    + split.
      * intros [= <- <-]. right. exists ps, e1. split; [done|]. by left.
      * intros [?|(? & ? & [= <- <-] & [?|(? & ? & ? & ?)])]; try done;
          rewrite H2 in *; simplify_eq; congruence.
  - split; [intros [= <- <-]; by left|].
    intros [[= -> ->]|(? & ? & H & _)]; [done|discriminate H].
Qed.

Lemma resolvePolicies_Throw ctx opts env e env' :
  resolvePolicies ctx opts env = (Throw e, env') <->
  exists f, explicitPolicies opts = None /\ policyBuilder opts = Some f
    /\ (f ctx (world env)).1 = Throw e
    /\ env' = {| world := (f ctx (world env)).2;
                 calls := calls env ++ [PolicyBuilderCall ctx] |}.
Proof.
  unfold resolvePolicies. destruct (explicitPolicies opts) as [ps|].
  - split; [done|]. by intros (f & ? & _).
  - destruct (policyBuilder opts) as [f|].
    + unfold bind, invoke, ret. destruct (f ctx (world env)) as [[r|x] w'] eqn:Hf.
      * split; [done|]. intros (g & _ & [= <-] & Hx & _). by rewrite Hf in Hx.
      * split.
        -- intros [= <- <-]. exists f. by rewrite Hf.
        -- intros (g & _ & [= <-] & Hx & ->). rewrite Hf in *. cbn in Hx. by injection Hx as ->.
    + split; [done|]. by intros (f & _ & ? & _).
Qed.

Lemma resolveSitemaps_Throw ctx opts env e env' :
  resolveSitemaps ctx opts env = (Throw e, env') <->
  exists g, sitemaps opts = Some (SitemapsFn g)
    /\ (g ctx (world env)).1 = Throw e
    /\ env' = {| world := (g ctx (world env)).2;
                 calls := calls env ++ [SitemapsCall ctx] |}.
Proof.
  unfold resolveSitemaps. destruct (sitemaps opts) as [[l|g]|].
  - split; [done|]. by intros (f & ? & _).
  - unfold invoke. destruct (g ctx (world env)) as [r w'] eqn:Hg. split.
    + intros [= -> <-]. exists g. by rewrite Hg.
    + intros (g' & [= <-] & Hx & ->). rewrite Hg in *. cbn in Hx. by rewrite Hx.
  - split; [done|]. by intros (f & ? & _).
Qed.

Lemma resolveFoot_Throw ctx opts env e env' :
  resolveFoot ctx opts env = (Throw e, env') <->
  exists h, footerComment opts = Some (FooterFn h)
    /\ (h ctx (world env)).1 = Throw e
    /\ env' = {| world := (h ctx (world env)).2;
                 calls := calls env ++ [FooterCommentCall ctx] |}.
Proof.
  unfold resolveFoot. destruct (footerComment opts) as [[l|g]|].
  - split; [done|]. by intros (f & ? & _).
  - unfold invoke. destruct (g ctx (world env)) as [r w'] eqn:Hg. split.
    + intros [= -> <-]. exists g. by rewrite Hg.
    + intros (g' & [= <-] & Hx & ->). rewrite Hg in *. cbn in Hx. by rewrite Hx.
  - split; [done|]. by intros (f & ? & _).
Qed.

End RunLog.

(** ** The end of the assembled text *)

Lemma footerBlock_ends_nl (f : jsstring) :
  f <> [] -> exists y, footerBlock (Some f) = y ++ nl.
Proof.
  intros Hf. destruct f as [|c f]; [done|]. cbn [footerBlock truthy].
  exists (nl ++ lit "# " ++ trim (c :: f)). by rewrite <- !app_assoc.
Qed.

Lemma smBlock_cases (sm : option (list jsstring)) :
  smBlock sm = [] \/ exists y, smBlock sm = y ++ nl /\ truthy (smBlock sm) = true.
Proof.
  destruct sm as [[|u us]|]; [by left| |by left]. right.
  exists (join nl (map sitemapLine (u :: us))). split; [done|].
  cbn [smBlock]. by destruct (join nl (map sitemapLine (u :: us))).
Qed.

Lemma assemble_ends_nl (x : jsstring) (sm : option (list jsstring)) (foot : option jsstring) :
  exists body,
    last body <> Some 10
    /\ (assemble (x ++ nl) (smBlock sm) (footerBlock foot) = body ++ nl
        \/ assemble (x ++ nl) (smBlock sm) (footerBlock foot) = body ++ nl ++ nl).
Proof.
  unfold assemble.
  assert (Hend : exists y, (x ++ nl) ++ (if truthy (smBlock sm) then nl ++ smBlock sm else [])
                           ++ footerBlock foot = y ++ nl).
  { destruct (footerBlock_cases foot) as [[-> _]|(f & -> & Hf)].
    - rewrite app_nil_r. destruct (smBlock_cases sm) as [->|(y & Hy & ->)].
      + exists x. by rewrite app_nil_r.
      + rewrite Hy. exists ((x ++ nl) ++ nl ++ y). by rewrite <- !app_assoc.
    - destruct (footerBlock_ends_nl f Hf) as (y & ->). eexists. by rewrite !app_assoc. }
  destruct Hend as (y & ->).
  destruct (trailing_newlines_decompose (y ++ nl)) as (body & k & Heq & Hl).
  rewrite Heq, replaceNewlinesEnd_spec by done. exists body. split; [done|].
  destruct k as [|[|k]].
  - exfalso. apply Hl. cbn [replicate] in Heq. rewrite app_nil_r in Heq.
    rewrite <- Heq. unfold nl. by rewrite last_snoc.
  - by left.
  - right. by rewrite Nat.min_r by lia.
Qed.

(** With a head that ends in exactly one newline and no sitemaps, the
    final replacement changes nothing. *)
Lemma assemble_no_sitemaps (x : jsstring) (foot : option jsstring) :
  last x <> Some 10 ->
  assemble (x ++ nl) [] (footerBlock foot) = (x ++ nl) ++ footerBlock foot.
Proof.
  intros Hx. destruct (footerBlock_cases foot) as [[Hf _]|(f & -> & Hf)].
  - rewrite Hf, app_nil_r. unfold assemble. cbn [truthy]. rewrite !app_nil_r.
    apply (replaceNewlinesEnd_id x 1); [done|lia].
  - change [] with (smBlock None) at 1. rewrite assemble_footer by done.
    unfold headAndSitemaps, footerBlock. cbn [smBlock truthy]. rewrite app_nil_r.
    by destruct f.
Qed.

(** ** The file system, once more *)

Section EmitSinkMore.
Variable dirname : jsstring -> jsstring.

(** [fs.writeFileSync] throws and changes nothing, or replaces what is
    at the path, which is not a directory, by the file. *)
Lemma writeFileSync_cases (p c : jsstring) (d : Disk) :
  (exists e, writeFileSync dirname p c d = (Throw e, d))
  \/ (nodes d !! p <> Some Dir /\ nodes d !! dirname p = Some Dir
      /\ writeFileSync dirname p c d
         = (Ret tt, {| nodes := <[p := File (utf8Encode c)]> (nodes d);
                       written := written d ++ [(p, c)] |})).
Proof.
  unfold writeFileSync.
  destruct (nodes d !! p) as [[b|]|] eqn:Hp;
    destruct (nodes d !! dirname p) as [[bd|]|] eqn:Hdir;
    try (left; by eexists); right; by repeat split.
Qed.

(** The outcomes of [writeFileIfChanged]: [mkdir] throws and nothing is
    made; or a later call throws and the disk is as [ensureDir] left it;
    or the text is found in place; or it is written. *)
Lemma writeFileIfChanged_cases (p c : jsstring) (d : Disk) :
  let d' := ensured dirname (dirname p) d in
  (ensurable dirname d (dirname p) = false
   /\ writeFileIfChanged dirname p c d = (Throw ENOTDIR, d))
  \/ (exists e, writeFileIfChanged dirname p c d = (Throw e, d'))
  \/ (holdsText d' p c /\ writeFileIfChanged dirname p c d = (Ret tt, d'))
  \/ (~ holdsText d' p c /\ nodes d' !! p <> Some Dir /\ nodes d' !! dirname p = Some Dir
      /\ writeFileIfChanged dirname p c d
         = (Ret tt, {| nodes := <[p := File (utf8Encode c)]> (nodes d');
                       written := written d' ++ [(p, c)] |})).
Proof.
  intros d'. rewrite writeFileIfChanged_unfold. fold d'.
  destruct (ensurable dirname d (dirname p)); [right|by left].
  destruct (nodes d' !! p) as [[b|]|] eqn:Hp.
  - destruct (decide (utf8Decode b = c)) as [Hb|Hb].
    + right. left. split; [by exists b|done].
    + destruct (writeFileSync_cases p c d') as [(e & He)|(Hnd & Hdir & Hw)].
      * left. by exists e.
      * right. right. split; [|done]. intros (b' & Hb' & Hc). congruence.
  - left. by exists EISDIR.
  - destruct (writeFileSync_cases p c d') as [(e & He)|(Hnd & Hdir & Hw)].
    + left. by exists e.
    + right. right. split; [|done]. intros (b' & Hb' & Hc). congruence.
Qed.

(** With no file above the path the way of [mkdir] is clear. *)
Lemma noFileAbove_wayClear (d : Disk) (chain : list jsstring) :
  Forall (fun q => nodes d !! q = None \/ nodes d !! q = Some Dir) chain ->
  wayClear d chain = true.
Proof.
  induction 1 as [|q above [Hq|Hq] _ IH]; [done|..]; cbn [wayClear]; by rewrite Hq.
Qed.

Lemma noFileAbove_ensurable (d : Disk) (p : jsstring) :
  noFileAbove dirname d p ->
  ensurable dirname d (dirname p) = true
  /\ nodes (ensured dirname (dirname p) d) !! dirname p = Some Dir.
Proof.
  intros Hway. unfold ensurable. rewrite ensured_lookup.
  pose proof (noFileAbove_wayClear _ _ Hway) as Hclear.
  unfold noFileAbove, lineage in Hway. apply Forall_cons in Hway as [Hdir _].
  destruct Hdir as [Hdir|Hdir]; rewrite Hdir; [|done].
  split; [done|].
  unfold lineage. cbn [missingAlong]. rewrite Hdir.
  rewrite decide_True; [done|]. apply elem_of_cons. by left.
Qed.

(** With a file as the nearest path that is there, the way is not
    clear. *)
Lemma wayClear_file (d : Disk) (missing above : list jsstring) (f : jsstring) (b : list N) :
  Forall (fun q => nodes d !! q = None) missing ->
  nodes d !! f = Some (File b) ->
  wayClear d (missing ++ f :: above) = false.
Proof.
  intros Hmissing Hf. induction Hmissing as [|q missing Hq _ IH]; cbn [app wayClear].
  - by rewrite Hf.
  - by rewrite Hq.
Qed.

(** What [ensureDir] adds is a directory. *)
Lemma ensured_new (dir q : jsstring) (d : Disk) :
  nodes d !! q = None ->
  nodes (ensured dirname dir d) !! q = None
  \/ nodes (ensured dirname dir d) !! q = Some Dir.
Proof. intros Hq. rewrite ensured_lookup, Hq. destruct (decide _); [by right|by left]. Qed.

End EmitSinkMore.

Lemma existsSync_run (p : jsstring) (d : Disk) :
  existsSync p d = (Ret (bool_decide (is_Some (nodes d !! p))), d).
Proof. reflexivity. Qed.

(** ** Well formed strings *)

Lemma isSpace_bmp (c : N) :
  isSpace c = true ->
  isHighSurrogate c = false /\ isLowSurrogate c = false /\ (c <? 65536) = true.
Proof.
  unfold isSpace, isWhiteSpace, isLineTerminator, isHighSurrogate, isLowSurrogate.
  rewrite !orb_true_iff, !andb_true_iff, !N.eqb_eq, !N.leb_le.
  rewrite !andb_false_iff, !N.leb_gt, N.ltb_lt. lia.
Qed.

Lemma wellFormed_cons (c : N) (r : jsstring) :
  isHighSurrogate c = false -> isLowSurrogate c = false -> (c <? 65536) = true ->
  wellFormed (c :: r) = wellFormed r.
Proof. intros Hh Hl Hb. cbn [wellFormed]. by rewrite Hh, Hl, Hb. Qed.

Lemma wellFormed_space (c : N) (r : jsstring) :
  isSpace c = true -> wellFormed (c :: r) = wellFormed r.
Proof. intros Hc. apply isSpace_bmp in Hc as (? & ? & ?). by apply wellFormed_cons. Qed.

Lemma wellFormed_blank (ws : jsstring) : blank ws -> wellFormed ws = true.
Proof. induction 1 as [|c ws Hc _ IH]; [done|]. by rewrite wellFormed_space. Qed.

Lemma wellFormed_blank_prefix (ws b : jsstring) :
  blank ws -> wellFormed (ws ++ b) = wellFormed b.
Proof.
  induction 1 as [|c ws Hc _ IH]; [done|]. cbn [app]. by rewrite wellFormed_space.
Qed.

(** A string is read unit by unit, or pair by pair. *)
Lemma wellFormed_steps (n : nat) (P : jsstring -> Prop) :
  P [] ->
  (forall c r, isHighSurrogate c = false -> wellFormed (c :: r) = true ->
     wellFormed r = true -> P r -> P (c :: r)) ->
  (forall h l r, isHighSurrogate h = true -> isLowSurrogate l = true ->
     wellFormed r = true -> P r -> P (h :: l :: r)) ->
  forall s, (length s <= n)%nat -> wellFormed s = true -> P s.
Proof.
  intros Hnil Hone Htwo. induction n as [|n IH]; intros s Hlen Hs.
  - destruct s; [done|]. cbn in Hlen. lia.
  - destruct s as [|c r]; [done|]. cbn [length] in Hlen.
    pose proof Hs as Hs'. cbn [wellFormed] in Hs.
    destruct (isHighSurrogate c) eqn:Hh.
    + destruct r as [|l r]; [done|]. apply andb_true_iff in Hs as [Hl Hr].
      apply Htwo; [done..|]. apply IH; [cbn [length] in Hlen; lia|done].
    + apply andb_true_iff in Hs as [_ Hr]. apply Hone; [done..|].
      apply IH; [lia|done].
Qed.

Lemma wellFormed_app (a b : jsstring) :
  wellFormed a = true -> wellFormed b = true -> wellFormed (a ++ b) = true.
Proof.
  intros Ha Hb. revert Ha.
  apply (wellFormed_steps (length a) (fun a => wellFormed (a ++ b) = true)); [done| | |lia].
  - intros c r Hh Hc _ IH. cbn [app wellFormed] in *. rewrite Hh in *.
    apply andb_true_iff in Hc as [-> _]. done.
  - intros h l r Hh Hl _ IH. cbn [app wellFormed]. by rewrite Hh, Hl.
Qed.

(** A well formed string splits at a unit that is no surrogate. *)
Lemma wellFormed_split (n : nat) (c : N) (b : jsstring) :
  isHighSurrogate c = false -> isLowSurrogate c = false ->
  forall a, (length a <= n)%nat -> wellFormed (a ++ c :: b) = true ->
  wellFormed a = true /\ wellFormed (c :: b) = true.
Proof.
  intros Hh Hl. induction n as [|n IH]; intros a Hlen Hs.
  - destruct a; [done|]. cbn in Hlen. lia.
  - destruct a as [|x a]; [done|]. cbn [length] in Hlen. cbn [app wellFormed] in *.
    destruct (isHighSurrogate x) eqn:Hx.
    + destruct a as [|y a]; cbn [app] in *.
      * rewrite Hl in Hs. done.
      * apply andb_true_iff in Hs as [Hy Hs]. rewrite Hy.
        apply IH in Hs; [done|]. cbn [length] in Hlen. lia.
    + apply andb_true_iff in Hs as [-> Hs]. apply IH in Hs; [done|lia].
Qed.

Lemma wellFormed_blank_suffix (a ws : jsstring) :
  blank ws -> wellFormed (a ++ ws) = true -> wellFormed a = true.
Proof.
  intros Hws Hs. destruct Hws as [|c ws Hc _]; [by rewrite app_nil_r in Hs|].
  apply isSpace_bmp in Hc as (Hh & Hl & _).
  by apply (wellFormed_split (length a) c ws Hh Hl a) in Hs as [? _].
Qed.

(** Taking a run of white space out of a well formed string leaves a well
    formed string. *)
Lemma wellFormed_cut (pre ws post : jsstring) :
  blank ws -> wellFormed (pre ++ ws ++ post) = true -> wellFormed (pre ++ post) = true.
Proof.
  intros Hws Hs. destruct Hws as [|c ws Hc Hws]; [done|].
  pose proof (isSpace_bmp c Hc) as (Hh & Hl & _). cbn [app] in Hs.
  apply (wellFormed_split (length pre) c (ws ++ post) Hh Hl pre) in Hs as [Hpre Hpost]; [|done].
  apply wellFormed_app; [done|].
  by rewrite wellFormed_space, wellFormed_blank_prefix in Hpost.
Qed.

Lemma wellFormed_dropWhile (s : jsstring) :
  wellFormed s = true -> wellFormed (dropWhile isSpace s) = true.
Proof.
  induction s as [|c r IH]; [done|]. intros Hs. cbn [dropWhile].
  destruct (isSpace c) eqn:Hc; [|done]. apply IH. by rewrite wellFormed_space in Hs.
Qed.

Lemma wellFormed_trimEnd (s : jsstring) :
  wellFormed s = true -> wellFormed (trimEnd s) = true.
Proof.
  intros Hs. destruct (trimEnd_spec s) as (ws & Heq & Hws).
  rewrite Heq in Hs. by apply wellFormed_blank_suffix in Hs.
Qed.

Lemma wellFormed_trim (s : jsstring) : wellFormed s = true -> wellFormed (trim s) = true.
Proof. intros Hs. by apply wellFormed_trimEnd, wellFormed_dropWhile. Qed.

(** The strip of [src/index.ts] takes out one run of white space, or
    nothing. *)
Lemma replaceSpacesEol_cut (s : jsstring) :
  exists pre ws post, s = pre ++ ws ++ post /\ blank ws /\ replaceSpacesEol s = pre ++ post.
Proof.
  induction s as [|c r IH].
  - exists [], [], []. split; [done|]. split; [constructor|done].
  - cbn [replaceSpacesEol]. destruct (matchSpacesEol (c :: r)) as [j|] eqn:Hm.
    + destruct (matchSpacesEol_Some _ _ Hm) as (i & x & _ & _ & Hall & _).
      exists [], (take j (c :: r)), (drop j (c :: r)).
      split; [by rewrite app_nil_l, take_drop|]. by split.
    + destruct IH as (pre & ws & post & -> & Hws & ->).
      exists (c :: pre), ws, post. by repeat split.
Qed.

Lemma wellFormed_replaceSpacesEol (s : jsstring) :
  wellFormed s = true -> wellFormed (replaceSpacesEol s) = true.
Proof.
  intros Hs. destruct (replaceSpacesEol_cut s) as (pre & ws & post & Heq & Hws & ->).
  rewrite Heq in Hs. by apply (wellFormed_cut pre ws post).
Qed.

Lemma blank_replicate_nl (k : nat) : blank (replicate k 10).
Proof. induction k as [|k IH]; [constructor|]. by constructor. Qed.

Lemma wellFormed_replaceNewlinesEnd (s : jsstring) :
  wellFormed s = true -> wellFormed (replaceNewlinesEnd s) = true.
Proof.
  intros Hs. destruct (trailing_newlines_decompose s) as (body & k & -> & Hl).
  rewrite replaceNewlinesEnd_spec by done.
  apply wellFormed_blank_suffix in Hs; [|apply blank_replicate_nl].
  apply wellFormed_app; [done|]. apply wellFormed_blank, blank_replicate_nl.
Qed.

Lemma wellFormed_join (ls : list jsstring) :
  Forall (fun l => wellFormed l = true) ls -> wellFormed (join nl ls) = true.
Proof.
  induction 1 as [|l ls Hl Hall IH]; [done|]. destruct ls as [|l' ls]; [done|].
  rewrite join_cons_cons. apply wellFormed_app; [done|]. by apply wellFormed_app.
Qed.

Lemma wellFormed_resolveUa (p : RobotsPolicy) :
  wellFormed (default star (userAgent p)) = true -> wellFormed (resolveUa p) = true.
Proof.
  intros Hp. unfold resolveUa. destruct (truthy _); [by apply wellFormed_trim|done].
Qed.

Lemma wellFormed_blockLines (p : RobotsPolicy) :
  wellFormedPolicy p = true -> Forall (fun l => wellFormed l = true) (blockLines p).
Proof.
  intros Hp. apply andb_true_iff in Hp as [Hp Ha]. apply andb_true_iff in Hp as [Hu Hd].
  rewrite blockLines_eq. constructor.
  - apply wellFormed_app; [done|]. by apply wellFormed_resolveUa.
  - apply Forall_app. split; apply Forall_fmap.
    + eapply Forall_impl; [by apply forallb_uniq|]. intros d Hx. by apply wellFormed_app.
    + eapply Forall_impl; [by apply forallb_uniq|]. intros d Hx. by apply wellFormed_app.
Qed.

Lemma wellFormed_blocks (ps : list RobotsPolicy) :
  forallb wellFormedPolicy ps = true -> wellFormed (join nl (map block ps)) = true.
Proof.
  rewrite forallb_forall. intros Hps. rewrite blocks_lines.
  apply wellFormed_join, Forall_concat, Forall_forall.
  intros ls Hls. apply list_elem_of_fmap in Hls as (p & -> & Hp).
  by apply wellFormed_blockLines, Hps, list_elem_of_In.
Qed.

Lemma wellFormed_heads (ps : list RobotsPolicy) :
  forallb wellFormedPolicy ps = true ->
  wellFormed (Index.serializePolicies ps) = true
  /\ wellFormed (GenerateRobots.serializePolicies ps) = true.
Proof.
  intros Hps. apply wellFormed_blocks in Hps. split.
  - apply wellFormed_app; [|done]. by apply wellFormed_replaceSpacesEol.
  - apply wellFormed_app; [|done]. by apply wellFormed_trimEnd.
Qed.

Lemma wellFormed_smBlock (sm : option (list jsstring)) :
  forallb wellFormed (default [] sm) = true -> wellFormed (smBlock sm) = true.
Proof.
  destruct sm as [[|u us]|]; [done| |done]. cbn [default]. intros Hsm.
  cbn [smBlock]. apply wellFormed_app; [|done]. apply wellFormed_join, Forall_fmap.
  rewrite forallb_forall in Hsm. apply Forall_forall. intros x Hx.
  apply wellFormed_app; [done|]. by apply Hsm, list_elem_of_In.
Qed.

Lemma wellFormed_footerBlock (foot : option jsstring) :
  wellFormed (default [] foot) = true -> wellFormed (footerBlock foot) = true.
Proof.
  destruct foot as [f|]; [|done]. cbn [default]. intros Hf. unfold footerBlock.
  destruct (truthy f); [|done]. apply wellFormed_app; [done|].
  apply wellFormed_app; [done|]. apply wellFormed_app; [|done]. by apply wellFormed_trim.
Qed.

Lemma wellFormed_assemble (head : jsstring) (sm : option (list jsstring))
    (foot : option jsstring) :
  wellFormed head = true ->
  forallb wellFormed (default [] sm) = true ->
  wellFormed (default [] foot) = true ->
  wellFormed (assemble head (smBlock sm) (footerBlock foot)) = true.
Proof.
  intros Hh Hsm Hf. apply wellFormed_replaceNewlinesEnd.
  apply wellFormed_app; [done|]. apply wellFormed_app; [|by apply wellFormed_footerBlock].
  destruct (truthy (smBlock sm)); [|done]. apply wellFormed_app; [done|].
  by apply wellFormed_smBlock.
Qed.

(** ** Options without functions *)

Section StaticRuns.
Context {W Exn : Type}.
Implicit Types (ctx : Ctx) (opts : RobotsOptions W Exn) (env : Env W).

Lemma static_run ser ctx opts env :
  staticOptions opts = true ->
  buildContentWith ser ctx opts env
  = (Ret (assemble (ser (staticPolicies opts)) (smBlock (staticSitemaps opts))
            (footerBlock (staticFoot opts))), env).
Proof.
  unfold staticOptions, buildContentWith, resolvePolicies, resolveSitemaps, resolveFoot,
    staticPolicies, staticSitemaps, staticFoot, bind, ret.
  destruct (policyBuilder opts) as [b|]; [done|].
  destruct (sitemaps opts) as [[l|f]|]; try done;
    destruct (footerComment opts) as [[t|g]|]; try done;
    by destruct (explicitPolicies opts).
Qed.

Lemma static_wellFormed opts :
  wellFormedOptions opts = true ->
  forallb wellFormedPolicy (staticPolicies opts) = true
  /\ forallb wellFormed (default [] (staticSitemaps opts)) = true
  /\ wellFormed (default [] (staticFoot opts)) = true.
Proof.
  unfold wellFormedOptions, staticPolicies, staticSitemaps, staticFoot, explicitPolicies.
  intros H. apply andb_true_iff in H as [H Hf]. apply andb_true_iff in H as [Hp Hs].
  split; [|split].
  - by destruct (policies opts) as [[|p ps]|].
  - by destruct (sitemaps opts) as [[l|f]|].
  - by destruct (footerComment opts) as [[t|g]|].
Qed.

End StaticRuns.

(** ** The hooks of [src/index.ts] *)

Section IndexHooks.
Context {W Exn : Type}.
Variable dirname : jsstring -> jsstring.
Implicit Types (options : RobotsOptions (W * Disk) Exn) (v : IndexPlugin.Vars)
  (env : Env (W * Disk)).

Lemma onDisk_Ret {A} (m : M Disk FsError A) env (a : A) (d1 : Disk) :
  m (world env).2 = (Ret a, d1) ->
  onDisk (Exn:=Exn) m env = (Ret a, {| world := ((world env).1, d1); calls := calls env |}).
Proof. intros Hm. unfold onDisk. by rewrite Hm. Qed.

Lemma onDisk_Ret_inv {A} (m : M Disk FsError A) env (a : A) env1 :
  onDisk (Exn:=Exn) m env = (Ret a, env1) ->
  m (world env).2 = (Ret a, (world env1).2)
  /\ env1 = {| world := ((world env).1, (world env1).2); calls := calls env |}.
Proof.
  unfold onDisk. destruct (m (world env).2) as [[b|x] d1]; [|done].
  by intros [= <- <-].
Qed.

Lemma buildStart_static options v env :
  staticOptions options = true ->
  IndexPlugin.buildStart dirname options v env
  = onDisk (writeFileIfChanged dirname (IndexPlugin.outPath v) (staticText options)) env.
Proof.
  intros Hs. unfold IndexPlugin.buildStart, bind, userCode, Index.buildContent.
  by rewrite static_run.
Qed.

Lemma handler_static options serverMode v env :
  staticOptions options = true ->
  IndexPlugin.handler options serverMode v env
  = (Ret (respond (noStoreOf options) (staticText options)), env).
Proof.
  intros Hs. unfold IndexPlugin.handler, bind, Index.buildContent.
  by rewrite static_run.
Qed.

Lemma staticText_wellFormed options :
  wellFormedOptions options = true -> wellFormed (staticText options) = true.
Proof.
  intros Hwf. destruct (static_wellFormed options Hwf) as (Hp & Hs & Hf).
  apply wellFormed_assemble; [|done..]. by apply wellFormed_heads.
Qed.


Lemma handler_calls options serverMode v env :
  calls (IndexPlugin.handler options serverMode v env).2
  = calls (Index.buildContent
             {| mode := serverMode; command := Serve; root := IndexPlugin.rootVar v |}
             options env).2.
Proof.
  unfold IndexPlugin.handler, bind.
  by destruct (Index.buildContent _ options env) as [[content|e] env1].
Qed.

End IndexHooks.

(** With no file above the path, and neither a directory at the path nor
    the path on the lineage of its parent, the call returns: it finds the
    text in place, or it writes it. *)
Lemma writeFileIfChanged_returns (dirname : jsstring -> jsstring) (p c : jsstring) (d : Disk) :
  noFileAbove dirname d p ->
  nodes d !! p <> Some Dir ->
  p ∉ lineage dirname (dirname p) ->
  nodes (ensured dirname (dirname p) d) !! dirname p = Some Dir
  /\ ((holdsText d p c
       /\ writeFileIfChanged dirname p c d = (Ret tt, ensured dirname (dirname p) d))
      \/ (~ holdsText d p c
          /\ writeFileIfChanged dirname p c d
             = (Ret tt, {| nodes := <[p := File (utf8Encode c)]>
                                      (nodes (ensured dirname (dirname p) d));
                           written := written d ++ [(p, c)] |}))).
Proof.
  intros Hway Htarget Hoff.
  set (d' := ensured dirname (dirname p) d).
  destruct (noFileAbove_ensurable dirname d p Hway) as [Hens Hdir]. fold d' in Hdir.
  assert (Hp : nodes d' !! p = nodes d !! p) by (by apply ensured_other).
  assert (Hholds : holdsText d' p c <-> holdsText d p c) by apply holdsText_ensured.
  split; [done|].
  destruct (writeFileIfChanged_cases dirname p c d)
    as [[Hno _]|[(e & He)|[(Hh & Hrun)|(Hh & _ & _ & Hrun)]]];
    [congruence|fold d' in He|fold d' in Hh, Hrun..].
  - exfalso. rewrite writeFileIfChanged_unfold, Hens in He. fold d' in He.
    rewrite Hp in He. unfold writeFileSync in He. rewrite Hp, Hdir in He.
    destruct (nodes d !! p) as [[b|]|]; [|done|done].
    by destruct (decide (utf8Decode b = c)).
  - left. split; [by apply Hholds|done].
  - right. split; [by rewrite <- Hholds|]. by rewrite Hrun.
Qed.

(** Reading a file gives the text it holds. *)
Lemma readFileSync_holdsText (p c : jsstring) (d : Disk) :
  holdsText d p c -> readFileSync p d = (Ret c, d).
Proof. intros (b & Hb & Hc). unfold readFileSync. by rewrite Hb, Hc. Qed.

(** ** The route of [vite/plugins/generate-robots.ts] *)

Lemma span_replicate_slash (k : nat) : span isSlash (replicate k 47) = k.
Proof. induction k as [|k IH]; simpl; [done|]. by rewrite IH. Qed.

Lemma matchSlashesEnd_false_body (l t : jsstring) :
  l <> [] -> last l <> Some 47 -> matchSlashesEnd (l ++ t) = false.
Proof.
  intros Hne Hl. unfold matchSlashesEnd.
  destruct (span isSlash (l ++ t) =? length (l ++ t))%nat eqn:He; [|by rewrite andb_false_r].
  apply Nat.eqb_eq, span_length_Forall, Forall_app in He as [He _].
  destruct (last l) as [c|] eqn:Hc.
  - rewrite Forall_forall in He. specialize (He c (last_Some_elem_of _ _ Hc)).
    apply N.eqb_eq in He. congruence.
  - by apply last_None in Hc.
Qed.

(** The replacement leaves the text in front of the final run of slashes
    alone and puts one slash for the run. *)
Lemma replaceSlashesEnd_spec (body : jsstring) (k : nat) :
  last body <> Some 47 ->
  replaceSlashesEnd (body ++ replicate k 47) = body ++ replicate (Nat.min k 1) 47.
Proof.
  induction body as [|c b IH]; intros Hl.
  - cbn [app]. destruct k as [|k]; [reflexivity|]. rewrite Nat.min_r by lia.
    cbn [replicate replaceSlashesEnd]. unfold matchSlashesEnd.
    cbn [span isSlash N.eqb Pos.eqb length].
    rewrite span_replicate_slash, length_replicate, Nat.eqb_refl. reflexivity.
  - cbn [app replaceSlashesEnd].
    change (c :: b ++ replicate k 47) with ((c :: b) ++ replicate k 47).
    rewrite matchSlashesEnd_false_body by done.
    f_equal. apply IH. by eapply last_cons_ne.
Qed.

Lemma trailing_slashes_decompose (s : jsstring) :
  exists body k, s = body ++ replicate k 47 /\ last body <> Some 47.
Proof.
  induction s as [|c s IH] using rev_ind.
  - by exists [], O.
  - destruct (decide (c = 47)) as [->|Hc].
    + destruct IH as (body & k & -> & Hl). exists body, (S k).
      by rewrite replicate_S_end, app_assoc.
    + exists (s ++ [c]), O. rewrite app_nil_r, last_snoc. split; congruence.
Qed.

Lemma replaceSlashesEnd_idemp (s : jsstring) :
  replaceSlashesEnd (replaceSlashesEnd s) = replaceSlashesEnd s.
Proof.
  destruct (trailing_slashes_decompose s) as (body & k & -> & Hl).
  rewrite replaceSlashesEnd_spec by done. rewrite replaceSlashesEnd_spec by done.
  do 2 f_equal. lia.
Qed.

Lemma replaceSlashesEnd_no_double (s : jsstring) :
  ~ (lit "//") `suffix_of` replaceSlashesEnd s.
Proof.
  destruct (trailing_slashes_decompose s) as (body & k & -> & Hl).
  rewrite replaceSlashesEnd_spec by done. intros [pre Heq].
  change (lit "//") with ([47] ++ [47]) in Heq. rewrite app_assoc in Heq.
  destruct k as [|k].
  - cbn [Nat.min replicate] in Heq. rewrite app_nil_r in Heq. subst body.
    apply Hl. by rewrite last_snoc.
  - rewrite Nat.min_r in Heq by lia. cbn [replicate] in Heq.
    apply app_inj_tail in Heq as [-> _]. apply Hl. by rewrite last_snoc.
Qed.

(** ** What the strip of [src/index.ts] removes *)

Lemma backtrackSpaces_complete (j k : nat) (s : jsstring) :
  (1 <= k <= j)%nat -> eolMultiline (skipn k s) = true -> backtrackSpaces j s <> None.
Proof.
  induction j as [|j IH]; [lia|]. intros Hk He. cbn [backtrackSpaces].
  destruct (eolMultiline (skipn (S j) s)) eqn:Hj; [done|].
  apply IH; [|done]. destruct (decide (k = S j)) as [->|]; [congruence|lia].
Qed.

Lemma span_ge_blank (ws post : jsstring) :
  blank ws -> (length ws <= span isSpace (ws ++ post))%nat.
Proof.
  induction 1 as [|c ws Hc _ IH]; cbn [app span length]; [lia|]. rewrite Hc. lia.
Qed.

(** A run of white space in front of a line end is a match. *)
Lemma matchSpacesEol_run (ws post : jsstring) :
  ws <> [] -> blank ws -> eolMultiline post = true -> matchSpacesEol (ws ++ post) <> None.
Proof.
  intros Hne Hws Hp. unfold matchSpacesEol.
  apply (backtrackSpaces_complete _ (length ws)).
  - split; [|by apply span_ge_blank]. destruct ws; [done|]. cbn [length]. lia.
  - change skipn with (@drop N). by rewrite drop_app_length.
Qed.

(** The strip takes out the leftmost run of white space that stands in
    front of a line end, if there is one. *)
Lemma replaceSpacesEol_leftmost (s : jsstring) :
  exists pre ws post,
    s = pre ++ ws ++ post /\ blank ws /\ eolMultiline post = true
    /\ (ws = [] -> post = []) /\ spaceBeforeEol pre = false
    /\ replaceSpacesEol s = pre ++ post.
Proof.
  induction s as [|c r IH].
  - exists [], [], []. by repeat split; try constructor.
  - cbn [replaceSpacesEol]. destruct (matchSpacesEol (c :: r)) as [j|] eqn:Hm.
    + destruct (matchSpacesEol_Some _ _ Hm) as (i & x & -> & _ & Hall & He).
      exists [], (take (S i) (c :: r)), (drop (S i) (c :: r)).
      split; [by rewrite app_nil_l, take_drop|]. by repeat split.
    + destruct IH as (pre & ws & post & -> & Hws & Hp & Hnil & Hpre & ->).
      exists (c :: pre), ws, post. repeat split; try done.
      cbn [spaceBeforeEol]. rewrite Hpre, orb_false_r.
      destruct (isSpace c) eqn:Hc; [|done]. cbn [andb].
      destruct (eolMultiline pre) eqn:He; [|done]. exfalso.
      destruct pre as [|d pre].
      * revert Hm. apply (matchSpacesEol_run (c :: ws) post); [done| |done].
        by constructor.
      * revert Hm. by apply (matchSpacesEol_run [c] ((d :: pre) ++ ws ++ post)); [|repeat constructor|].
Qed.

(** A text with white space in front of a line end gets shorter. *)
Lemma replaceSpacesEol_shorter (s : jsstring) :
  spaceBeforeEol s = true -> (length (replaceSpacesEol s) < length s)%nat.
Proof.
  induction s as [|c r IH]; [done|]. intros Hs. cbn [replaceSpacesEol].
  destruct (matchSpacesEol (c :: r)) as [j|] eqn:Hm.
  - pose proof (backtrackSpaces_bounds _ _ _ Hm) as Hj.
    pose proof (span_le_length isSpace (c :: r)) as Hl.
    rewrite length_drop. lia.
  - cbn [spaceBeforeEol] in Hs. apply orb_true_iff in Hs as [Hs|Hs].
    + apply andb_true_iff in Hs as [Hc Hr].
      destruct (matchSpacesEol_run [c] r); try done. by repeat constructor.
    + cbn [length]. apply IH in Hs. lia.
Qed.

(** ** The lines of the head of tidy policies *)

Lemma tidyPath_newlineFree (l : jsstring) : tidyPath l = true -> newlineFree l.
Proof.
  intros Hl. apply andb_true_iff in Hl as [_ Hn]. by apply noLineTerminator_newlineFree.
Qed.

(** The head of tidy policies, split at the newlines, is the lines of the
    blocks, in order, and the empty string behind the final newline. *)
Lemma head_lines_tidy (ps : list RobotsPolicy) :
  forallb tidyPolicy ps = true -> ps <> [] ->
  textLines (Index.serializePolicies ps) = concat (map blockLines ps) ++ [[]].
Proof.
  intros Htidy Hne. destruct (tidy_heads ps Htidy) as [-> _].
  rewrite textLines_app_nl. f_equal. apply textLines_join.
  - destruct ps as [|p ps]; [done|]. cbn [map concat].
    pose proof (blockLines_ne_nil p). by destruct (blockLines p).
  - eapply Forall_impl; [by apply allLines_tidy|]. apply tidyPath_newlineFree.
Qed.

(** The sitemap sequence of the specification is the one that
    [buildContent] resolves. *)
Lemma sitemapsGiven_run {W Exn} (ctx : Ctx) (opts : RobotsOptions W Exn)
    (e1 e2 : Env W) (urls : option (list jsstring)) :
  sitemapsGiven ctx opts e1 urls e2 -> resolveSitemaps ctx opts e1 = (Ret urls, e2).
Proof.
  unfold sitemapsGiven, resolveSitemaps. destruct (sitemaps opts) as [[l|f]|].
  - by intros [-> ->].
  - intros [Hf Hc]. unfold invoke. rewrite Hf. destruct e2 as [w2 c2].
    cbn [world calls] in *. by rewrite Hc.
  - by intros [-> ->].
Qed.

(** * The claims of the specification *)

(** ** Deduplicated lines (C1) *)

(** C1, as stated, fails: the strip of the head changes a rendered line.
    Two disallow paths that differ in a space at the end only are two
    elements of the set, and in the head of [src/index.ts] both are
    rendered as the line [Disallow: /a], which occurs twice, while the
    line of the first path with its space does not occur. With the paths
    in the other order the same happens in
    [vite/plugins/generate-robots.ts]. *)
Lemma C1_counterexample :
  lit "/a " <> lit "/a"
  /\ uniq (disallow spacedPathsPolicy) = [lit "/a "; lit "/a"]
  /\ Index.serializePolicies [spacedPathsPolicy]
     = lit "User-agent: *" ++ nl ++ lit "Disallow: /a" ++ nl ++ lit "Disallow: /a" ++ nl
  /\ occurrences (lit "Disallow: /a")
       (textLines (Index.serializePolicies [spacedPathsPolicy])) = 2%nat
  /\ occurrences (lit "Disallow: /a ")
       (textLines (Index.serializePolicies [spacedPathsPolicy])) = 0%nat
  /\ GenerateRobots.serializePolicies
       [{| userAgent := None; allow := None; disallow := Some [lit "/a"; lit "/a "] |}]
     = lit "User-agent: *" ++ nl ++ lit "Disallow: /a" ++ nl ++ lit "Disallow: /a" ++ nl.
Proof. repeat split; try (vm_compute; reflexivity). discriminate. Qed.

(** C1, amended. For policies whose user agents are on one line and whose
    paths are tidy (not empty, on one line, no white space at the end),
    the head is, line by line, the blocks of the policies in order, and
    the block of each policy is its [User-agent] line, one [Disallow: d]
    line for each distinct disallow path and one [Allow: a] line for each
    distinct allow path: each path of the input has exactly one line
    whatever its number of copies, a path that is not in the input has
    none, and the lines follow the order of first appearance in the
    input. Both copies of the plugin give this head. For the disallow
    paths [/a], [/a], [/b] of [Googlebot] the head has the line
    [Disallow: /a] once, then the line [Disallow: /b] once. *)
Theorem C1_block_lines_deduplicated (before after : list RobotsPolicy) (p : RobotsPolicy)
    (Htidy : forallb tidyPolicy (before ++ p :: after) = true) :
  let dis := default [] (disallow p) in
  let al := default [] (allow p) in
  let ds := firstOccurrences dis in
  let als := firstOccurrences al in
  let rendered :=
    (lit "User-agent: " ++ resolveUa p)
      :: map (fun d => lit "Disallow: " ++ d) ds
      ++ map (fun a => lit "Allow: " ++ a) als in
  textLines (Index.serializePolicies (before ++ p :: after))
  = concat (map blockLines before) ++ rendered ++ concat (map blockLines after) ++ [[]]
  /\ GenerateRobots.serializePolicies (before ++ p :: after)
     = Index.serializePolicies (before ++ p :: after)
  /\ uniq (disallow p) = ds /\ uniq (allow p) = als
  /\ NoDup ds /\ NoDup als
  /\ (forall d, d ∈ ds <-> d ∈ dis) /\ (forall a, a ∈ als <-> a ∈ al)
  /\ StronglySorted (appearsBefore dis) ds
  /\ StronglySorted (appearsBefore al) als
  /\ (forall d, occurrences (lit "Disallow: " ++ d) rendered
                = if decide (d ∈ dis) then 1%nat else 0%nat)
  /\ (forall a, occurrences (lit "Allow: " ++ a) rendered
                = if decide (a ∈ al) then 1%nat else 0%nat)
  /\ textLines (Index.serializePolicies [googlebot])
     = [lit "User-agent: Googlebot"; lit "Disallow: /a"; lit "Disallow: /b"; []].
Proof.
  intros dis al ds als rendered.
  assert (Hblock : blockLines p = rendered).
  { rewrite blockLines_eq. unfold rendered, ds, als, dis, al.
    by rewrite <- !uniq_firstOccurrences. }
  split; [|split].
  - rewrite head_lines_tidy by (done || by destruct before).
    rewrite map_app, concat_app. cbn [map concat]. rewrite Hblock.
    by rewrite <- !app_assoc.
  - by apply tidy_heads.
  - split; [apply uniq_firstOccurrences|]. split; [apply uniq_firstOccurrences|].
    split; [apply NoDup_firstOccurrences|]. split; [apply NoDup_firstOccurrences|].
    split; [intros d; apply elem_of_firstOccurrences|].
    split; [intros a; apply elem_of_firstOccurrences|].
    split; [apply firstOccurrences_sorted|]. split; [apply firstOccurrences_sorted|].
    split; [|split; [|reflexivity]].
    + intros d. unfold rendered. rewrite occurrences_cons_ne by done.
      rewrite occurrences_app.
      rewrite (occurrences_other (fun a => lit "Allow: " ++ a)) by done.
      rewrite (occurrences_NoDup_map (fun d => lit "Disallow: " ++ d))
        by (apply prefix_inj || apply NoDup_firstOccurrences).
      rewrite Nat.add_0_r. apply decide_ext, elem_of_firstOccurrences.
    + intros a. unfold rendered. rewrite occurrences_cons_ne by done.
      rewrite occurrences_app.
      rewrite (occurrences_other (fun d => lit "Disallow: " ++ d)) by done.
      rewrite (occurrences_NoDup_map (fun a => lit "Allow: " ++ a))
        by (apply prefix_inj || apply NoDup_firstOccurrences).
      apply decide_ext, elem_of_firstOccurrences.
Qed.

(** The head of two policies, the first with a path given twice. *)
Lemma C1_witness :
  textLines (Index.serializePolicies [googlebot; bingbot])
  = [lit "User-agent: Googlebot"; lit "Disallow: /a"; lit "Disallow: /b";
     lit "User-agent: Bingbot"; lit "Allow: /"; []].
Proof.
  exact (proj1 (C1_block_lines_deduplicated [] [bingbot] googlebot eq_refl)).
Defined.

(** ** Precedence of the policy sources (C2) *)

(** C2. Precedence of the policy sources. With a non-empty explicit
    [policies] list, the list is used as it is (it is the resolved policy
    set and the head of the output is its serialization) and the
    [policyBuilder] is never invoked: no invocation is logged during the
    whole run and replacing the builder by any other changes nothing. With
    an absent or empty explicit list and a builder, the builder is invoked
    with the context, once, before anything else, and its result is the
    resolved policy set. *)
Theorem C2_policy_resolution_precedence {W Exn : Type}
    (ctx : Ctx) (opts : RobotsOptions W Exn) (env : Env W) :
  (forall p ps, policies opts = Some (p :: ps) ->
     resolvePolicies ctx opts env = (Ret (p :: ps), env)
     /\ (forall b, Index.buildContent ctx (withPolicyBuilder b opts) env
                   = Index.buildContent ctx opts env)
     /\ (forall r env', Index.buildContent ctx opts env = (r, env') ->
           exists added, calls env' = calls env ++ added /\ noPolicyBuilderCall added)
     /\ (forall text env', Index.buildContent ctx opts env = (Ret text, env') ->
           exists sm foot,
             text = assemble (Index.serializePolicies (p :: ps)) sm foot))
  /\ (forall f, policies opts = None \/ policies opts = Some [] ->
       policyBuilder opts = Some f ->
       resolvePolicies ctx opts env =
         (match (f ctx (world env)).1 with
          | Ret r => Ret (default defaultPolicies r)
          | Throw e => Throw e
          end,
          {| world := (f ctx (world env)).2;
             calls := calls env ++ [PolicyBuilderCall ctx] |})
       /\ (forall r env', Index.buildContent ctx opts env = (r, env') ->
             exists rest, calls env' = calls env ++ PolicyBuilderCall ctx :: rest
                          /\ noPolicyBuilderCall rest)).
Proof.
  split.
  - intros p ps Hp.
    pose proof (resolvePolicies_explicit ctx opts env p ps Hp) as Hres.
    split; [done|]. split; [|split].
    + intros b. unfold Index.buildContent, buildContentWith, resolvePolicies.
      assert (Hb : explicitPolicies (withPolicyBuilder b opts) = Some (p :: ps))
        by (apply explicitPolicies_cons; exact Hp).
      by rewrite Hb, (explicitPolicies_cons _ _ _ Hp).
    + intros r env' Hrun.
      apply buildContentWith_calls in Hrun as (r1 & e1 & rest & H1 & Hc & Hn).
      rewrite Hres in H1. injection H1 as <- <-. by exists rest.
    + intros text env' Hrun.
      apply buildContentWith_Ret in Hrun as (qs & sm & foot & e1 & e2 & H1 & _ & _ & ->).
      rewrite Hres in H1. injection H1 as <- <-. by eexists _, _.
  - intros f Hp Hb. apply explicitPolicies_None in Hp.
    pose proof (resolvePolicies_builder ctx opts env f Hp Hb) as Hres.
    split; [done|]. intros r env' Hrun.
    apply buildContentWith_calls in Hrun as (r1 & e1 & rest & H1 & Hc & Hn).
    rewrite Hres in H1. injection H1 as <- <-.
    exists rest. simpl in Hc. by rewrite Hc, <- app_assoc.
Qed.

(** The two cases of C2 at concrete options: an explicit list next to a
    builder, and an empty explicit list next to a builder. *)
Lemma C2_witness :
  resolvePolicies prodCtx listAndBuilderOptions freshEnv = (Ret [googlebot], freshEnv)
  /\ resolvePolicies prodCtx emptyListAndBuilderOptions freshEnv
     = (Ret [bingbot], {| world := tt; calls := [PolicyBuilderCall prodCtx] |}).
Proof.
  split.
  - exact (proj1 (proj1 (C2_policy_resolution_precedence prodCtx listAndBuilderOptions freshEnv)
                    googlebot [] eq_refl)).
  - exact (proj1 (proj2 (C2_policy_resolution_precedence prodCtx emptyListAndBuilderOptions
                           freshEnv)
                    (constBuilder (Some [bingbot])) (or_intror eq_refl) eq_refl)).
Defined.

(** ** Fallback to the default policy (C3) *)

(** C3, what the code does instead: the result of the [policyBuilder] is
    guarded by [??] only, so an empty list that the builder returns is the
    resolved policy set, and the head of the output is a single newline
    with no rule at all, not the default head. The explicit list, in the
    same expression, is tested for its length: when it is empty and there
    is no builder, or the builder returns a nullish value, the default
    allow-all policy is used. Both copies of the plugin render the empty
    set as a single newline. *)
Theorem C3_empty_builder_result_kept {W Exn : Type}
    (ctx : Ctx) (opts : RobotsOptions W Exn) (env : Env W) :
  (policies opts = None \/ policies opts = Some [] ->
     (policyBuilder opts = None ->
        resolvePolicies ctx opts env = (Ret defaultPolicies, env))
     /\ (forall f w', policyBuilder opts = Some f ->
           f ctx (world env) = (Ret None, w') ->
           resolvePolicies ctx opts env
           = (Ret defaultPolicies,
              {| world := w'; calls := calls env ++ [PolicyBuilderCall ctx] |}))
     /\ (forall f w', policyBuilder opts = Some f ->
           f ctx (world env) = (Ret (Some []), w') ->
           resolvePolicies ctx opts env
           = (Ret [], {| world := w'; calls := calls env ++ [PolicyBuilderCall ctx] |})
           /\ forall out env', Index.buildContent ctx opts env = (Ret out, env') ->
                exists sm foot, out = assemble nl sm foot))
  /\ Index.serializePolicies [] = nl
  /\ GenerateRobots.serializePolicies [] = nl
  /\ Index.serializePolicies defaultPolicies
     = lit "User-agent: *" ++ nl ++ lit "Allow: /" ++ nl
  /\ Index.buildContent prodCtx emptyBuilderOptions freshEnv
     = (Ret nl, {| world := tt; calls := [PolicyBuilderCall prodCtx] |})
  /\ GenerateRobots.buildContent prodCtx emptyBuilderOptions freshEnv
     = (Ret nl, {| world := tt; calls := [PolicyBuilderCall prodCtx] |})
  /\ Index.buildContent prodCtx emptyListOptions freshEnv
     = (Ret (lit "User-agent: *" ++ nl ++ lit "Allow: /" ++ nl), freshEnv).
Proof.
  split; [|repeat split; reflexivity].
  intros Hexplicit. apply explicitPolicies_None in Hexplicit.
  split; [by apply resolvePolicies_default|]. split.
  - intros f w' Hb Hf. rewrite (resolvePolicies_builder _ _ _ f) by done. by rewrite Hf.
  - intros f w' Hb Hf.
    assert (Hres : resolvePolicies ctx opts env
                   = (Ret [], {| world := w';
                                 calls := calls env ++ [PolicyBuilderCall ctx] |})).
    { rewrite (resolvePolicies_builder _ _ _ f) by done. by rewrite Hf. }
    split; [done|]. intros out env' Hrun.
    apply buildContentWith_Ret in Hrun as (ps & sm & foot & e1 & e2 & H1 & _ & _ & ->).
    rewrite Hres in H1. injection H1 as <- <-.
    by exists (smBlock sm), (footerBlock foot).
Qed.

(** ** Separation of the blocks (C4) *)

(** C4, what the code does instead: [lines] drops the empty string that
    was meant to end a block, so the blocks are joined by a single newline.
    For two policies the head has no empty line between the blocks, in
    both copies of the plugin, and for any clean policies the text handed
    to the final strip has exactly the lines of the blocks, none of which
    is empty. *)
Theorem C4_blocks_joined_by_one_newline :
  Index.serializePolicies [googlebot; bingbot]
  = lit "User-agent: Googlebot" ++ nl ++ lit "Disallow: /a" ++ nl
    ++ lit "Disallow: /b" ++ nl ++ lit "User-agent: Bingbot" ++ nl
    ++ lit "Allow: /" ++ nl
  /\ GenerateRobots.serializePolicies [googlebot; bingbot]
     = Index.serializePolicies [googlebot; bingbot]
  /\ (forall p, lines (blockArgs p) = lines (removelast (blockArgs p)))
  /\ (forall p q, join nl (map block [p; q]) = block p ++ nl ++ block q)
  /\ (forall ps, ps <> [] -> Forall cleanPolicy ps ->
        textLines (join nl (map block ps)) = concat (map blockLines ps)
        /\ [] ∉ concat (map blockLines ps)).
Proof.
  split; [reflexivity|]. split; [reflexivity|]. split; [|split; [reflexivity|]].
  - intros p. unfold blockArgs.
    change (Some (uaLine (resolveUa p)) :: ?t) with ([Some (uaLine (resolveUa p))] ++ t).
    rewrite !app_assoc, removelast_last, lines_app. simpl. by rewrite app_nil_r.
  - intros ps Hne Hclean. split.
    + unfold block. rewrite <- (map_map blockLines (join nl)).
      rewrite join_concat.
      * apply textLines_join.
        -- destruct ps as [|p ps]; [done|]. simpl.
           pose proof (blockLines_ne_nil p). by destruct (blockLines p).
        -- apply Forall_concat, Forall_forall. intros ls Hls.
           apply list_elem_of_fmap in Hls as (p & -> & Hp).
           rewrite Forall_forall in Hclean. by apply blockLines_newlineFree, Hclean.
      * apply Forall_forall. intros ls Hls.
        apply list_elem_of_fmap in Hls as (p & -> & Hp). apply blockLines_ne_nil.
    + intros Hin. apply list_elem_of_In, in_concat in Hin as (ls & Hls & Hin).
      apply list_elem_of_In, list_elem_of_fmap in Hls as (p & -> & Hp).
      pose proof (blockLines_truthy p) as Ht. rewrite Forall_forall in Ht.
      apply list_elem_of_In in Hin. by apply Ht in Hin.
Qed.

(** ** The output for empty options (C5) *)

(** C5. With no policies list (absent, or empty), no [policyBuilder], no
    sitemaps and no footer, the output is exactly [User-agent: *],
    newline, [Allow: /], newline, for every context and whatever the
    other options are; nothing is invoked. *)
Theorem C5_default_output {W Exn : Type} (ctx : Ctx) (env : Env W)
    (dir name : option jsstring) (noStore : option bool) :
  Index.buildContent (Exn:=Exn) ctx
    {| outputDir := dir; filename := name; policies := None; policyBuilder := None;
       sitemaps := None; footerComment := None; noStoreInDev := noStore |} env
  = (Ret (lit "User-agent: *" ++ nl ++ lit "Allow: /" ++ nl), env)
  /\ Index.buildContent (Exn:=Exn) ctx
    {| outputDir := dir; filename := name; policies := Some []; policyBuilder := None;
       sitemaps := None; footerComment := None; noStoreInDev := noStore |} env
  = (Ret (lit "User-agent: *" ++ nl ++ lit "Allow: /" ++ nl), env).
Proof. split; reflexivity. Qed.

(** ** The sitemap block (C6) *)

(** C6, as stated, fails. An entry of the sitemap sequence that holds a
    newline is not rendered as one [Sitemap] line: the block has two
    lines for the one entry, in both copies of the plugin. And the block
    is not always separated from the head by exactly one blank line: with
    allow paths that end in a newline the strip of [src/index.ts] stops
    at the first of them, the head keeps two newlines at its end and two
    blank lines stand between the last rule and the [Sitemap] line. *)
Lemma C6_counterexample :
  Index.buildContent prodCtx newlineUrlOptions freshEnv
  = (Ret (lit "User-agent: *" ++ nl ++ lit "Allow: /" ++ nl ++ nl
          ++ lit "Sitemap: https://x/a" ++ nl ++ lit "https://x/b" ++ nl), freshEnv)
  /\ GenerateRobots.buildContent prodCtx newlineUrlOptions freshEnv
     = Index.buildContent prodCtx newlineUrlOptions freshEnv
  /\ textLines (lit "User-agent: *" ++ nl ++ lit "Allow: /" ++ nl ++ nl
                ++ lit "Sitemap: https://x/a" ++ nl ++ lit "https://x/b" ++ nl)
     = [lit "User-agent: *"; lit "Allow: /"; [];
        lit "Sitemap: https://x/a"; lit "https://x/b"; []]
  /\ Index.buildContent prodCtx newlinePathsOptions freshEnv
     = (Ret (lit "User-agent: *" ++ nl ++ lit "Allow: /a" ++ nl ++ lit "Allow: /b" ++ nl
             ++ nl ++ nl ++ lit "Sitemap: https://x/sitemap.xml" ++ nl), freshEnv)
  /\ textLines (lit "User-agent: *" ++ nl ++ lit "Allow: /a" ++ nl ++ lit "Allow: /b" ++ nl
                ++ nl ++ nl ++ lit "Sitemap: https://x/sitemap.xml" ++ nl)
     = [lit "User-agent: *"; lit "Allow: /a"; lit "Allow: /b"; []; [];
        lit "Sitemap: https://x/sitemap.xml"; []].
Proof. repeat split; vm_compute; reflexivity. Qed.

(** C6, amended. Let the resolved policies and the URLs of the sitemap
    sequence hold no newline character. The sitemap sequence is the list
    of the options or what their function returns for the context. The
    head is then a text that does not end in a newline, followed by one
    newline. When the sequence is not empty, the output is the head, one
    newline, one [Sitemap: url] line for every entry, in the given order
    and with duplicates kept, one newline, and the footer block: an empty
    line, and no more, stands between the head and the block, and the
    last line of the block is followed by one newline. When the sequence
    is empty or absent, the output is the head followed by the footer
    block, with nothing in between. *)
Theorem C6_sitemap_block {W Exn : Type}
    (ctx : Ctx) (opts : RobotsOptions W Exn) (env e1 e2 env' : Env W)
    (ps : list RobotsPolicy) (urls : option (list jsstring)) (foot : option jsstring)
    (Hpolicies : resolvePolicies ctx opts env = (Ret ps, e1))
    (Hsitemaps : sitemapsGiven ctx opts e1 urls e2)
    (Hfoot : resolveFoot ctx opts e2 = (Ret foot, env'))
    (Hclean : Forall cleanPolicy ps)
    (Hurls : Forall newlineFree (default [] urls)) :
  let head := Index.serializePolicies ps in
  let sitemapLines := map (fun u => lit "Sitemap: " ++ u) (default [] urls) in
  (exists x, head = x ++ nl /\ last x <> Some 10)
  /\ (default [] urls <> [] ->
        Index.buildContent ctx opts env
        = (Ret (head ++ nl ++ join nl sitemapLines ++ nl ++ footerBlock foot), env')
        /\ textLines (join nl sitemapLines) = sitemapLines
        /\ length sitemapLines = length (default [] urls)
        /\ last (join nl sitemapLines) <> Some 10)
  /\ (default [] urls = [] ->
        Index.buildContent ctx opts env = (Ret (head ++ footerBlock foot), env')).
Proof.
  intros head sitemapLines.
  assert (Hrun : Index.buildContent ctx opts env
                 = (Ret (assemble head (smBlock urls) (footerBlock foot)), env')).
  { apply buildContentWith_Ret. exists ps, urls, foot, e1, e2.
    split; [done|]. split; [by apply sitemapsGiven_run|done]. }
  split; [by apply serializePolicies_one_newline|]. split.
  - intros Hne. destruct urls as [[|u us]|]; [done| |done]. cbn [default] in *.
    change (id (u :: us)) with (u :: us) in *.
    split; [by rewrite Hrun, assemble_sitemaps|].
    split; [|split; [apply length_map|]].
    + apply textLines_join; [done|]. apply Forall_forall. intros l Hl.
      apply list_elem_of_fmap in Hl as (v & -> & Hv).
      rewrite Forall_forall in Hurls. by apply newlineFree_sitemapLine, Hurls.
    + apply join_last. by apply (sitemapLines_last (u :: us)).
  - intros Hnil.
    assert (Hb : smBlock urls = []) by (by destruct urls as [[|u us]|]).
    rewrite Hrun, Hb. unfold head. by rewrite assemble_no_sitemaps_clean.
Qed.

(** Sitemaps given by a function that returns the same URL twice, and a
    footer. *)
Lemma C6_witness :
  Index.buildContent prodCtx sitemapsFnOptions freshEnv
  = (Ret (lit "User-agent: *" ++ nl ++ lit "Allow: /" ++ nl
          ++ nl ++ lit "Sitemap: https://x/sitemap.xml" ++ nl
          ++ lit "Sitemap: https://x/sitemap.xml" ++ nl
          ++ nl ++ lit "# built by CI" ++ nl),
     {| world := tt; calls := [SitemapsCall prodCtx] |}).
Proof.
  refine (proj1 (proj1 (proj2 (C6_sitemap_block prodCtx sitemapsFnOptions
                                 freshEnv freshEnv
                                 {| world := tt; calls := [SitemapsCall prodCtx] |}
                                 {| world := tt; calls := [SitemapsCall prodCtx] |}
                                 defaultPolicies
                                 (Some [lit "https://x/sitemap.xml";
                                        lit "https://x/sitemap.xml"])
                                 (Some (lit "built by CI")) _ _ _ _ _)) _)).
  - reflexivity.
  - split; reflexivity.
  - reflexivity.
  - repeat constructor; unfold newlineFree; compute_done.
  - repeat constructor; unfold newlineFree; compute_done.
  - discriminate.
Defined.

(** ** The footer block (C7) *)

(** C7, as stated, fails: a footer of three spaces is blank after
    trimming, yet a footer block (a comment line with no text) is emitted
    and the output differs from the output without footer. *)
Lemma C7_counterexample :
  trim (lit "   ") = []
  /\ footerComment blankFooterOptions = Some (FooterText (lit "   "))
  /\ Index.buildContent prodCtx blankFooterOptions freshEnv
     = (Ret (lit "User-agent: *" ++ nl ++ lit "Allow: /" ++ nl
             ++ nl ++ lit "# " ++ nl), freshEnv)
  /\ Index.buildContent prodCtx blankFooterOptions freshEnv
     <> Index.buildContent prodCtx noOptions freshEnv.
Proof. repeat split; try reflexivity. discriminate. Qed.

(** C7, amended. The footer block is emitted exactly when the resolved
    footer is a non-empty string, the test being made before trimming. An
    absent or empty footer leaves the output as it is without footer. A
    non-empty footer makes the output end with a blank line, then [# ]
    followed by the trimmed text, then a newline; for a footer that is
    only whitespace the comment line has no text. *)
Theorem C7_footer_block {W Exn : Type}
    (ctx : Ctx) (opts : RobotsOptions W Exn) (env e1 e2 env' : Env W)
    (ps : list RobotsPolicy) (sm : option (list jsstring)) (foot : option jsstring)
    (Hpolicies : resolvePolicies ctx opts env = (Ret ps, e1))
    (Hsitemaps : resolveSitemaps ctx opts e1 = (Ret sm, e2))
    (Hfoot : resolveFoot ctx opts e2 = (Ret foot, env')) :
  let front := headAndSitemaps (Index.serializePolicies ps) sm in
  (foot = None \/ foot = Some [] ->
     Index.buildContent ctx opts env = (Ret (replaceNewlinesEnd front), env'))
  /\ (forall f, foot = Some f -> f <> [] ->
        Index.buildContent ctx opts env
        = (Ret (front ++ nl ++ lit "# " ++ trim f ++ nl), env')
        /\ nl `suffix_of` front)
  /\ (forall f, foot = Some f -> f <> [] -> trim f = [] ->
        Index.buildContent ctx opts env = (Ret (front ++ nl ++ lit "# " ++ nl), env')).
Proof.
  intros front.
  assert (Hrun : Index.buildContent ctx opts env
                 = (Ret (assemble (Index.serializePolicies ps) (smBlock sm)
                           (footerBlock foot)), env')).
  { apply buildContentWith_Ret. by exists ps, sm, foot, e1, e2. }
  split; [|split].
  - intros Hf. by rewrite Hrun, assemble_no_footer.
  - intros f -> Hf. rewrite Hrun, assemble_footer by done.
    split; [done|]. apply headAndSitemaps_ends_nl.
  - intros f -> Hf Ht. rewrite Hrun, assemble_footer by done. by rewrite Ht.
Qed.

Lemma C7_witness :
  Index.buildContent prodCtx sitemapFooterOptions freshEnv
  = (Ret (headAndSitemaps (Index.serializePolicies defaultPolicies)
            (Some [lit "https://x/sitemap.xml"])
          ++ nl ++ lit "# " ++ trim (lit "built by CI") ++ nl), freshEnv).
Proof.
  refine (proj1 (proj1 (proj2 (C7_footer_block prodCtx sitemapFooterOptions
                                 freshEnv freshEnv freshEnv freshEnv
                                 defaultPolicies (Some [lit "https://x/sitemap.xml"])
                                 (Some (lit "built by CI")) _ _ _))
                   (lit "built by CI") eq_refl _)); [reflexivity..|discriminate].
Defined.

(** ** End of file (C8) *)

(** C8. The output never ends with three or more newlines: with the
    policies, the sitemaps and the footer that the run resolves, it is the
    head, the sitemap block and the footer block put together, with the
    final run of newlines cut down to two when the run is longer, and
    left alone otherwise. A sitemap URL that ends in three newlines makes
    such a run, and the output ends in two. For the sitemaps
    [https://x/sitemap.xml] and the footer [built by CI], whatever the
    policies are, the output ends with the sitemap block followed by a
    newline, [# built by CI] and a newline; with the default policy the
    whole output has no three consecutive newlines anywhere. *)
Theorem C8_end_of_file {W Exn : Type} (ctx : Ctx) (opts : RobotsOptions W Exn) (env : Env W) :
  (forall out env', Index.buildContent ctx opts env = (Ret out, env') ->
     ~ (nl ++ nl ++ nl) `suffix_of` out
     /\ exists ps sm foot e1 e2 body k,
          resolvePolicies ctx opts env = (Ret ps, e1)
          /\ resolveSitemaps ctx opts e1 = (Ret sm, e2)
          /\ resolveFoot ctx opts e2 = (Ret foot, env')
          /\ headAndSitemaps (Index.serializePolicies ps) sm ++ footerBlock foot
             = body ++ replicate k 10
          /\ last body <> Some 10
          /\ out = body ++ replicate (Nat.min k 2) 10)
  /\ (forall out env',
        sitemaps opts = Some (SitemapsList [lit "https://x/sitemap.xml"]) ->
        footerComment opts = Some (FooterText (lit "built by CI")) ->
        Index.buildContent ctx opts env = (Ret out, env') ->
        exists head,
          out = head ++ nl ++ (lit "Sitemap: https://x/sitemap.xml" ++ nl)
                ++ nl ++ lit "# built by CI" ++ nl)
  /\ (forall dir name noStore,
        Index.buildContent (Exn:=Exn) ctx
          {| outputDir := dir; filename := name; policies := None; policyBuilder := None;
             sitemaps := Some (SitemapsList [lit "https://x/sitemap.xml"]);
             footerComment := Some (FooterText (lit "built by CI"));
             noStoreInDev := noStore |} env
        = (Ret (lit "User-agent: *" ++ nl ++ lit "Allow: /" ++ nl
                ++ nl ++ lit "Sitemap: https://x/sitemap.xml" ++ nl
                ++ nl ++ lit "# built by CI" ++ nl), env))
  /\ ~ tripleNewlineInside
        (lit "User-agent: *" ++ nl ++ lit "Allow: /" ++ nl
         ++ nl ++ lit "Sitemap: https://x/sitemap.xml" ++ nl
         ++ nl ++ lit "# built by CI" ++ nl)
  /\ (forall dir name noStore,
        Index.buildContent (Exn:=Exn) ctx
          {| outputDir := dir; filename := name; policies := None; policyBuilder := None;
             sitemaps := Some (SitemapsList [lit "https://x/sitemap.xml" ++ nl ++ nl ++ nl]);
             footerComment := None; noStoreInDev := noStore |} env
        = (Ret (lit "User-agent: *" ++ nl ++ lit "Allow: /" ++ nl
                ++ nl ++ lit "Sitemap: https://x/sitemap.xml" ++ nl ++ nl), env)).
Proof.
  split; [|split; [|split; [|split]]].
  - intros out env' Hrun.
    apply buildContentWith_Ret in Hrun as (ps & sm & foot & e1 & e2 & H1 & H2 & H3 & ->).
    split; [apply replaceNewlinesEnd_no_triple|].
    destruct (trailing_newlines_decompose
                (headAndSitemaps (Index.serializePolicies ps) sm ++ footerBlock foot))
      as (body & k & Heq & Hl).
    exists ps, sm, foot, e1, e2, body, k. repeat (split; [done|]).
    unfold assemble. unfold headAndSitemaps in Heq.
    rewrite <- app_assoc in Heq. rewrite Heq.
    by apply replaceNewlinesEnd_spec.
  - intros out env' Hsm Hfoot Hrun.
    apply buildContentWith_Ret in Hrun as (ps & sm & foot & e1 & e2 & _ & H2 & H3 & ->).
    unfold resolveSitemaps in H2. rewrite Hsm in H2. injection H2 as <- <-.
    unfold resolveFoot in H3. rewrite Hfoot in H3. injection H3 as <- <-.
    exists (Index.serializePolicies ps).
    rewrite assemble_footer by done. unfold headAndSitemaps.
    by rewrite <- !app_assoc.
  - reflexivity.
  - by apply hasTripleNewline_false.
  - reflexivity.
Qed.

(** A run whose assembled text ends in four newlines: the output ends in
    two. *)
Lemma C8_witness :
  Index.buildContent prodCtx trailingNewlinesOptions freshEnv
  = (Ret (lit "User-agent: *" ++ nl ++ lit "Allow: /" ++ nl
          ++ nl ++ lit "Sitemap: https://x/sitemap.xml" ++ nl ++ nl), freshEnv)
  /\ ~ (nl ++ nl ++ nl) `suffix_of`
        (lit "User-agent: *" ++ nl ++ lit "Allow: /" ++ nl
         ++ nl ++ lit "Sitemap: https://x/sitemap.xml" ++ nl ++ nl).
Proof.
  split.
  - exact (proj2 (proj2 (proj2 (proj2 (C8_end_of_file prodCtx trailingNewlinesOptions
                                         freshEnv))))
             None None None).
  - exact (proj1 (proj1 (C8_end_of_file prodCtx trailingNewlinesOptions freshEnv)
                    _ freshEnv eq_refl)).
Defined.

(** ** Writing the file twice (C9) *)

(** C9, as stated, fails. When the file already holds the text, as after
    an earlier build, the two invocations together perform no file write,
    not one. When the text has a surrogate outside a pair, the file holds
    U+FFFD in its place, so the second invocation finds a difference and
    writes again: two file writes. *)
Lemma C9_counterexample :
  (do _ <- writeFileIfChanged parentDir robotsPath defaultText;
   writeFileIfChanged parentDir robotsPath defaultText) builtDisk
  = (Ret tt, builtDisk)
  /\ fileWrites
       (do _ <- writeFileIfChanged parentDir robotsPath defaultText;
        writeFileIfChanged parentDir robotsPath defaultText) builtDisk = 0%nat
  /\ utf8Decode (utf8Encode loneSurrogate) = [65533]
  /\ fileWrites
       (do _ <- writeFileIfChanged parentDir robotsPath loneSurrogate;
        writeFileIfChanged parentDir robotsPath loneSurrogate) emptyDisk = 2%nat.
Proof. repeat split; vm_compute; reflexivity. Qed.

(** C9, amended. When the text is well formed, so that it survives the
    UTF-8 round trip, and the first invocation returns, the second
    invocation with the same text returns, performs no file write and
    leaves the file system as the first left it; the first invocation
    performs no write when the file already held the text and exactly one
    otherwise, so the two together perform at most one. *)
Theorem C9_write_twice (dirname : jsstring -> jsstring)
    (filePath content : jsstring) (d d1 : Disk)
    (Hcontent : wellFormed content = true)
    (Hfirst : writeFileIfChanged dirname filePath content d = (Ret tt, d1)) :
  writeFileIfChanged dirname filePath content d1 = (Ret tt, d1)
  /\ fileWrites (writeFileIfChanged dirname filePath content) d1 = 0%nat
  /\ (holdsText d filePath content -> written d1 = written d)
  /\ (~ holdsText d filePath content ->
      written d1 = written d ++ [(filePath, content)])
  /\ (fileWrites
        (do _ <- writeFileIfChanged dirname filePath content;
         writeFileIfChanged dirname filePath content) d
      <= 1)%nat.
Proof.
  pose proof (writeFileIfChanged_Ret _ _ _ _ _ Hfirst) as (Hdir & Hcases).
  assert (Hheld : holdsText d1 filePath content).
  { destruct Hcases as [(_ & H & _)|(_ & H & _)]; [done|].
    eexists. split; [exact H|]. by apply utf8_roundtrip. }
  pose proof (writeFileIfChanged_unchanged _ _ _ _ Hdir Hheld) as Hsecond.
  split; [done|]. split; [|split; [|split]].
  - unfold fileWrites. rewrite Hsecond. simpl. lia.
  - intros Hd. by destruct Hcases as [(_ & _ & H)|(H & _)].
  - intros Hd. by destruct Hcases as [(H & _)|(_ & _ & H)].
  - unfold fileWrites, bind. rewrite Hfirst, Hsecond. simpl.
    destruct Hcases as [(_ & _ & ->)|(_ & _ & ->)]; rewrite ?length_app; simpl; lia.
Qed.

(** With the directory in place and no file yet: the first invocation
    writes the file, the second changes nothing. *)
Lemma C9_witness :
  writeFileIfChanged parentDir robotsPath defaultText
    {| nodes := <[robotsPath := File (utf8Encode defaultText)]>
                  (<[parentDir robotsPath := Dir]> ∅);
       written := [(robotsPath, defaultText)] |}
  = (Ret tt,
     {| nodes := <[robotsPath := File (utf8Encode defaultText)]>
                   (<[parentDir robotsPath := Dir]> ∅);
        written := [(robotsPath, defaultText)] |}).
Proof.
  refine (proj1 (C9_write_twice parentDir robotsPath defaultText publicDisk _ eq_refl _)).
  vm_compute. reflexivity.
Defined.

(** ** Independence of the context (C10) *)

(** C10. With options that hold no function, the output does not depend on
    the context: for any two contexts both copies of the synthesizer
    return the same text, invoke nothing and leave the world alone. *)
Theorem C10_context_noninterference {W Exn : Type}
    (ctx1 ctx2 : Ctx) (opts : RobotsOptions W Exn) (env : Env W)
    (Hstatic : staticOptions opts = true) :
  Index.buildContent ctx1 opts env = Index.buildContent ctx2 opts env
  /\ GenerateRobots.buildContent ctx1 opts env = GenerateRobots.buildContent ctx2 opts env
  /\ (exists text, Index.buildContent ctx1 opts env = (Ret text, env))
  /\ (exists text, GenerateRobots.buildContent ctx1 opts env = (Ret text, env)).
Proof.
  unfold staticOptions in Hstatic.
  unfold Index.buildContent, GenerateRobots.buildContent, buildContentWith,
    resolvePolicies, resolveSitemaps, resolveFoot, bind, ret.
  destruct (policyBuilder opts) as [b|]; [done|].
  destruct (sitemaps opts) as [[l|f]|]; try done;
    destruct (footerComment opts) as [[t|g]|]; try done;
    destruct (explicitPolicies opts); repeat split; by eexists.
Qed.

Lemma C10_witness :
  Index.buildContent prodCtx sitemapFooterOptions freshEnv
  = Index.buildContent devCtx sitemapFooterOptions freshEnv.
Proof.
  exact (proj1 (C10_context_noninterference prodCtx devCtx sitemapFooterOptions
                  freshEnv eq_refl)).
Defined.

(** * Properties of the code beyond the claims *)

(** ** Deduplication is idempotent (X1) *)

(** X1. [uniq] is idempotent and returns a duplicate-free array as it is;
    for a missing array it returns the empty array, and it never returns
    more elements than it was given. *)
Theorem X1_uniq_idempotent {A : Type} `{EqDecision A} (arr : option (list A)) :
  uniq (Some (uniq arr)) = uniq arr
  /\ (forall l : list A, NoDup l -> uniq (Some l) = l)
  /\ uniq (@None (list A)) = []
  /\ (length (uniq arr) <= length (default [] arr))%nat.
Proof.
  rewrite !uniq_firstOccurrences. cbn [default].
  split; [apply firstOccurrences_NoDup, NoDup_firstOccurrences|].
  split; [intros l Hl; rewrite uniq_firstOccurrences; by apply firstOccurrences_NoDup|].
  split; [done|]. apply length_firstOccurrences.
Qed.

(** ** The user agent of a block (X2) *)

(** X2. The value of the [User-agent] line is never empty and has no white
    space at either end: a missing user agent and one that is empty or
    made of white space only give [*], any other gives its trimmed
    text. *)
Theorem X2_user_agent_value (p : RobotsPolicy) :
  resolveUa p <> []
  /\ (forall c, head (resolveUa p) = Some c -> isSpace c = false)
  /\ (forall c, last (resolveUa p) = Some c -> isSpace c = false)
  /\ (userAgent p = None -> resolveUa p = star)
  /\ (forall ua, userAgent p = Some ua -> blank ua -> resolveUa p = star)
  /\ (forall ua, userAgent p = Some ua -> ~ blank ua ->
        resolveUa p = trim ua /\ trim ua <> [])
  /\ resolveUa {| userAgent := Some (resolveUa p); allow := allow p;
                  disallow := disallow p |} = resolveUa p.
Proof.
  split; [apply resolveUa_ne_nil|]. split; [apply resolveUa_head|].
  split; [apply resolveUa_last|]. split; [|split; [|split]].
  - unfold resolveUa. by intros ->.
  - intros ua Hp Hb. unfold resolveUa. rewrite Hp.
    change (default star (Some ua)) with ua. by rewrite trim_blank.
  - intros ua Hp Hb. unfold resolveUa. rewrite Hp.
    change (default star (Some ua)) with ua.
    destruct (trim_cases ua) as [[Hb' _]|(_ & c & t & -> & _)]; [done|]. by split.
  - unfold resolveUa at 1. cbn [userAgent].
    change (default star (Some (resolveUa p))) with (resolveUa p).
    rewrite trim_fixed by (apply resolveUa_head || apply resolveUa_last).
    pose proof (resolveUa_ne_nil p). by destruct (resolveUa p).
Qed.

(** ** What [lines] keeps (X3) *)

(** X3. [lines] keeps exactly the arguments that are non-empty strings, in
    their order: the result never holds the empty string, arguments that
    are all non-empty strings come back unchanged, the lines of two
    argument lists put together are the lines of the one followed by the
    lines of the other, and applying [lines] to its own result changes
    nothing. *)
Theorem X3_lines_keep_nonempty_strings (xs : list (option jsstring)) :
  (forall s, s ∈ lines xs <-> Some s ∈ xs /\ s <> [])
  /\ ([] ∉ lines xs)
  /\ (lines xs `sublist_of` omap id xs)
  /\ (forall ls, Forall (fun s => s <> []) ls -> lines (map Some ls) = ls)
  /\ (forall ys, lines (xs ++ ys) = lines xs ++ lines ys)
  /\ lines (map Some (lines xs)) = lines xs.
Proof.
  split; [apply elem_of_lines|].
  split; [intros H; by apply elem_of_lines in H as [_ ?]|].
  assert (Hall : forall ls, Forall (fun s : jsstring => s <> []) ls -> lines (map Some ls) = ls).
  { intros ls Hls. apply lines_Some_truthy. eapply Forall_impl; [exact Hls|].
    intros s Hs. by destruct s. }
  split; [|split; [done|split; [apply lines_app|]]].
  - unfold lines. induction xs as [|[s|] xs IH]; cbn [omap list_omap]; [constructor| |done].
    destruct (truthy s); cbn; [by constructor|by apply sublist_cons].
  - apply Hall, Forall_forall. intros s Hs. by apply elem_of_lines in Hs as [_ ?].
Qed.

(** ** Tidy policies (X4) *)

(** X4. For policies whose user agent is on one line and whose paths are
    on one line, not empty and without white space at their end, neither
    strip finds anything to remove: the head is, in both copies of the
    plugin, the lines of the blocks, each followed by one newline. *)
Theorem X4_tidy_policies_head (ps : list RobotsPolicy)
    (Htidy : forallb tidyPolicy ps = true) :
  Index.serializePolicies ps = join nl (concat (map blockLines ps)) ++ nl
  /\ GenerateRobots.serializePolicies ps = Index.serializePolicies ps
  /\ (ps <> [] ->
      textLines (Index.serializePolicies ps) = concat (map blockLines ps) ++ [[]]).
Proof.
  destruct (tidy_heads ps Htidy) as [Hi Hg]. split; [done|]. split; [done|].
  intros Hne. rewrite Hi, textLines_app_nl. f_equal. apply textLines_join.
  - destruct ps as [|p ps]; [done|]. cbn [map concat].
    pose proof (blockLines_ne_nil p). by destruct (blockLines p).
  - eapply Forall_impl; [by apply allLines_tidy|]. intros l Hl.
    apply andb_true_iff in Hl as [_ Hl]. by apply noLineTerminator_newlineFree.
Qed.

Lemma X4_witness :
  GenerateRobots.serializePolicies [googlebot; bingbot]
  = Index.serializePolicies [googlebot; bingbot].
Proof.
  exact (proj1 (proj2 (X4_tidy_policies_head [googlebot; bingbot] eq_refl))).
Defined.

(** ** The two copies on tidy policies (X5) *)

(** X5. The two copies of the synthesizer resolve the options in the same
    way and differ in the strip of the head only. So whenever the policies
    that a run resolves to are tidy, [vite/plugins/generate-robots.ts] and
    [src/index.ts] give the same outcome: the same text, or the same
    exception, with the same invocations of the user functions. *)
Theorem X5_copies_agree_on_tidy_policies {W Exn : Type}
    (ctx : Ctx) (opts : RobotsOptions W Exn) (env : Env W)
    (Htidy : forall ps e1, resolvePolicies ctx opts env = (Ret ps, e1) ->
               forallb tidyPolicy ps = true) :
  GenerateRobots.buildContent ctx opts env = Index.buildContent ctx opts env.
Proof.
  unfold GenerateRobots.buildContent, Index.buildContent, buildContentWith, bind.
  destruct (resolvePolicies ctx opts env) as [[ps|e] e1]; [|done].
  by rewrite (proj2 (tidy_heads ps (Htidy ps e1 eq_refl))).
Qed.

Lemma X5_witness :
  GenerateRobots.buildContent prodCtx listAndBuilderOptions freshEnv
  = Index.buildContent prodCtx listAndBuilderOptions freshEnv.
Proof.
  apply X5_copies_agree_on_tidy_policies. by intros ps e1 [= <- <-].
Defined.

(** ** The head of [vite/plugins/generate-robots.ts] (X6) *)

(** X6. Whatever the policies, the head built by
    [vite/plugins/generate-robots.ts] is a text that does not end in white
    space, followed by one newline; for a non-empty policy list the text
    begins with the [User-agent] line of the first policy, for the empty
    list it is empty. *)
Theorem X6_head_without_trailing_space (ps : list RobotsPolicy) :
  exists x, GenerateRobots.serializePolicies ps = x ++ nl
    /\ (forall c, last x = Some c -> isSpace c = false)
    /\ (ps = [] -> x = [])
    /\ (forall p qs, ps = p :: qs -> uaLine (resolveUa p) `prefix_of` x).
Proof.
  exists (trimEnd (join nl (map block ps))). split; [done|].
  split; [apply last_trimEnd|]. split; [by intros ->|].
  intros p qs ->. destruct (blocks_prefix p qs) as (t & ->).
  apply trimEnd_keeps_prefix, endsTidy_uaLine.
Qed.

(** ** An empty path in front of another block (X7) *)

(** X7. The strip of [src/index.ts] removes the leftmost run of white
    space that stands in front of a line end, and only that one. When a
    policy with one empty disallow path is followed by another policy, the
    run is the space of the line [Disallow: ]: the line loses its space
    and the block of the second policy reaches the head as it is, white
    space at its end included. [vite/plugins/generate-robots.ts] keeps the
    line and strips the end of the head. *)
Theorem X7_strip_stops_at_empty_path (ua : jsstring) (q : RobotsPolicy)
    (Hne : ua <> []) (Hua : Forall (fun c => isSpace c = false) ua) :
  Index.serializePolicies [allowAllFor ua; q]
  = uaLine ua ++ nl ++ lit "Disallow:" ++ nl ++ block q ++ nl
  /\ GenerateRobots.serializePolicies [allowAllFor ua; q]
     = uaLine ua ++ nl ++ lit "Disallow: " ++ nl ++ trimEnd (block q) ++ nl.
Proof.
  assert (Hb : block (allowAllFor ua) = uaLine ua ++ nl ++ lit "Disallow: ").
  { unfold block. rewrite blockLines_eq.
    rewrite (resolveUa_plain ua) by done. reflexivity. }
  unfold Index.serializePolicies, GenerateRobots.serializePolicies.
  cbn [map]. rewrite join_cons_cons. cbn [join]. rewrite Hb. split.
  - assert (Hstrip : replaceSpacesEol ((uaLine ua ++ nl ++ lit "Disallow: ") ++ nl ++ block q)
                     = uaLine ua ++ nl ++ lit "Disallow:" ++ nl ++ block q).
    { destruct (block_prefix q) as (t & ->).
      destruct ua as [|u0 ua]; [done|]. inversion Hua as [|? ? Hu0 Hua']; subst.
      unfold uaLine.
      change (lit "User-agent: ") with (lit "User-agent:" ++ [32]).
      change (lit "Disallow: ") with (lit "Disallow:" ++ [32]).
      rewrite <- !app_assoc.
      rewrite (replaceSpacesEol_nonspace (lit "User-agent:")) by (repeat constructor).
      cbn [app]. rewrite replaceSpacesEol_lone_space by done.
      change (u0 :: ua ++ ?r) with ((u0 :: ua) ++ r).
      rewrite (replaceSpacesEol_nonspace (u0 :: ua)) by done.
      cbn [nl app].
      change (lit "Disallow:" ++ ?r) with (68 :: (lit "isallow:" ++ r)).
      rewrite replaceSpacesEol_lone_space by done.
      change (68 :: (lit "isallow:" ++ ?r)) with (lit "Disallow:" ++ r).
      rewrite (replaceSpacesEol_nonspace (lit "Disallow:")) by (repeat constructor).
      change (replaceSpacesEol (32 :: 10 :: lit "User-agent:" ++ ?r))
        with (replaceSpacesEol (32 :: 10 :: 85 :: (lit "ser-agent:" ++ r))).
      by rewrite replaceSpacesEol_space_newline. }
    rewrite Hstrip. by rewrite <- !app_assoc.
  - rewrite !app_assoc. rewrite trimEnd_app by apply trimEnd_block_ne_nil.
    by rewrite <- !app_assoc.
Qed.

Lemma X7_witness :
  Index.serializePolicies [allowAllFor (lit "Googlebot"); bingbot]
  = uaLine (lit "Googlebot") ++ nl ++ lit "Disallow:" ++ nl ++ block bingbot ++ nl.
Proof.
  refine (proj1 (X7_strip_stops_at_empty_path (lit "Googlebot") bingbot _ _)).
  - discriminate.
  - repeat constructor.
Defined.

(** ** The final replacement in [vite/plugins/generate-robots.ts] (X8) *)

(** X8. In [vite/plugins/generate-robots.ts] the head never ends in more
    than one newline, whatever the policies are. So when no sitemap URL
    has a newline character, the final replacement finds nothing: the
    output is the head, the sitemap block behind one newline when there
    are sitemaps, and the footer block, put together as they are. *)
Theorem X8_final_replacement_idle {W Exn : Type}
    (ctx : Ctx) (opts : RobotsOptions W Exn) (env e1 e2 env' : Env W)
    (ps : list RobotsPolicy) (sm : option (list jsstring)) (foot : option jsstring)
    (Hpolicies : resolvePolicies ctx opts env = (Ret ps, e1))
    (Hsitemaps : resolveSitemaps ctx opts e1 = (Ret sm, e2))
    (Hfoot : resolveFoot ctx opts e2 = (Ret foot, env'))
    (Hurls : Forall newlineFree (default [] sm)) :
  GenerateRobots.buildContent ctx opts env
  = (Ret (headAndSitemaps (GenerateRobots.serializePolicies ps) sm ++ footerBlock foot),
     env')
  /\ replaceNewlinesEnd
       (headAndSitemaps (GenerateRobots.serializePolicies ps) sm ++ footerBlock foot)
     = headAndSitemaps (GenerateRobots.serializePolicies ps) sm ++ footerBlock foot.
Proof.
  assert (Hrun : GenerateRobots.buildContent ctx opts env
                 = (Ret (assemble (GenerateRobots.serializePolicies ps) (smBlock sm)
                           (footerBlock foot)), env')).
  { apply buildContentWith_Ret. by exists ps, sm, foot, e1, e2. }
  assert (Hid : assemble (GenerateRobots.serializePolicies ps) (smBlock sm) (footerBlock foot)
                = headAndSitemaps (GenerateRobots.serializePolicies ps) sm
                  ++ footerBlock foot).
  { destruct sm as [[|u us]|].
    - unfold headAndSitemaps. cbn [smBlock truthy]. rewrite app_nil_r.
      apply assemble_no_sitemaps, last_not_nl_of_not_space, last_trimEnd.
    - rewrite assemble_sitemaps by done. unfold headAndSitemaps. cbn [smBlock].
      assert (Ht : truthy (join nl (map sitemapLine (u :: us)) ++ nl) = true).
      { by destruct (join nl (map sitemapLine (u :: us))). }
      rewrite Ht. by rewrite <- !app_assoc.
    - unfold headAndSitemaps. cbn [smBlock truthy]. rewrite app_nil_r.
      apply assemble_no_sitemaps, last_not_nl_of_not_space, last_trimEnd. }
  split; [by rewrite Hrun, Hid|].
  rewrite <- Hid at 2. unfold assemble, headAndSitemaps. by rewrite <- app_assoc.
Qed.

Lemma X8_witness :
  GenerateRobots.buildContent prodCtx sitemapFooterOptions freshEnv
  = (Ret (headAndSitemaps (GenerateRobots.serializePolicies defaultPolicies)
            (Some [lit "https://x/sitemap.xml"])
          ++ footerBlock (Some (lit "built by CI"))), freshEnv).
Proof.
  refine (proj1 (X8_final_replacement_idle prodCtx sitemapFooterOptions
                   freshEnv freshEnv freshEnv freshEnv
                   defaultPolicies (Some [lit "https://x/sitemap.xml"])
                   (Some (lit "built by CI")) _ _ _ _)); [reflexivity..|].
  repeat constructor. unfold newlineFree. compute_done.
Defined.

(** ** The last character of the output (X9) *)

(** X9. Whatever the options are, the output of either copy of the
    synthesizer is not empty and ends with a newline: it is a text that
    does not end in a newline, followed by one newline or by two. *)
Theorem X9_output_ends_with_newline {W Exn : Type}
    (ctx : Ctx) (opts : RobotsOptions W Exn) (env : Env W) :
  (forall out env', Index.buildContent ctx opts env = (Ret out, env') ->
     exists body, last body <> Some 10 /\ (out = body ++ nl \/ out = body ++ nl ++ nl))
  /\ (forall out env', GenerateRobots.buildContent ctx opts env = (Ret out, env') ->
        exists body, last body <> Some 10 /\ (out = body ++ nl \/ out = body ++ nl ++ nl)).
Proof.
  split; intros out env' Hrun;
    apply buildContentWith_Ret in Hrun as (ps & sm & foot & e1 & e2 & _ & _ & _ & ->);
    apply assemble_ends_nl.
Qed.

(** ** Exceptions of the user functions (X10) *)

(** X10. [buildContent] throws exactly when one of the user functions it
    invokes throws, and then it throws that exception at once: the
    functions whose turn would come later are not invoked. The policy
    builder comes first, then the sitemaps function, then the footer
    function. *)
Theorem X10_exceptions_propagate {W Exn : Type}
    (ctx : Ctx) (opts : RobotsOptions W Exn) (env : Env W) :
  (forall f e w', explicitPolicies opts = None -> policyBuilder opts = Some f ->
     f ctx (world env) = (Throw e, w') ->
     Index.buildContent ctx opts env
     = (Throw e, {| world := w'; calls := calls env ++ [PolicyBuilderCall ctx] |}))
  /\ (forall ps e1 g e w', resolvePolicies ctx opts env = (Ret ps, e1) ->
        sitemaps opts = Some (SitemapsFn g) -> g ctx (world e1) = (Throw e, w') ->
        Index.buildContent ctx opts env
        = (Throw e, {| world := w'; calls := calls e1 ++ [SitemapsCall ctx] |}))
  /\ (forall ps sm e1 e2 h e w', resolvePolicies ctx opts env = (Ret ps, e1) ->
        resolveSitemaps ctx opts e1 = (Ret sm, e2) ->
        footerComment opts = Some (FooterFn h) -> h ctx (world e2) = (Throw e, w') ->
        Index.buildContent ctx opts env
        = (Throw e, {| world := w'; calls := calls e2 ++ [FooterCommentCall ctx] |}))
  /\ (forall e env', Index.buildContent ctx opts env = (Throw e, env') ->
        exists c w w', last (calls env') = Some c /\ callCtx c = ctx
          /\ world env' = w'
          /\ match c with
             | PolicyBuilderCall _ =>
                 exists f, policyBuilder opts = Some f /\ f ctx w = (Throw e, w')
             | SitemapsCall _ =>
                 exists g, sitemaps opts = Some (SitemapsFn g) /\ g ctx w = (Throw e, w')
             | FooterCommentCall _ =>
                 exists h, footerComment opts = Some (FooterFn h)
                           /\ h ctx w = (Throw e, w')
             end).
Proof.
  split; [|split; [|split]].
  - intros f e w' He Hb Hf. apply buildContentWith_Throw. left.
    apply resolvePolicies_Throw. exists f. by rewrite Hf.
  - intros ps e1 g e w' H1 Hs Hg. apply buildContentWith_Throw. right.
    exists ps, e1. split; [done|]. left. apply resolveSitemaps_Throw. exists g. by rewrite Hg.
  - intros ps sm e1 e2 h e w' H1 H2 Hf Hh. apply buildContentWith_Throw. right.
    exists ps, e1. split; [done|]. right. exists sm, e2. split; [done|].
    apply resolveFoot_Throw. exists h. by rewrite Hh.
  - intros e env' Hrun.
    apply buildContentWith_Throw in Hrun as [H|(ps & e1 & _ & [H|(sm & e2 & _ & H)])].
    + apply resolvePolicies_Throw in H as (f & _ & Hb & Hf & ->).
      exists (PolicyBuilderCall ctx), (world env), (f ctx (world env)).2.
      cbn [calls world]. rewrite last_snoc. repeat split. exists f. split; [done|].
      by destruct (f ctx (world env)); simplify_eq/=.
    + apply resolveSitemaps_Throw in H as (g & Hs & Hg & ->).
      exists (SitemapsCall ctx), (world e1), (g ctx (world e1)).2.
      cbn [calls world]. rewrite last_snoc. repeat split. exists g. split; [done|].
      by destruct (g ctx (world e1)); simplify_eq/=.
    + apply resolveFoot_Throw in H as (h & Hs & Hh & ->).
      exists (FooterCommentCall ctx), (world e2), (h ctx (world e2)).2.
      cbn [calls world]. rewrite last_snoc. repeat split. exists h. split; [done|].
      by destruct (h ctx (world e2)); simplify_eq/=.
Qed.

(** At options whose sitemaps function throws: the policy builder has
    run, the footer function has not. *)
Lemma X10_witness :
  Index.buildContent prodCtx failingSitemapsOptions {| world := O; calls := [] |}
  = (Throw tt, {| world := 1%nat;
                  calls := [PolicyBuilderCall prodCtx; SitemapsCall prodCtx] |}).
Proof.
  exact (proj1 (proj2 (X10_exceptions_propagate prodCtx failingSitemapsOptions
                         {| world := O; calls := [] |}))
           [bingbot] {| world := 1%nat; calls := [PolicyBuilderCall prodCtx] |}
           failingBuilder tt 1%nat eq_refl eq_refl eq_refl).
Defined.

(** ** The invocations of a run (X11) *)

(** X11. Each user function is invoked at most once in a run, with the
    context of the run, in the order policy builder, sitemaps function,
    footer function. A run that returns has invoked exactly the functions
    that the options call for: the policy builder when there is one and
    the explicit list is absent or empty, the sitemaps function and the
    footer function when these options are functions. A run that throws
    has invoked the first of them, up to the one that threw. *)
Theorem X11_invocations {W Exn : Type}
    (ctx : Ctx) (opts : RobotsOptions W Exn) (env : Env W) :
  NoDup (expectedCalls ctx opts)
  /\ Forall (fun c => callCtx c = ctx) (expectedCalls ctx opts)
  /\ (exists made,
        calls (Index.buildContent ctx opts env).2 = calls env ++ made
        /\ made `prefix_of` expectedCalls ctx opts
        /\ (forall text, (Index.buildContent ctx opts env).1 = Ret text ->
              made = expectedCalls ctx opts))
  /\ (exists made,
        calls (GenerateRobots.buildContent ctx opts env).2 = calls env ++ made
        /\ made `prefix_of` expectedCalls ctx opts
        /\ (forall text, (GenerateRobots.buildContent ctx opts env).1 = Ret text ->
              made = expectedCalls ctx opts)).
Proof.
  split; [apply expectedCalls_NoDup|]. split; [apply expectedCalls_ctx|].
  split; apply buildContentWith_log.
Qed.

(** ** Well formed output (X12) *)

(** X12. When the policies, the sitemap URLs and the footer that the
    options resolve to are well formed strings (no surrogate outside a
    pair), so is the output of either copy of the synthesizer: trimming,
    the two strips and the final replacement remove white space only and
    never split a pair. Such an output is the same after being written as
    UTF-8 and read back. *)
Theorem X12_output_well_formed {W Exn : Type}
    (ctx : Ctx) (opts : RobotsOptions W Exn) (env e1 e2 env' : Env W)
    (ps : list RobotsPolicy) (sm : option (list jsstring)) (foot : option jsstring)
    (Hpolicies : resolvePolicies ctx opts env = (Ret ps, e1))
    (Hsitemaps : resolveSitemaps ctx opts e1 = (Ret sm, e2))
    (Hfoot : resolveFoot ctx opts e2 = (Ret foot, env'))
    (Hps : forallb wellFormedPolicy ps = true)
    (Hsm : forallb wellFormed (default [] sm) = true)
    (Hft : wellFormed (default [] foot) = true) :
  (exists out, Index.buildContent ctx opts env = (Ret out, env')
     /\ wellFormed out = true /\ utf8Decode (utf8Encode out) = out)
  /\ (exists out, GenerateRobots.buildContent ctx opts env = (Ret out, env')
        /\ wellFormed out = true /\ utf8Decode (utf8Encode out) = out).
Proof.
  destruct (wellFormed_heads ps Hps) as [Hi Hg].
  split; eexists; (split; [apply buildContentWith_Ret; by exists ps, sm, foot, e1, e2|]).
  - pose proof (wellFormed_assemble _ sm foot Hi Hsm Hft) as Hw.
    split; [done|by apply utf8_roundtrip].
  - pose proof (wellFormed_assemble _ sm foot Hg Hsm Hft) as Hw.
    split; [done|by apply utf8_roundtrip].
Qed.

Lemma X12_witness :
  exists out, Index.buildContent prodCtx sitemapFooterOptions freshEnv = (Ret out, freshEnv)
    /\ wellFormed out = true /\ utf8Decode (utf8Encode out) = out.
Proof.
  exact (proj1 (X12_output_well_formed prodCtx sitemapFooterOptions
                  freshEnv freshEnv freshEnv freshEnv
                  defaultPolicies (Some [lit "https://x/sitemap.xml"])
                  (Some (lit "built by CI")) eq_refl eq_refl eq_refl
                  eq_refl eq_refl eq_refl)).
Defined.

(** ** What stands in the way of the file (X13) *)

(** X13. [ensureDir] is content with anything at the path; with nothing
    there it makes the missing directories of the lineage, or fails with
    [ENOTDIR] and makes nothing when a file is in the way. When the
    output path is a directory, [writeFileIfChanged] does not return:
    with the parent of the path in place it fails on reading the path,
    with [EISDIR], and leaves the disk as it was; in general it fails
    with [EISDIR] once [ensureDir] has done its work, and writes nothing,
    or [mkdir] fails before. When the parent of the output path
    is a file and nothing is at the output path, [ensureDir] is content
    with the file, the write fails with [ENOTDIR] and the disk is left as
    it was. When the parent is missing and the nearest path above it that
    is there is a file, [mkdir] fails with [ENOTDIR] and makes nothing. *)
Theorem X13_write_errors (dirname : jsstring -> jsstring) (p c : jsstring) (d : Disk) :
  ensureDir dirname (dirname p) d
  = (if ensurable dirname d (dirname p)
     then (Ret tt, ensured dirname (dirname p) d)
     else (Throw ENOTDIR, d))
  /\ (nodes d !! p = Some Dir ->
     (ensurable dirname d (dirname p) = true ->
        writeFileIfChanged dirname p c d
        = (Throw EISDIR, ensured dirname (dirname p) d)
        /\ written (ensured dirname (dirname p) d) = written d
        /\ nodes (ensured dirname (dirname p) d) !! p = Some Dir)
     /\ (is_Some (nodes d !! dirname p) ->
          writeFileIfChanged dirname p c d = (Throw EISDIR, d))
     /\ (ensurable dirname d (dirname p) = false ->
          writeFileIfChanged dirname p c d = (Throw ENOTDIR, d)))
  /\ (forall b, nodes d !! dirname p = Some (File b) -> nodes d !! p = None ->
        ensureDir dirname (dirname p) d = (Ret tt, d)
        /\ writeFileIfChanged dirname p c d = (Throw ENOTDIR, d))
  /\ (forall missing f b above,
        lineage dirname (dirname p) = missing ++ f :: above ->
        missing <> [] ->
        Forall (fun q => nodes d !! q = None) missing ->
        nodes d !! f = Some (File b) ->
        ensureDir dirname (dirname p) d = (Throw ENOTDIR, d)
        /\ writeFileIfChanged dirname p c d = (Throw ENOTDIR, d)).
Proof.
  split; [apply ensureDir_run|]. split; [|split].
  - intros Hp. pose proof (ensured_keeps dirname (dirname p) p d Dir Hp) as Hp'.
    split; [|split].
    + intros Hens. rewrite writeFileIfChanged_unfold, Hens, Hp'. by repeat split.
    + intros Hdir. rewrite writeFileIfChanged_unfold.
      unfold ensurable. destruct Hdir as [n Hn]. rewrite Hn.
      rewrite ensured_id by (by eexists). by rewrite Hp.
    + intros Hens. by rewrite writeFileIfChanged_unfold, Hens.
  - intros b Hdir Hp.
    assert (Hens : ensurable dirname d (dirname p) = true)
      by (unfold ensurable; by rewrite Hdir).
    split.
    + rewrite ensureDir_run, Hens, ensured_id; [done|by eexists].
    + rewrite writeFileIfChanged_unfold, Hens, ensured_id by (by eexists).
      rewrite Hp. unfold writeFileSync. by rewrite Hp, Hdir.
  - intros missing f b above Hline Hne Hmissing Hf.
    assert (Hens : ensurable dirname d (dirname p) = false).
    { unfold ensurable. rewrite Hline. rewrite (wayClear_file d missing above f b) by done.
      destruct missing as [|q missing]; [done|].
      unfold lineage in Hline. injection Hline as <- _.
      apply Forall_cons in Hmissing as [-> _]. done. }
    split.
    + by rewrite ensureDir_run, Hens.
    + by rewrite writeFileIfChanged_unfold, Hens.
Qed.

(** A directory at the output path, a file as the parent, and a file above
    the missing parent. *)
Lemma X13_witness :
  writeFileIfChanged parentDir robotsPath defaultText directoryAtTargetDisk
  = (Throw EISDIR, directoryAtTargetDisk)
  /\ writeFileIfChanged parentDir robotsPath defaultText fileInTheWayDisk
     = (Throw ENOTDIR, fileInTheWayDisk)
  /\ writeFileIfChanged parentDir robotsPath defaultText fileAboveDisk
     = (Throw ENOTDIR, fileAboveDisk).
Proof.
  split; [|split].
  - refine (proj1 (proj2 (proj1 (proj2 (X13_write_errors parentDir robotsPath defaultText
                                          directoryAtTargetDisk)) _)) _).
    + vm_compute. reflexivity.
    + exists Dir. vm_compute. reflexivity.
  - refine (proj2 (proj1 (proj2 (proj2 (X13_write_errors parentDir robotsPath defaultText
                                          fileInTheWayDisk))) [] _ _));
      vm_compute; reflexivity.
  - refine (proj2 (proj2 (proj2 (proj2 (X13_write_errors parentDir robotsPath defaultText
                                          fileAboveDisk)))
                     [lit "/app/public"] (lit "/app") [] [lit "/"] _ _ _ _)).
    + vm_compute. reflexivity.
    + discriminate.
    + repeat constructor.
    + vm_compute. reflexivity.
Defined.

(** ** When the write succeeds (X14) *)

(** X14. When no path above the output path is a file, the output path is
    no directory and is not one of the paths above itself,
    [writeFileIfChanged] returns: afterwards the parent is a directory
    and the file holds the text, so that reading it gives the text back;
    the file is written when it did not hold the text, and only then. The
    directories made are the missing ones of the lineage of the parent,
    below the nearest one that was there; whatever else was on the disk
    is as before. *)
Theorem X14_write_succeeds (dirname : jsstring -> jsstring) (p c : jsstring) (d : Disk)
    (Hway : noFileAbove dirname d p)
    (Htarget : nodes d !! p <> Some Dir)
    (Hoff : p ∉ lineage dirname (dirname p))
    (Hcontent : wellFormed c = true) :
  exists d1,
    writeFileIfChanged dirname p c d = (Ret tt, d1)
    /\ nodes d1 !! dirname p = Some Dir
    /\ readFileSync p d1 = (Ret c, d1)
    /\ (holdsText d p c -> nodes d1 !! p = nodes d !! p /\ written d1 = written d)
    /\ (~ holdsText d p c ->
          nodes d1 !! p = Some (File (utf8Encode c))
          /\ written d1 = written d ++ [(p, c)])
    /\ (forall q, q <> p ->
          nodes d1 !! q
          = match nodes d !! q with
            | Some n => Some n
            | None =>
                if decide (q ∈ missingAlong d (lineage dirname (dirname p)))
                then Some Dir else None
            end).
Proof.
  assert (Hparent : dirname p <> p).
  { intros Heq. apply Hoff. rewrite Heq at 1. apply elem_of_cons. by left. }
  destruct (writeFileIfChanged_returns dirname p c d Hway Htarget Hoff)
    as [Hdir [[Hh Hrun]|[Hn Hrun]]]; eexists; (split; [exact Hrun|]).
  - split; [done|]. split; [|split; [|split]].
    + by apply readFileSync_holdsText, holdsText_ensured.
    + intros _. split; [by apply ensured_other|done].
    + done.
    + intros q _. apply ensured_lookup.
  - cbn [nodes written]. split; [by rewrite lookup_insert_ne|]. split; [|split; [|split]].
    + apply readFileSync_holdsText. eexists. cbn [nodes]. rewrite lookup_insert_eq.
      split; [done|]. by apply utf8_roundtrip.
    + done.
    + intros _. by rewrite lookup_insert_eq.
    + intros q Hq. rewrite lookup_insert_ne by done. apply ensured_lookup.
Qed.

(** In a project directory without [public]: the directory is made and
    the file written. *)
Lemma X14_witness :
  exists d1,
    writeFileIfChanged parentDir robotsPath defaultText projectDisk = (Ret tt, d1)
    /\ nodes d1 !! lit "/app/public" = Some Dir
    /\ readFileSync robotsPath d1 = (Ret defaultText, d1).
Proof.
  destruct (X14_write_succeeds parentDir robotsPath defaultText projectDisk)
    as (d1 & Hrun & Hdir & Hread & _).
  - unfold noFileAbove. vm_compute. repeat constructor; (by left) || (by right).
  - vm_compute. discriminate.
  - compute_done.
  - reflexivity.
  - by exists d1.
Defined.

(** ** What the write leaves alone (X15) *)

(** X15. Whatever its outcome, [writeFileIfChanged] touches nothing but
    the output path and the paths above it: every other path is as
    before; whatever was at a path other than the output path stays as it
    was, and what appears at such a path is a directory; nothing that was
    there is removed, a directory stays a directory, and the log of file
    writes grows by the one write of the text to the output path or not at
    all. When the call throws, no file has been written or changed. *)
Theorem X15_write_frame (dirname : jsstring -> jsstring) (p c : jsstring) (d : Disk) :
  let r := writeFileIfChanged dirname p c d in
  (forall q, q <> p -> q ∉ lineage dirname (dirname p) -> nodes r.2 !! q = nodes d !! q)
  /\ (forall q n, q <> p -> nodes d !! q = Some n -> nodes r.2 !! q = Some n)
  /\ (forall q, q <> p -> nodes d !! q = None ->
        nodes r.2 !! q = None \/ nodes r.2 !! q = Some Dir)
  /\ (forall q, is_Some (nodes d !! q) -> is_Some (nodes r.2 !! q))
  /\ (forall q, nodes d !! q = Some Dir -> nodes r.2 !! q = Some Dir)
  /\ (written r.2 = written d \/ written r.2 = written d ++ [(p, c)])
  /\ (forall e, r.1 = Throw e ->
        written r.2 = written d
        /\ forall q b, nodes d !! q = Some (File b) -> nodes r.2 !! q = Some (File b)).
Proof.
  intros r. subst r.
  pose proof (ensured_written dirname (dirname p) d) as Hw.
  destruct (writeFileIfChanged_cases dirname p c d)
    as [[_ ->]|[(e & ->)|[(_ & ->)|(_ & Hnd & _ & ->)]]]; cbn [fst snd nodes written].
  - split; [done|]. split; [done|]. split; [by left|]. split; [done|].
    split; [done|]. split; [by left|]. done.
  - split; [intros q _ Hq; by apply ensured_other|].
    split; [intros q n _ Hq; by apply ensured_keeps|].
    split; [intros q _ Hq; by apply ensured_new|].
    split; [intros q [n Hn]; exists n; by apply ensured_keeps|].
    split; [intros q Hq; by apply ensured_keeps|]. split; [by left|].
    intros _ _. split; [done|]. intros q b Hq. by apply ensured_keeps.
  - split; [intros q _ Hq; by apply ensured_other|].
    split; [intros q n _ Hq; by apply ensured_keeps|].
    split; [intros q _ Hq; by apply ensured_new|].
    split; [intros q [n Hn]; exists n; by apply ensured_keeps|].
    split; [intros q Hq; by apply ensured_keeps|]. split; [by left|]. done.
  - split; [|split; [|split; [|split; [|split; [|split; [|done]]]]]].
    + intros q Hq Hq'. rewrite lookup_insert_ne by done. by apply ensured_other.
    + intros q n Hq Hn. rewrite lookup_insert_ne by done. by apply ensured_keeps.
    + intros q Hq Hn. rewrite lookup_insert_ne by done. by apply ensured_new.
    + intros q [n Hn]. destruct (decide (q = p)) as [->|Hne].
      * rewrite lookup_insert_eq. by eexists.
      * rewrite lookup_insert_ne by done. exists n. by apply ensured_keeps.
    + intros q Hq. apply (ensured_keeps dirname (dirname p)) in Hq.
      rewrite lookup_insert_ne; [done|]. by intros ->.
    + right. by rewrite Hw.
Qed.

(** ** The output directory (X16) *)

(** X16. [detectOutputDir] only looks: it returns and leaves the disk as
    it is. An explicit directory that is a non-empty string is resolved
    against the root whatever the disk holds; an empty string counts as no
    directory given. Otherwise the result is [static] under the root as
    soon as anything is at that path, a file included, and [public] under
    the root when nothing is, whether [public] is there or not. *)
Theorem X16_output_directory (resolve : jsstring -> jsstring -> jsstring)
    (root : jsstring) (explicit : option jsstring) (d : Disk) :
  (exists dir, detectOutputDir resolve root explicit d = (Ret dir, d))
  /\ (forall e d', explicit = Some e -> e <> [] ->
        detectOutputDir resolve root explicit d' = (Ret (resolve root e), d'))
  /\ detectOutputDir resolve root (Some []) d = detectOutputDir resolve root None d
  /\ (forall n, nodes d !! resolve root (lit "static") = Some n ->
        detectOutputDir resolve root None d = (Ret (resolve root (lit "static")), d))
  /\ (nodes d !! resolve root (lit "static") = None ->
        detectOutputDir resolve root None d = (Ret (resolve root (lit "public")), d)).
Proof.
  assert (Hauto : forall n, nodes d !! resolve root (lit "static") = Some n ->
            detectOutputDir resolve root None d = (Ret (resolve root (lit "static")), d)).
  { intros n Hn. unfold detectOutputDir, bind. rewrite existsSync_run.
    rewrite bool_decide_eq_true_2; [done|by eexists]. }
  assert (Hnone : nodes d !! resolve root (lit "static") = None ->
            detectOutputDir resolve root None d = (Ret (resolve root (lit "public")), d)).
  { intros Hn. unfold detectOutputDir, bind. rewrite existsSync_run.
    rewrite bool_decide_eq_false_2; [done|]. rewrite Hn. by intros [? ?]. }
  split; [|split; [|done]].
  - destruct explicit as [[|c e]|]; [| by eexists |];
      (destruct (nodes d !! resolve root (lit "static")) as [n|] eqn:Hn;
       [eexists; by apply (Hauto n)|eexists; by apply Hnone]).
  - intros e d' -> He. by destruct e.
Qed.

(** ** A build that writes the file (X17) *)

(** X17. With options that hold no function and whose strings are well
    formed, when no path above the output path is a file, the output path
    is no directory and is not one of the paths above itself,
    [buildStart] returns: the text does not depend on the context, the
    parent is a directory afterwards, reading the output file gives the
    text, the directories made are the missing ones of the lineage of the
    parent, nothing else on the disk has changed and no user function was
    invoked. *)
Theorem X17_build_writes_file {W Exn : Type} (dirname : jsstring -> jsstring)
    (options : RobotsOptions (W * Disk) Exn) (v : IndexPlugin.Vars)
    (env : Env (W * Disk))
    (Hstatic : staticOptions options = true)
    (Hstrings : wellFormedOptions options = true)
    (Hway : noFileAbove dirname (world env).2 (IndexPlugin.outPath v))
    (Htarget : nodes (world env).2 !! IndexPlugin.outPath v <> Some Dir)
    (Hoff : IndexPlugin.outPath v ∉ lineage dirname (dirname (IndexPlugin.outPath v))) :
  exists content d1,
    (forall ctx, Index.buildContent ctx options env = (Ret content, env))
    /\ IndexPlugin.buildStart dirname options v env
       = (Ret tt, {| world := ((world env).1, d1); calls := calls env |})
    /\ nodes d1 !! dirname (IndexPlugin.outPath v) = Some Dir
    /\ readFileSync (IndexPlugin.outPath v) d1 = (Ret content, d1)
    /\ (forall q, q <> IndexPlugin.outPath v ->
          nodes d1 !! q
          = match nodes (world env).2 !! q with
            | Some n => Some n
            | None =>
                if decide (q ∈ missingAlong (world env).2
                                 (lineage dirname (dirname (IndexPlugin.outPath v))))
                then Some Dir else None
            end).
Proof.
  set (p := IndexPlugin.outPath v) in *. set (c := staticText options).
  pose proof (staticText_wellFormed _ Hstrings) as Hc. fold c in Hc.
  assert (Hparent : dirname p <> p).
  { intros Heq. apply Hoff. rewrite Heq at 1. apply elem_of_cons. by left. }
  assert (Hbuild : forall d1, writeFileIfChanged dirname p c (world env).2 = (Ret tt, d1) ->
            IndexPlugin.buildStart dirname options v env
            = (Ret tt, {| world := ((world env).1, d1); calls := calls env |})).
  { intros d1 Hrun. rewrite buildStart_static by done. by apply onDisk_Ret. }
  destruct (writeFileIfChanged_returns dirname p c (world env).2 Hway Htarget Hoff)
    as [Hdir [[Hh Hrun]|[Hn Hrun]]]; exists c; eexists;
    (split; [intros ctx; by apply static_run|]); (split; [by apply Hbuild|]).
  - split; [done|]. split; [by apply readFileSync_holdsText, holdsText_ensured|].
    intros q _. apply ensured_lookup.
  - cbn [nodes]. split; [by rewrite lookup_insert_ne|]. split.
    + apply readFileSync_holdsText. eexists. cbn [nodes]. rewrite lookup_insert_eq.
      split; [done|]. by apply utf8_roundtrip.
    + intros q Hq. rewrite lookup_insert_ne by done. apply ensured_lookup.
Qed.

(** In a project directory without [public]. *)
Lemma X17_witness :
  exists content d1,
    IndexPlugin.buildStart parentDir siteOptions siteVars (siteEnv projectDisk)
    = (Ret tt, siteEnv d1)
    /\ nodes d1 !! lit "/app/public" = Some Dir
    /\ readFileSync robotsPath d1 = (Ret content, d1).
Proof.
  destruct (X17_build_writes_file parentDir siteOptions siteVars (siteEnv projectDisk))
    as (content & d1 & _ & Hrun & Hdir & Hread & _).
  - reflexivity.
  - reflexivity.
  - unfold noFileAbove. vm_compute. repeat constructor; (by left) || (by right).
  - vm_compute. discriminate.
  - compute_done.
  - by exists content, d1.
Defined.

(** ** Building again, and serving (X18) *)

(** X18. With options that hold no function and whose strings are well
    formed, once [buildStart] has returned, the output file holds the text
    of the synthesizer; [buildStart] run again, in whatever mode and
    command, finds it there and changes nothing; and the dev server
    answers with the very text that is in the file. *)
Theorem X18_rebuild_changes_nothing {W Exn : Type} (dirname : jsstring -> jsstring)
    (options : RobotsOptions (W * Disk) Exn) (v : IndexPlugin.Vars)
    (env env1 : Env (W * Disk))
    (Hstatic : staticOptions options = true)
    (Hstrings : wellFormedOptions options = true)
    (Hrun : IndexPlugin.buildStart dirname options v env = (Ret tt, env1)) :
  exists content,
    readFileSync (IndexPlugin.outPath v) (world env1).2 = (Ret content, (world env1).2)
    /\ (forall v', IndexPlugin.outPath v' = IndexPlugin.outPath v ->
          IndexPlugin.buildStart dirname options v' env1 = (Ret tt, env1))
    /\ (forall serverMode v',
          IndexPlugin.handler options serverMode v' env1
          = (Ret (respond (noStoreOf options) content), env1))
    /\ calls env1 = calls env
    /\ (world env1).1 = (world env).1.
Proof.
  rewrite buildStart_static in Hrun by done.
  apply onDisk_Ret_inv in Hrun as [Hrun Henv].
  set (p := IndexPlugin.outPath v) in *. set (c := staticText options) in *.
  pose proof (writeFileIfChanged_Ret _ _ _ _ _ Hrun) as (Hdir & Hcases).
  assert (Hheld : holdsText (world env1).2 p c).
  { destruct Hcases as [(_ & H & _)|(_ & H & _)]; [done|].
    eexists. split; [exact H|]. by apply utf8_roundtrip, staticText_wellFormed. }
  exists c. split; [|split; [|split; [|split]]].
  - destruct Hheld as (b & Hb & Hc). unfold readFileSync. by rewrite Hb, Hc.
  - intros v' Hv. rewrite buildStart_static by done. rewrite Hv. fold p c.
    rewrite (onDisk_Ret _ _ tt (world env1).2).
    + rewrite Henv. done.
    + by apply writeFileIfChanged_unchanged.
  - intros serverMode v'. by apply handler_static.
  - by rewrite Henv.
  - by rewrite Henv.
Qed.

(** From an empty disk: the second build leaves everything as the first
    left it. *)
Lemma X18_witness :
  let env1 := (IndexPlugin.buildStart parentDir siteOptions siteVars (siteEnv emptyDisk)).2 in
  IndexPlugin.buildStart parentDir siteOptions siteVars env1 = (Ret tt, env1).
Proof.
  intros env1.
  destruct (X18_rebuild_changes_nothing parentDir siteOptions siteVars (siteEnv emptyDisk)
              env1 eq_refl eq_refl) as (content & _ & Hagain & _).
  - vm_compute. reflexivity.
  - exact (Hagain siteVars eq_refl).
Defined.

(** ** The context of a build (X19) *)


(** ** The response of the dev server (X20) *)

(** X20. The middleware of [src/index.ts] builds the text with the mode of
    the server, the command [serve] and the root of the closure, whatever
    mode and command the closure holds. When the text is built it sets the
    content type, then the three headers against caching unless
    [noStoreInDev] is [false] (a missing option counts as [true]), and ends
    the response with the text; when a user function throws, the
    exception is passed on and nothing is sent. *)
Theorem X20_dev_response {W Exn : Type}
    (options : RobotsOptions (W * Disk) Exn) (serverMode : jsstring)
    (v : IndexPlugin.Vars) (env : Env (W * Disk)) :
  let ctx := {| mode := serverMode; command := Serve; root := IndexPlugin.rootVar v |} in
  (forall res env', IndexPlugin.handler options serverMode v env = (Ret res, env') <->
     exists content, Index.buildContent ctx options env = (Ret content, env')
                     /\ res = respond (noStoreOf options) content)
  /\ (forall e env', IndexPlugin.handler options serverMode v env = (Throw e, env') <->
        Index.buildContent ctx options env = (Throw e, env'))
  /\ (forall content,
        respond (noStoreOf options) content
        = if bool_decide (noStoreInDev options = Some false)
          then [SetHeader (lit "Content-Type") (lit "text/plain; charset=utf-8");
                EndWith content]
          else [SetHeader (lit "Content-Type") (lit "text/plain; charset=utf-8");
                SetHeader (lit "Cache-Control")
                          (lit "no-store, no-cache, must-revalidate, max-age=0");
                SetHeader (lit "Pragma") (lit "no-cache");
                SetHeader (lit "Expires") (lit "0");
                EndWith content])
  /\ (forall v', IndexPlugin.rootVar v' = IndexPlugin.rootVar v ->
        IndexPlugin.handler options serverMode v' env
        = IndexPlugin.handler options serverMode v env)
  /\ (exists made,
        calls (IndexPlugin.handler options serverMode v env).2 = calls env ++ made
        /\ Forall (fun c => callCtx c = ctx) made).
Proof.
  intros ctx. split; [|split; [|split; [|split]]].
  - intros res env'. unfold IndexPlugin.handler, bind. fold ctx.
    destruct (Index.buildContent ctx options env) as [[content|e] env1].
    + split.
      * intros [= <- <-]. by exists content.
      * by intros (c & [= <- <-] & ->).
    + split; [done|]. by intros (c & [=] & _).
  - intros e env'. unfold IndexPlugin.handler, bind. fold ctx.
    destruct (Index.buildContent ctx options env) as [[content|x] env1];
      split; intros H; try discriminate H; by injection H as -> ->.
  - intros content. unfold noStoreOf, respond.
    by destruct (noStoreInDev options) as [[|]|].
  - intros v' Hv. unfold IndexPlugin.handler. by rewrite Hv.
  - rewrite handler_calls. fold ctx.
    destruct (buildContentWith_log Index.serializePolicies ctx options env)
      as (made & Hc & [k Hk] & _).
    exists made. split; [done|].
    pose proof (expectedCalls_ctx ctx options) as Hall.
    rewrite Hk in Hall. by apply Forall_app in Hall as [? _].
Qed.

(** ** The route of the dev server (X21) *)

(** X21. In [vite/plugins/generate-robots.ts] the route of the dev server
    is the base of the resolved configuration, its final run of slashes
    replaced by one slash, followed by the file name: a base that ends in
    slashes gives exactly one slash in front of the file name, a base that
    does not end in a slash is followed by the file name with no slash in
    between, and a missing configuration or base counts as the base
    [/]. The base so made never ends in two slashes. *)
Theorem X21_dev_route {W Exn : Type}
    (options : RobotsOptions W Exn) (v : GenerateRobotsPlugin.Vars) :
  (GenerateRobotsPlugin.resolvedConfig v = None ->
     GenerateRobotsPlugin.route options v = lit "/" ++ filenameOf options)
  /\ (forall config, GenerateRobotsPlugin.resolvedConfig v = Some config ->
        GenerateRobotsPlugin.configBase config = None ->
        GenerateRobotsPlugin.route options v = lit "/" ++ filenameOf options)
  /\ (forall config body k, GenerateRobotsPlugin.resolvedConfig v = Some config ->
        GenerateRobotsPlugin.configBase config = Some (body ++ replicate (S k) 47) ->
        last body <> Some 47 ->
        GenerateRobotsPlugin.route options v = body ++ lit "/" ++ filenameOf options)
  /\ (forall config b, GenerateRobotsPlugin.resolvedConfig v = Some config ->
        GenerateRobotsPlugin.configBase config = Some b ->
        last b <> Some 47 ->
        GenerateRobotsPlugin.route options v = b ++ filenameOf options)
  /\ ~ (lit "//") `suffix_of` GenerateRobotsPlugin.base v
  /\ replaceSlashesEnd (GenerateRobotsPlugin.base v) = GenerateRobotsPlugin.base v.
Proof.
  unfold GenerateRobotsPlugin.route, GenerateRobotsPlugin.base.
  split; [by intros ->|]. split; [by intros config -> ->|].
  split; [|split; [|split]].
  - intros config body k -> -> Hl. cbn [default]. change (id ?x) with x.
    rewrite replaceSlashesEnd_spec by done. rewrite Nat.min_r by lia.
    by rewrite <- app_assoc.
  - intros config b -> -> Hl. cbn [default]. change (id ?x) with x.
    rewrite <- (app_nil_r b) at 1. change [] with (replicate 0 47) at 1.
    rewrite replaceSlashesEnd_spec by done. by rewrite app_nil_r.
  - apply replaceSlashesEnd_no_double.
  - apply replaceSlashesEnd_idemp.
Qed.

(** ** The hooks of [vite/plugins/generate-robots.ts] (X22) *)


(** ** What the strip of [src/index.ts] removes (X23) *)

(** X23. Whatever the policies, the head of [src/index.ts] is the blocks
    joined by newlines with at most one run of white space taken out,
    followed by a newline. The run taken out stands in front of a line
    end (a line terminator or the end of the text), and no white space
    before it does, so it is the first such run and need not be at the
    end of the text. Nothing is taken out exactly when no white space
    stands in front of a line end. *)
Theorem X23_strip_takes_first_run (ps : list RobotsPolicy) :
  let text := join nl (map block ps) in
  exists pre ws post,
    text = pre ++ ws ++ post
    /\ Index.serializePolicies ps = pre ++ post ++ nl
    /\ blank ws
    /\ eolMultiline post = true
    /\ spaceBeforeEol pre = false
    /\ (ws = [] <-> spaceBeforeEol text = false)
    /\ (spaceBeforeEol text = false <-> Index.serializePolicies ps = text ++ nl).
Proof.
  intros text. unfold Index.serializePolicies. fold text.
  destruct (replaceSpacesEol_leftmost text)
    as (pre & ws & post & Heq & Hws & Hp & Hnil & Hpre & Hr).
  exists pre, ws, post. rewrite Hr, <- app_assoc.
  assert (Hquiet : spaceBeforeEol text = false <-> ws = []).
  { split.
    - intros Hq. apply replaceSpacesEol_quiet in Hq. rewrite Hq in Hr.
      apply (f_equal length) in Hr. rewrite Heq in Hr. rewrite !length_app in Hr.
      destruct ws; [done|]. cbn [length] in Hr. lia.
    - intros ->. destruct (spaceBeforeEol text) eqn:Hs; [|done].
      apply replaceSpacesEol_shorter in Hs. rewrite Hr, Heq, (Hnil eq_refl) in Hs.
      rewrite !length_app in Hs. cbn [length] in Hs. lia. }
  repeat split; try done; try apply Hquiet.
  - intros Hq. apply Hquiet in Hq. subst ws. by rewrite Heq, (Hnil eq_refl), !app_nil_r.
  - intros Hh. apply Hquiet.
    assert (Hl : length (pre ++ post ++ nl) = length (text ++ nl)) by by rewrite Hh.
    rewrite Heq, !length_app in Hl. destruct ws; [done|]. cbn [length] in Hl. lia.
Qed.
